(** * libcsv: the field tokenizer, the ragged buffer and its mutators

    A shallow embedding of [csv.h] (single-header library).  Conventions:

    - [char] is the signed 8-bit type of the x86 ABIs, a [Z] in
      [-128, 127]; [size_t] is 64 bits wide and its arithmetic wraps
      ([wrap64]); [int] is 32 bits wide ([to_int]).
    - A C array is a list.  An access outside the array is a fault: every
      function that touches memory returns an [option], and [None] stands
      for undefined behaviour (out-of-bounds access, signed overflow, a
      zero-sized [realloc]) or for a loop that does not end.
    - The [realloc] calls of [append_row] and [append_field] take their
      outcome from an oracle (a list of booleans, the empty list meaning
      that every further request succeeds).  Every other allocation is
      taken to succeed: [CSV_MALLOC] in [create_field] and
      [read_next_field], and the [realloc] of [set_field] and of
      [add_char].  The last two functions check it and return 1 when it
      fails; that result is not modelled, so [csv_set_field] and
      [csv_copy_field] end with the code 0 whenever they return.
    - The [int] counters of the tokenizer and of the loader ([c] in
      [read_next_field], [i] and [j] in [csv_load]) are not bounded in the
      definitions; the statements that depend on them bound the sizes:
      texts of fewer than [INT_MAX] characters and at most 2^31 rows
      ([text_ok], [table_ok], [int_sized]), or a stream shorter than
      2^31 - 3 bytes. *)

From Stdlib Require Import ZArith Lia List Bool.
From stdpp Require Import base numbers option list.

Open Scope Z_scope.

(** ** Machine integers *)

Definition wrap64 (z : Z) : Z := z mod 2 ^ 64.
Definition to_int (z : Z) : Z := (z + 2 ^ 31) mod 2 ^ 32 - 2 ^ 31.
Definition to_char (z : Z) : Z := (z + 128) mod 256 - 128.
Definition INT_MAX : Z := 2 ^ 31 - 1.

Definition EOF : Z := -1.
Definition NL : Z := 10.

(** ** Arrays *)

(** [a[i]] as an r-value. *)
Definition load {A} (l : list A) (i : Z) : option A :=
  if 0 <=? i then l !! Z.to_nat i else None.

(** [a[i] = x]. *)
Definition store {A} (l : list A) (i : Z) (x : A) : option (list A) :=
  if (0 <=? i) && (i <? Z.of_nat (List.length l))
  then Some (<[Z.to_nat i := x]> l) else None.

(** [realloc(a, count * sizeof *a)] when it succeeds; elements are 8 bytes
    wide (pointers and [size_t]).  The byte count is computed in [size_t];
    a request for zero bytes is a fault. *)
Definition realloc {A} (junk : A) (l : list A) (count : Z) : option (list A) :=
  let bytes := wrap64 (count * 8) in
  if bytes =? 0 then None
  else Some (resize (Z.to_nat (bytes / 8)) junk l).

(** The allocation oracle. *)
Definition oracle := list bool.

Definition realloc_ok (a : oracle) : bool * oracle :=
  match a with
  | [] => (true, [])
  | ok :: a' => (ok, a')
  end.

(** ** C strings *)

(** The characters of a buffer before its first NUL. *)
Fixpoint cstr (s : list Z) : list Z :=
  match s with
  | [] => []
  | c :: s' => if c =? 0 then [] else c :: cstr s'
  end.

Definition strlen (s : list Z) : Z := Z.of_nat (List.length (cstr s)).

(** [strchr(s, c) != NULL]: the terminator is part of the string. *)
Definition strchr (s : list Z) (c : Z) : bool :=
  existsb (Z.eqb c) (cstr s) || (c =? 0).

(** ** Fields *)

Record CSV_FIELD := mkField { text : list Z; length : Z }.

Definition set_field (f : CSV_FIELD) (t : list Z) : CSV_FIELD :=
  {| text := cstr t; length := wrap64 (strlen t + 1) |}.

Definition create_field : CSV_FIELD :=
  set_field {| text := []; length := 0 |} [0].

(** ** Buffers *)

Record CSV_BUFFER := mkBuffer {
  field : list (list CSV_FIELD);
  rows : Z;
  width : list Z;
  field_delim : Z;
  text_delim : Z
}.

Definition csv_create_buffer : CSV_BUFFER :=
  {| field := []; rows := 0; width := [];
     field_delim := 44; text_delim := 34 |}.

Definition with_field (b : CSV_BUFFER) (f : list (list CSV_FIELD)) :=
  {| field := f; rows := rows b; width := width b;
     field_delim := field_delim b; text_delim := text_delim b |}.

Definition with_width (b : CSV_BUFFER) (w : list Z) :=
  {| field := field b; rows := rows b; width := w;
     field_delim := field_delim b; text_delim := text_delim b |}.

Definition with_rows (b : CSV_BUFFER) (n : Z) :=
  {| field := field b; rows := n; width := width b;
     field_delim := field_delim b; text_delim := text_delim b |}.

Definition csv_set_text_delim (b : CSV_BUFFER) (new_delim : Z) :=
  {| field := field b; rows := rows b; width := width b;
     field_delim := field_delim b; text_delim := new_delim |}.

Definition csv_set_field_delim (b : CSV_BUFFER) (new_delim : Z) :=
  {| field := field b; rows := rows b; width := width b;
     field_delim := new_delim; text_delim := text_delim b |}.

(** [buffer->field[row][entry]] *)
Definition cell (b : CSV_BUFFER) (row entry : Z) : option CSV_FIELD :=
  r ← load (field b) row; load r entry.

(** [*buffer->field[row][entry] = f] *)
Definition set_cell (b : CSV_BUFFER) (row entry : Z) (f : CSV_FIELD)
  : option CSV_BUFFER :=
  r ← load (field b) row;
  r' ← store r entry f;
  fs ← store (field b) row r';
  Some (with_field b fs).

Definition junk_field : CSV_FIELD := {| text := []; length := 0 |}.

(** ** The mutator algebra *)

Definition append_field (a : oracle) (b : CSV_BUFFER) (row : Z)
  : option (Z * CSV_BUFFER * oracle) :=
  if rows b <? wrap64 (row + 1) then Some (1, b, a)
  else
    w ← load (width b) row;
    let col := to_int w in
    if INT_MAX <? col + 1 then None
    else
      let '(ok, a') := realloc_ok a in
      if negb ok then Some (2, b, a')
      else
        r ← load (field b) row;
        r1 ← realloc junk_field r (col + 1);
        r2 ← store r1 col create_field;
        fs ← store (field b) row r2;
        ws ← store (width b) row (wrap64 (w + 1));
        Some (0, with_width (with_field b fs) ws, a').

Definition append_row (a : oracle) (b : CSV_BUFFER)
  : option (Z * CSV_BUFFER * oracle) :=
  let row := rows b in
  let '(ok1, a1) := realloc_ok a in
  if negb ok1 then Some (1, b, a1)
  else
    w1 ← realloc 0 (width b) (rows b + 1);
    w2 ← store w1 row 0;
    let b1 := with_width b w2 in
    let '(ok2, a2) := realloc_ok a1 in
    if negb ok2 then
      (* free(temp_width): the width array is gone *)
      Some (2, with_width b1 [], a2)
    else
      f1 ← realloc [] (field b1) (rows b1 + 1);
      f2 ← store f1 row [];
      let b2 := with_rows (with_field b1 f2) (wrap64 (rows b1 + 1)) in
      '(_, b3, a3) ← append_field a2 b2 row;
      Some (0, b3, a3).

(** Outside the loader, allocation requests are taken to succeed: the
    functions below run the two appending primitives with the empty
    oracle. *)

(** [csv_clear_field] and [remove_last_field] call each other; the first
    takes the second as an argument to tie the knot. *)
Definition csv_clear_field_with
    (rlf : CSV_BUFFER -> Z -> option (Z * CSV_BUFFER))
    (b : CSV_BUFFER) (row entry : Z) : option (Z * CSV_BUFFER) :=
  if rows b <? wrap64 (row + 1) then Some (0, b)
  else
    w ← load (width b) row;
    if w <? wrap64 (entry + 1) then Some (0, b)
    else if (entry =? wrap64 (w - 1)) && negb (entry =? 0) then
      '(_, b') ← rlf b row; Some (0, b')
    else
      f ← cell b row entry;
      b' ← set_cell b row entry (set_field f [0]);
      Some (0, b').

(** [size_t entry = buffer->width[row] - 1;] is the first statement: the
    width is read before the test of [row] against [rows], so a row past
    the end is a read outside the array.  The call
    [csv_clear_field(buffer, row, 0)] never reaches [remove_last_field]
    again (its entry is 0). *)
Definition remove_last_field (b : CSV_BUFFER) (row : Z)
  : option (Z * CSV_BUFFER) :=
  w ← load (width b) row;
  if wrap64 (rows b - 1) <? row then Some (0, b)
  else
    if w =? 0 then Some (1, b)
    else if w =? 1 then
      '(_, b') ← csv_clear_field_with (fun _ _ => None) b row 0;
      Some (0, b')
    else
      let entry := wrap64 (w - 1) in
      r ← load (field b) row;
      _ ← load r entry;
      r' ← realloc junk_field r entry;
      fs ← store (field b) row r';
      ws ← store (width b) row (wrap64 (w - 1));
      Some (0, with_width (with_field b fs) ws).

Definition csv_clear_field (b : CSV_BUFFER) (row entry : Z)
  : option (Z * CSV_BUFFER) :=
  csv_clear_field_with remove_last_field b row entry.

(** [while (entry >= 0) { remove_last_field(buffer, row); entry--; }] *)
Fixpoint remove_fields (n : nat) (b : CSV_BUFFER) (row : Z)
  : option CSV_BUFFER :=
  match n with
  | O => Some b
  | S n' => '(_, b') ← remove_last_field b row; remove_fields n' b' row
  end.

Definition remove_last_row (b : CSV_BUFFER) : option (Z * CSV_BUFFER) :=
  let row := to_int (wrap64 (rows b - 1)) in
  w ← load (width b) row;
  let entry := to_int (wrap64 (w - 1)) in
  b1 ← remove_fields (Z.to_nat (entry + 1)) b (wrap64 row);
  f ← realloc [] (field b1) (rows b1 - 1);
  ws ← realloc 0 (width b1) (rows b1 - 1);
  Some (0, with_rows (with_width (with_field b1 f) ws) (wrap64 (rows b1 - 1))).

Definition csv_clear_row (b : CSV_BUFFER) (row : Z)
  : option (Z * CSV_BUFFER) :=
  if row =? wrap64 (rows b - 1) then
    '(c, b') ← remove_last_row b;
    Some (if c =? 0 then 0 else 1, b')
  else
    w ← load (width b) row;
    r ← load (field b) row;
    (* destroy_field(buffer->field[row][i]) for i = width - 1 down to 1 *)
    if (w =? 0) || (Z.of_nat (List.length r) <? w) then None
    else
      f0 ← load r 0;
      r1 ← store r 0 (set_field f0 [0]);
      r2 ← realloc junk_field r1 1;
      fs ← store (field b) row r2;
      ws ← store (width b) row 1;
      Some (0, with_width (with_field b fs) ws).

(** [csv_copy_field] and [csv_copy_row] with both buffer arguments the same
    buffer, as every call inside the library has them.  [set_field]
    reallocates the text of the destination and then copies the source
    text into it: when both are the same cell the copy reads the text that
    was just reallocated (and [strcpy] is given overlapping strings), a
    fault. *)
Definition csv_copy_field (b : CSV_BUFFER)
    (dest_row dest_entry source_row source_entry : Z)
  : option (Z * CSV_BUFFER) :=
  d ← cell b (to_int dest_row) (to_int dest_entry);
  s ← cell b (to_int source_row) (to_int source_entry);
  if (to_int dest_row =? to_int source_row)
     && (to_int dest_entry =? to_int source_entry)
  then None
  else
    b' ← set_cell b (to_int dest_row) (to_int dest_entry)
           (set_field d (text s));
    Some (0, b').

(** [while (dest->rows < dest_row + 1) if (append_row(dest) != 0) return 1;] *)
Fixpoint grow_rows (n : nat) (b : CSV_BUFFER) (dest_row : Z)
  : option (Z * CSV_BUFFER) :=
  if rows b <? wrap64 (dest_row + 1) then
    match n with
    | O => None
    | S n' =>
        '(c, b', _) ← append_row [] b;
        if c =? 0 then grow_rows n' b' dest_row else Some (1, b')
    end
  else Some (0, b).

(** [while (width[d] > width[s]) if (remove_last_field(dest, d) != 0) return 1;] *)
Fixpoint shrink_row (n : nat) (b : CSV_BUFFER) (d s : Z)
  : option (Z * CSV_BUFFER) :=
  wd ← load (width b) d;
  ws ← load (width b) s;
  if ws <? wd then
    match n with
    | O => None
    | S n' =>
        '(c, b') ← remove_last_field b d;
        if c =? 0 then shrink_row n' b' d s else Some (1, b')
    end
  else Some (0, b).

(** [while (width[d] < width[s]) if (append_field(dest, d) != 0) return 1;] *)
Fixpoint widen_row (n : nat) (b : CSV_BUFFER) (d s : Z)
  : option (Z * CSV_BUFFER) :=
  wd ← load (width b) d;
  ws ← load (width b) s;
  if wd <? ws then
    match n with
    | O => None
    | S n' =>
        '(c, b', _) ← append_field [] b d;
        if c =? 0 then widen_row n' b' d s else Some (1, b')
    end
  else Some (0, b).

(** [for (i = 0; i < width[d]; i++) csv_copy_field(dest, d, i, source, s, i);] *)
Fixpoint copy_fields (n : nat) (b : CSV_BUFFER) (d s i : Z)
  : option CSV_BUFFER :=
  wd ← load (width b) d;
  if i <? wd then
    match n with
    | O => None
    | S n' =>
        '(_, b') ← csv_copy_field b d i s i;
        copy_fields n' b' d s (wrap64 (i + 1))
    end
  else Some b.

Definition csv_copy_row (b : CSV_BUFFER) (dest_row source_row : Z)
  : option (Z * CSV_BUFFER) :=
  if wrap64 (rows b - 1) <? source_row then
    '(_, b') ← csv_clear_row b dest_row; Some (0, b')
  else
    '(c1, b1) ← grow_rows (Z.to_nat (wrap64 (dest_row + 1) - rows b)) b dest_row;
    if negb (c1 =? 0) then Some (1, b1)
    else
      wd ← load (width b1) dest_row;
      '(c2, b2) ← shrink_row (Z.to_nat wd) b1 dest_row source_row;
      if negb (c2 =? 0) then Some (1, b2)
      else
        wd2 ← load (width b2) dest_row;
        ws2 ← load (width b2) source_row;
        '(c3, b3) ← widen_row (Z.to_nat (ws2 - wd2)) b2 dest_row source_row;
        if negb (c3 =? 0) then Some (1, b3)
        else
          wd3 ← load (width b3) dest_row;
          b4 ← copy_fields (Z.to_nat wd3) b3 dest_row source_row 0;
          Some (0, b4).

(** [for (i = row; i < buffer->rows - 1; i++) csv_copy_row(buffer, i, buffer, i + 1);] *)
Fixpoint shift_rows (n : nat) (b : CSV_BUFFER) (i : Z) : option CSV_BUFFER :=
  if i <? wrap64 (rows b - 1) then
    match n with
    | O => None
    | S n' =>
        '(_, b') ← csv_copy_row b i (wrap64 (i + 1));
        shift_rows n' b' (wrap64 (i + 1))
    end
  else Some b.

Definition csv_remove_row (b : CSV_BUFFER) (row : Z)
  : option (Z * CSV_BUFFER) :=
  if wrap64 (rows b - 1) <? row then Some (0, b)
  else
    b1 ← shift_rows (Z.to_nat (rows b)) b row;
    '(_, b2) ← remove_last_row b1;
    Some (0, b2).

(** [for (i = entry; i < width[row] - 1; i++) csv_copy_field(b, row, i, b, row, i + 1);] *)
Fixpoint shift_fields (n : nat) (b : CSV_BUFFER) (row i : Z)
  : option CSV_BUFFER :=
  w ← load (width b) row;
  if i <? wrap64 (w - 1) then
    match n with
    | O => None
    | S n' =>
        '(_, b') ← csv_copy_field b row i row (wrap64 (i + 1));
        shift_fields n' b' row (wrap64 (i + 1))
    end
  else Some b.

Definition csv_remove_field (b : CSV_BUFFER) (row entry : Z)
  : option (Z * CSV_BUFFER) :=
  if wrap64 (rows b - 1) <? row then Some (0, b)
  else
    w ← load (width b) row;
    if wrap64 (w - 1) <? entry then Some (0, b)
    else
      b1 ← shift_fields (Z.to_nat w) b row entry;
      '(_, b2) ← remove_last_field b1 row;
      Some (0, b2).

(** [while (row >= buffer->rows) append_row(buffer);] *)
Fixpoint set_grow_rows (n : nat) (b : CSV_BUFFER) (row : Z)
  : option CSV_BUFFER :=
  if rows b <=? row then
    match n with
    | O => None
    | S n' => '(_, b', _) ← append_row [] b; set_grow_rows n' b' row
    end
  else Some b.

(** [while (entry >= buffer->width[row]) append_field(buffer, row);] *)
Fixpoint set_grow_fields (n : nat) (b : CSV_BUFFER) (row entry : Z)
  : option CSV_BUFFER :=
  w ← load (width b) row;
  if w <=? entry then
    match n with
    | O => None
    | S n' =>
        '(_, b', _) ← append_field [] b row;
        set_grow_fields n' b' row entry
    end
  else Some b.

Definition csv_set_field (b : CSV_BUFFER) (row entry : Z) (t : list Z)
  : option (Z * CSV_BUFFER) :=
  b1 ← set_grow_rows (Z.to_nat (row - rows b + 1)) b row;
  w ← load (width b1) row;
  b2 ← set_grow_fields (Z.to_nat (entry - w + 1)) b1 row entry;
  f ← cell b2 row entry;
  b3 ← set_cell b2 row entry (set_field f t);
  Some (0, b3).

(** [for (i = width[row] - 1; i > entry; i--) csv_copy_field(b, row, i, b, row, i - 1);] *)
Fixpoint insert_shift (n : nat) (b : CSV_BUFFER) (row entry i : Z)
  : option CSV_BUFFER :=
  if entry <? i then
    match n with
    | O => None
    | S n' =>
        '(_, b') ← csv_copy_field b row i row (wrap64 (i - 1));
        insert_shift n' b' row entry (wrap64 (i - 1))
    end
  else Some b.

Definition csv_insert_field (b : CSV_BUFFER) (row entry : Z) (t : list Z)
  : option (Z * CSV_BUFFER) :=
  let absent :=
    if wrap64 (rows b - 1) <? row then Some true
    else w ← load (width b) row; Some (wrap64 (w - 1) <? entry) in
  a ← absent;
  if a : bool then
    '(_, b') ← csv_set_field b row entry t; Some (0, b')
  else
    '(_, b1, _) ← append_field [] b row;
    w ← load (width b1) row;
    b2 ← insert_shift (Z.to_nat w) b1 row entry (wrap64 (w - 1));
    '(_, b3) ← csv_set_field b2 row entry t;
    Some (0, b3).

(** ** The tokenizer *)

(** A stream open for reading: the bytes not read yet. *)
Definition FILE := list Z.

Definition getc (fp : FILE) : Z * FILE :=
  match fp with
  | [] => (EOF, [])
  | x :: fp' => (x mod 256, fp')
  end.

(** [add_char(&string, &c, ch)].  The counter [c] is an [int] in the
    source, where its increment and the size [c + 1] overflow once it
    reaches [INT_MAX]; here it is a [nat], and every statement below that
    depends on the text a field accumulates bounds it ([text_ok], or the
    length of the stream). *)
Definition add_char (string : list Z) (c : nat) (ch : Z) : list Z * nat :=
  let c' := S c in
  (<[c' := 0]> (<[c := ch]> (resize (S c') 0 string)), c').

(** The first loop of [read_next_field]: it returns the last character
    read (a [char]), the accumulated buffer and the stream.  The character
    is [to_char] of what [getc] gives, so a byte 255 is read as [EOF]. *)
Fixpoint read_text (fp : FILE) (field_delim text_delim : Z)
    (in_text esc : bool) (tmp : list Z) (c : nat) : Z * list Z * FILE :=
  match fp with
  | [] => (EOF, tmp, [])
  | x :: fp' =>
      let ch := to_char x in
      if ch =? EOF then (ch, tmp, fp')
      else if negb in_text then
        if ch =? text_delim then
          read_text fp' field_delim text_delim true esc tmp 0
        else if ch =? field_delim then (ch, tmp, fp')
        else if ch =? NL then (ch, tmp, fp')
        else
          let '(tmp', c') := add_char tmp c ch in
          read_text fp' field_delim text_delim in_text esc tmp' c'
      else if esc then
        if ch =? text_delim then
          let '(tmp', c') := add_char tmp c ch in
          read_text fp' field_delim text_delim in_text false tmp' c'
        else (ch, tmp, fp')
      else
        if ch =? text_delim then
          read_text fp' field_delim text_delim in_text true tmp c
        else
          let '(tmp', c') := add_char tmp c ch in
          read_text fp' field_delim text_delim in_text esc tmp' c'
  end.

(** The second loop: the terminator code and the stream left at the start
    of the next field. *)
Fixpoint scan_terminator (fp : FILE) (field_delim ch : Z) : Z * FILE :=
  if ch =? field_delim then (0, fp)
  else if ch =? NL then
    (* fgetpos; ch = getc(fp); ...; fsetpos *)
    let ch' := to_char (fst (getc fp)) in
    (if ch' =? EOF then 2 else 1, fp)
  else if ch =? EOF then (2, fp)
  else
    match fp with
    | [] => if EOF =? field_delim then (0, []) else (2, [])
    | x :: fp' => scan_terminator fp' field_delim (to_char x)
    end.

Definition read_next_field (fp : FILE) (field_delim text_delim : Z)
    (f : CSV_FIELD) : Z * CSV_FIELD * FILE :=
  let '(ch, tmp, fp1) := read_text fp field_delim text_delim false false [0] 0 in
  let f' := set_field f tmp in
  let '(retval, fp2) := scan_terminator fp1 field_delim ch in
  (retval, f', fp2).

(** ** The loader *)

(** What a call leaves behind: its result code, the buffer, and whether the
    stream it opened is still open. *)
Record outcome := mkOutcome {
  code : Z;
  buffer : CSV_BUFFER;
  stream_open : bool
}.

Fixpoint load_loop (fuel : nat) (first : bool) (a : oracle)
    (b : CSV_BUFFER) (fp : FILE) (i j : Z) : option outcome :=
  match fuel with
  | O => None
  | S fuel' =>
      '(next, b1, fp1) ←
        (if first then Some (1, b, fp)
         else
           f ← cell b i (j - 1);
           let '(next, f', fp') :=
             read_next_field fp (field_delim b) (text_delim b) f in
           b' ← set_cell b i (j - 1) f';
           Some (next, b', fp'));
      if next =? 2 then
        (* end = true; the loop is left and fclose(fp) runs *)
        Some {| code := 0; buffer := b1; stream_open := false |}
      else if next =? 1 then
        '(c, b2, a2) ← append_row a b1;
        if negb (c =? 0) then
          Some {| code := 2; buffer := b2; stream_open := true |}
        else load_loop fuel' false a2 b2 fp1 (i + 1) 1
      else
        '(c, b2, a2) ← append_field a b1 (wrap64 i);
        if negb (c =? 0) then
          Some {| code := 2; buffer := b2; stream_open := true |}
        else load_loop fuel' false a2 b2 fp1 i (j + 1)
  end.

(** [file] is what [fopen(file_name, "r")] finds: [None] when it fails.
    Every pass of the loop but the first reads at least one byte or meets
    the end of the stream, so the fuel below is never what stops a loop
    that ends.  The indices [i] and [j] are [int]s in the source and
    overflow past [INT_MAX]; here they are not bounded, and the statements
    about the loader bound the number of rows or the length of the
    stream. *)
Definition csv_load (a : oracle) (b : CSV_BUFFER) (file : option FILE)
  : option outcome :=
  match file with
  | None => Some {| code := 1; buffer := b; stream_open := false |}
  | Some fp => load_loop (S (S (List.length fp))) true a b fp (-1) (-1)
  end.

(** ** The serializer *)

Definition fputc (ch : Z) (out : list Z) : list Z := out ++ [ch mod 256].

Definition fputs (s : list Z) (out : list Z) : list Z :=
  out ++ map (fun ch => ch mod 256) (cstr s).

(** [for (k = 0; k < length - 1; k++) { if (text[k] == text_delim) ...}] *)
Fixpoint save_quoted (n : nat) (text_delim : Z) (mem : list Z) (k : Z)
    (out : list Z) : option (list Z) :=
  match n with
  | O => Some out
  | S n' =>
      ch ← load mem k;
      let out1 := if ch =? text_delim then fputc text_delim out else out in
      save_quoted n' text_delim mem (k + 1) (fputc ch out1)
  end.

Definition save_field (b : CSV_BUFFER) (i j : Z) (out : list Z)
  : option (list Z) :=
  f ← cell b i j;
  w ← load (width b) i;
  out1 ←
    (if strchr (text f) (text_delim b) || strchr (text f) (field_delim b)
        || strchr (text f) NL
     then
       out' ← save_quoted (Z.to_nat (wrap64 (length f - 1))) (text_delim b)
                (text f ++ [0]) 0 (fputc (text_delim b) out);
       Some (fputc (text_delim b) out')
     else Some (fputs (text f) out));
  Some (if j <? wrap64 (w - 1) then fputc (field_delim b) out1
        else if i <? wrap64 (rows b - 1) then fputc NL out1
        else out1).

(** [n] passes of the loop over [j], from [j] on. *)
Fixpoint save_fields (n : nat) (b : CSV_BUFFER) (i j : Z) (out : list Z)
  : option (list Z) :=
  match n with
  | O => Some out
  | S n' => out' ← save_field b i j out; save_fields n' b i (j + 1) out'
  end.

(** [n] passes of the loop over [i], from [i] on. *)
Fixpoint save_rows (n : nat) (b : CSV_BUFFER) (i : Z) (out : list Z)
  : option (list Z) :=
  match n with
  | O => Some out
  | S n' =>
      w ← load (width b) i;
      out' ← save_fields (Z.to_nat w) b i 0 out;
      save_rows n' b (i + 1) out'
  end.

(** The result code and the bytes written; [writable] is whether
    [fopen(file_name, "w")] succeeds. *)
Definition csv_save (writable : bool) (b : CSV_BUFFER)
  : option (Z * list Z) :=
  if negb writable then Some (1, [])
  else out ← save_rows (Z.to_nat (rows b)) b 0 []; Some (0, out).

(** ** Accessors *)

(** [strncpy(dest, src, n)] *)
Definition strncpy (dest src : list Z) (n : Z) : option (list Z) :=
  if n <=? Z.of_nat (List.length dest)
  then Some (resize (Z.to_nat n) 0 (cstr src) ++ drop (Z.to_nat n) dest)
  else None.

(** [dest] is the memory the caller passes; the result is the code and
    that memory after the call. *)
Definition csv_get_field (dest : list Z) (dest_len : Z) (src : CSV_BUFFER)
    (row entry : Z) : option (Z * list Z) :=
  if dest_len =? 0 then Some (3, dest)
  else
    out_of_range ←
      (if rows src <=? row then Some true
       else w ← load (width src) row; Some (w <=? entry));
    if out_of_range : bool then
      (* for (i = 0; i < dest_len; i++) dest[0] = '\0'; *)
      dest' ← store dest 0 0;
      Some (2, dest')
    else
      f ← cell src row entry;
      d1 ← strncpy dest (text f) dest_len;
      d2 ← store d1 dest_len 0;
      if wrap64 (dest_len + 1) <? length f then Some (1, d2)
      else if length f =? 0 then Some (2, d2)
      else Some (0, d2).

Definition csv_get_height (b : CSV_BUFFER) : Z := to_int (rows b).

Definition csv_get_width (b : CSV_BUFFER) (row : Z) : option Z :=
  if wrap64 (rows b - 1) <? row then Some 0
  else w ← load (width b) row; Some (to_int w).

Definition csv_get_field_length (b : CSV_BUFFER) (row entry : Z)
  : option Z :=
  if wrap64 (rows b - 1) <? row then Some 0
  else
    w ← load (width b) row;
    if wrap64 (w - 1) <? entry then Some 0
    else f ← cell b row entry; Some (to_int (wrap64 (length f - 1))).

(** ** Well-formed buffers *)

(** A field as [set_field] leaves it: [length] counts the terminator, and
    the text is a C string of [char]s. *)
Definition is_char (c : Z) : Prop := -128 <= c <= 127 /\ c <> 0.

Definition field_ok (f : CSV_FIELD) : Prop :=
  length f = Z.of_nat (List.length (text f)) + 1
  /\ length f < 2 ^ 64
  /\ Forall is_char (text f).

Definition fields_ok (b : CSV_BUFFER) : Prop :=
  Forall (Forall field_ok) (field b).

(** The bookkeeping of a buffer agrees with its arrays: [rows] rows, one
    width per row, each width the size of its row and an [int]. *)
Definition row_ok (r : list CSV_FIELD) (w : Z) : Prop :=
  w = Z.of_nat (List.length r) /\ w <= INT_MAX.

Definition buffer_ok (b : CSV_BUFFER) : Prop :=
  rows b = Z.of_nat (List.length (field b))
  /\ rows b < 2 ^ 61
  /\ Forall2 row_ok (field b) (width b).

(** Every existing row has width at least 1. *)
Definition width_inv (b : CSV_BUFFER) : Prop :=
  forall row, 0 <= row < rows b ->
    exists w, load (width b) row = Some w /\ 1 <= w.

(** The mutating operations of the width invariant. *)
Inductive operation :=
| op_append_row
| op_append_field (row : Z)
| op_remove_last_field (row : Z)
| op_set_field (row entry : Z) (t : list Z)
| op_insert_field (row entry : Z) (t : list Z)
| op_remove_field (row entry : Z)
| op_clear_field (row entry : Z)
| op_clear_row (row : Z)
| op_remove_row (row : Z).

Definition run (o : operation) (b : CSV_BUFFER) : option CSV_BUFFER :=
  match o with
  | op_append_row => '(_, b', _) ← append_row [] b; Some b'
  | op_append_field row => '(_, b', _) ← append_field [] b row; Some b'
  | op_remove_last_field row => '(_, b') ← remove_last_field b row; Some b'
  | op_set_field row entry t => '(_, b') ← csv_set_field b row entry t; Some b'
  | op_insert_field row entry t =>
      '(_, b') ← csv_insert_field b row entry t; Some b'
  | op_remove_field row entry => '(_, b') ← csv_remove_field b row entry; Some b'
  | op_clear_field row entry => '(_, b') ← csv_clear_field b row entry; Some b'
  | op_clear_row row => '(_, b') ← csv_clear_row b row; Some b'
  | op_remove_row row => '(_, b') ← csv_remove_row b row; Some b'
  end.

(** The text of the cells, row by row. *)
Definition cells (b : CSV_BUFFER) : list (list (list Z)) :=
  map (map text) (field b).

(** What the appending primitives build on a well-formed buffer. *)
Definition appended_field (b : CSV_BUFFER) (row : Z) (r : list CSV_FIELD) :=
  with_width
    (with_field b (<[Z.to_nat row := r ++ [create_field]]> (field b)))
    (<[Z.to_nat row := Z.of_nat (List.length r) + 1]> (width b)).

Definition appended_row (b : CSV_BUFFER) : CSV_BUFFER :=
  {| field := field b ++ [[create_field]]; rows := rows b + 1;
     width := width b ++ [1];
     field_delim := field_delim b; text_delim := text_delim b |}.

(** A well-formed buffer whose rows all have at least one field. *)
Definition good (b : CSV_BUFFER) : Prop :=
  buffer_ok b /\ Forall (fun w => 1 <= w) (width b).

(** A small buffer: one row holding [a] and [b], one row holding [c]. *)
Definition sample_buffer : CSV_BUFFER :=
  {| field := [[mkField [97] 2; mkField [98] 2]; [mkField [99] 2]];
     rows := 2; width := [2; 1]; field_delim := 44; text_delim := 34 |}.



(** ** What [csv_save] writes, and the buffer of a table of texts *)

(** A character that the tokenizer reads back: a non-NUL [char] other than
    the one it takes for [EOF]. *)
Definition text_char (c : Z) : Prop := -128 <= c <= 127 /\ c <> 0 /\ c <> EOF.

Definition delims_ok (fd td : Z) : Prop :=
  text_char fd /\ text_char td /\ fd <> NL /\ td <> NL /\ fd <> td.

Definition byte (ch : Z) : Z := ch mod 256.

Definition quoted (fd td : Z) (t : list Z) : bool :=
  strchr t td || strchr t fd || strchr t NL.

Definition escape (td : Z) (t : list Z) : list Z :=
  flat_map (fun ch => if ch =? td then [byte td; byte ch] else [byte ch]) t.

Definition written_field (fd td : Z) (t : list Z) : list Z :=
  if quoted fd td t then [byte td] ++ escape td t ++ [byte td]
  else map byte t.

Fixpoint written_row (fd td : Z) (ts : list (list Z)) : list Z :=
  match ts with
  | [] => []
  | t :: ts' =>
      written_field fd td t ++
      match ts' with
      | [] => []
      | _ :: _ => byte fd :: written_row fd td ts'
      end
  end.

Fixpoint written_rows (fd td : Z) (rs : list (list (list Z))) : list Z :=
  match rs with
  | [] => []
  | r :: rs' =>
      written_row fd td r ++
      match rs' with
      | [] => []
      | _ :: _ => byte NL :: written_rows fd td rs'
      end
  end.

Definition field_of (t : list Z) : CSV_FIELD :=
  {| text := t; length := Z.of_nat (List.length t) + 1 |}.

Definition buffer_of (fd td : Z) (c : list (list (list Z))) : CSV_BUFFER :=
  {| field := map (map field_of) c;
     rows := Z.of_nat (List.length c);
     width := map (fun r => Z.of_nat (List.length r)) c;
     field_delim := fd; text_delim := td |}.

(** The tables that round-trip: texts made of [text_char]s, rows with at
    least one field, and no lone empty field as the last of several rows.
    The sizes are those the [int] counters of the tokenizer and of the
    loader can hold: the counter [c] of [add_char] ends at the length of
    the text and [c + 1] is computed, so a text has fewer than [INT_MAX]
    characters; the row index [i] of [csv_load] ends at the last row, so
    there are at most 2^31 rows; the field index [j] ends at the width of
    a row, which is an [int]. *)
Definition text_ok (t : list Z) : Prop :=
  Forall text_char t /\ Z.of_nat (List.length t) < INT_MAX.

Definition table_row_ok (r : list (list Z)) : Prop :=
  1 <= Z.of_nat (List.length r) <= INT_MAX /\ Forall text_ok r.

Definition table_ok (c : list (list (list Z))) : Prop :=
  Z.of_nat (List.length c) <= 2 ^ 31 /\ Forall table_row_ok c.

(** The same sizes, of a buffer. *)
Definition int_sized (b : CSV_BUFFER) : Prop :=
  rows b <= 2 ^ 31
  /\ Forall (Forall (fun f => length f <= INT_MAX)) (field b).

Definition last_row_written (c : list (list (list Z))) : Prop :=
  forall c', c' <> [] -> c <> c' ++ [[[]]].

(** A fresh buffer with the delimiters of [b]. *)
Definition fresh_like (b : CSV_BUFFER) : CSV_BUFFER :=
  csv_set_field_delim
    (csv_set_text_delim csv_create_buffer (text_delim b)) (field_delim b).

(** The stream after a written field: nothing, or a delimiter or newline
    byte and more. *)
Definition after_field (fd : Z) (tail : list Z) : Prop :=
  match tail with
  | [] => True
  | x :: _ => x = byte fd \/ x = byte NL
  end.

Definition last_char (tail : list Z) : Z :=
  match tail with
  | [] => EOF
  | x :: _ => to_char x
  end.

(** A table whose sizes fit the bookkeeping of a buffer. *)
Definition sized (c : list (list (list Z))) : Prop :=
  Z.of_nat (List.length c) < 2 ^ 61
  /\ Forall (fun r => Z.of_nat (List.length r) <= INT_MAX) c.

(** No character of the buffer is the one the tokenizer takes for [EOF]. *)
Definition no_eof_char (b : CSV_BUFFER) : Prop :=
  Forall (Forall (fun f => Forall (fun c => c <> EOF) (text f))) (field b).

(** A buffer with fields holding a field delimiter, text delimiters and a
    newline: [x,y] and a quoted word in the first row, two lines in the
    second. *)
Definition quoting_buffer : CSV_BUFFER :=
  {| field :=
       [[field_of [120; 44; 121];
         field_of [115; 97; 121; 32; 34; 104; 105; 34]];
        [field_of [49; 10; 50]]];
     rows := 2; width := [2; 1]; field_delim := 44; text_delim := 34 |}.

(** A [char] value. *)
Definition char_range (c : Z) : Prop := -128 <= c <= 127.

(** The state of the loader between two fields: the buffer is well formed,
    [i] is its last row and [j] the width of that row, and the sizes leave
    room for what is still to be read. *)
Definition load_inv (bound : Z) (b : CSV_BUFFER) (fp : FILE) (i j : Z) : Prop :=
  good b /\ fields_ok b
  /\ rows b = i + 1 /\ load (width b) i = Some j
  /\ rows b + Z.of_nat (List.length fp) <= bound
  /\ j + Z.of_nat (List.length fp) <= bound.

(** A table that is the [cells] of a well-formed buffer: sizes that fit
    and texts that are C strings of [char]s. *)
Definition text_fine (t : list Z) : Prop :=
  Forall is_char t /\ Z.of_nat (List.length t) + 1 < 2 ^ 64.

Definition table_fine (c : list (list (list Z))) : Prop :=
  sized c /\ Forall (Forall text_fine) c.

(** A table of three rows, of three, one and two fields. *)
Definition sample_table : list (list (list Z)) :=
  [[[97]; [98]; [99]]; [[100]]; [[101]; [102]]].

(** * Properties *)

(** ** Machine integers and arrays *)

Lemma wrap64_small z : 0 <= z < 2 ^ 64 -> wrap64 z = z.
Proof. intros; unfold wrap64; apply Z.mod_small; lia. Qed.

Lemma wrap64_minus_one : wrap64 (0 - 1) = 2 ^ 64 - 1.
Proof. reflexivity. Qed.

Lemma to_int_small z : - 2 ^ 31 <= z < 2 ^ 31 -> to_int z = z.
Proof. intros; unfold to_int; rewrite Z.mod_small; lia. Qed.

Lemma to_char_small z : -128 <= z <= 127 -> to_char z = z.
Proof. intros; unfold to_char; rewrite Z.mod_small; lia. Qed.

Lemma to_char_byte z : -128 <= z <= 127 -> to_char (z mod 256) = z.
Proof.
  intros; unfold to_char.
  rewrite Zplus_mod_idemp_l.
  rewrite Z.mod_small; lia.
Qed.

Lemma load_Some {A} (l : list A) i x :
  load l i = Some x <-> 0 <= i /\ l !! Z.to_nat i = Some x.
Proof.
  unfold load. destruct (Z.leb_spec 0 i); split; intros H1;
    try tauto; try discriminate. lia.
Qed.

Lemma load_nat {A} (l : list A) (n : nat) : load l (Z.of_nat n) = l !! n.
Proof.
  unfold load. destruct (Z.leb_spec 0 (Z.of_nat n)); [|lia].
  by rewrite Nat2Z.id.
Qed.

Lemma load_lt {A} (l : list A) i x :
  load l i = Some x -> 0 <= i < Z.of_nat (List.length l).
Proof.
  intros [H1 H2]%load_Some. apply lookup_lt_Some in H2. lia.
Qed.

Lemma store_Some {A} (l : list A) i x l' :
  store l i x = Some l' <->
  0 <= i < Z.of_nat (List.length l) /\ l' = <[Z.to_nat i := x]> l.
Proof.
  unfold store.
  destruct (Z.leb_spec 0 i), (Z.ltb_spec i (Z.of_nat (List.length l)));
    simpl; split; intros H1; try (destruct H1; lia); try discriminate.
  - inversion H1; subst; split; [lia|done].
  - destruct H1 as [_ ->]; done.
Qed.

Lemma store_nat {A} (l : list A) (n : nat) x :
  (n < List.length l)%nat -> store l (Z.of_nat n) x = Some (<[n := x]> l).
Proof.
  intros. apply store_Some. rewrite Nat2Z.id. split; [lia|done].
Qed.

Lemma store_ok {A} (l : list A) i x :
  0 <= i < Z.of_nat (List.length l) ->
  store l i x = Some (<[Z.to_nat i := x]> l).
Proof. intros. by apply store_Some. Qed.

Lemma realloc_Some {A} (junk : A) l n :
  0 < n < 2 ^ 61 -> realloc junk l n = Some (resize (Z.to_nat n) junk l).
Proof.
  intros. unfold realloc. rewrite wrap64_small by lia.
  destruct (Z.eqb_spec (n * 8) 0); [lia|].
  by rewrite Z.div_mul by lia.
Qed.

(** ** Fields and cells *)

Lemma cstr_id (s : list Z) : Forall is_char s -> cstr s = s.
Proof.
  induction 1 as [|c s [_ Hc] _ IH]; simpl; [done|].
  destruct (Z.eqb_spec c 0); [done|]. by rewrite IH.
Qed.

Lemma cstr_is_cstr (s : list Z) : Forall (fun c => c <> 0) (cstr s).
Proof.
  induction s as [|c s IH]; simpl; [constructor|].
  destruct (Z.eqb_spec c 0); constructor; done.
Qed.

Lemma create_field_ok : field_ok create_field.
Proof. repeat split; try constructor; done. Qed.

Lemma set_field_ok f t :
  Forall is_char t -> Z.of_nat (List.length t) + 1 < 2 ^ 64 ->
  field_ok (set_field f t) /\ text (set_field f t) = t.
Proof.
  intros Ht Hlen. unfold field_ok, set_field, strlen; simpl.
  rewrite cstr_id by done. rewrite wrap64_small by lia. repeat split; try done; lia.
Qed.

Lemma cell_Some b row entry f :
  cell b row entry = Some f <->
  exists r, load (field b) row = Some r /\ load r entry = Some f.
Proof.
  unfold cell. destruct (load (field b) row) as [r|]; simpl.
  - split; [eauto|]. by intros (? & [= <-] & ?).
  - split; [done|]. by intros (? & ? & ?).
Qed.

Lemma fields_ok_cell b row entry f :
  fields_ok b -> cell b row entry = Some f -> field_ok f.
Proof.
  intros Hb (r & [_ Hr]%load_Some & [_ Hf]%load_Some)%cell_Some.
  eapply Forall_lookup_1; [|exact Hf]. eapply Forall_lookup_1; [exact Hb|exact Hr].
Qed.

Lemma buffer_ok_row b row r :
  buffer_ok b -> load (field b) row = Some r ->
  0 <= row < rows b /\
  load (width b) row = Some (Z.of_nat (List.length r)) /\
  Z.of_nat (List.length r) <= INT_MAX.
Proof.
  intros (Hrows & _ & Hw) Hr. pose proof (load_lt _ _ _ Hr) as Hlt.
  apply load_Some in Hr as [H0 Hr].
  destruct (Forall2_lookup_l _ _ _ _ _ Hw Hr) as (w & Hwl & -> & Hmax).
  repeat split; try lia. by apply load_Some.
Qed.

Lemma buffer_ok_width b row w :
  buffer_ok b -> load (width b) row = Some w ->
  0 <= row < rows b /\ 0 <= w <= INT_MAX /\
  exists r, load (field b) row = Some r /\ w = Z.of_nat (List.length r).
Proof.
  intros (Hrows & _ & Hw) Hl. pose proof (load_lt _ _ _ Hl) as Hlt.
  apply load_Some in Hl as [H0 Hl].
  destruct (Forall2_lookup_r _ _ _ _ _ Hw Hl) as (r & Hr & -> & Hmax).
  pose proof Hw as Hlen%Forall2_length. rewrite <- Hlen in Hlt.
  repeat split; try lia. exists r. split; [by apply load_Some|done].
Qed.

Lemma buffer_ok_in_range b row :
  buffer_ok b -> 0 <= row < rows b ->
  exists r, load (field b) row = Some r.
Proof.
  intros (Hrows & _ & _) Hr.
  destruct (lookup_lt_is_Some_2 (field b) (Z.to_nat row)) as [r Hl]; [lia|].
  exists r. apply load_Some. split; [lia|done].
Qed.

Lemma cell_in_range b row entry f :
  buffer_ok b -> cell b row entry = Some f ->
  (rows b <=? row) = false /\
  exists w, load (width b) row = Some w /\ (w <=? entry) = false
            /\ 0 <= entry < w /\ 0 <= row < rows b.
Proof.
  intros Hb (r & Hr & Hf)%cell_Some.
  destruct (buffer_ok_row _ _ _ Hb Hr) as (Hrow & Hw & _).
  apply load_lt in Hf. split; [lia|].
  eexists; split; [exact Hw|]. repeat split; lia.
Qed.

(** ** [csv_get_field] *)

Lemma strncpy_Some dest src n :
  0 <= n <= Z.of_nat (List.length dest) ->
  strncpy dest src n =
    Some (resize (Z.to_nat n) 0 (cstr src) ++ drop (Z.to_nat n) dest).
Proof.
  intros. unfold strncpy.
  destruct (Z.leb_spec n (Z.of_nat (List.length dest))); [done|lia].
Qed.

Lemma strncpy_length dest src n :
  0 <= n <= Z.of_nat (List.length dest) ->
  List.length (resize (Z.to_nat n) 0 (cstr src) ++ drop (Z.to_nat n) dest)
  = List.length dest.
Proof.
  intros. rewrite length_app, length_resize, length_drop. lia.
Qed.




(** C10, amended.  For an in-range cell [csv_get_field] with
    [dest_len >= 1] never returns 2, and it returns 0 when the text of the
    cell is empty: a field that exists has [length >= 1], so the test
    [length == 0] fails.  The destination holds at least [dest_len + 1]
    bytes. *)
Theorem csv_get_field_empty_cell_is_success
    (b : CSV_BUFFER) (dest : list Z) (n row entry : Z) (f : CSV_FIELD) :
  buffer_ok b -> fields_ok b ->
  cell b row entry = Some f ->
  1 <= n < Z.of_nat (List.length dest) ->
  Z.of_nat (List.length dest) < 2 ^ 64 ->
  exists c dest',
    csv_get_field dest n b row entry = Some (c, dest')
    /\ c <> 2
    /\ (text f = [] -> c = 0 /\ take (Z.to_nat n) dest' = replicate (Z.to_nat n) 0).
Proof.
  intros Hb Hfs Hc Hn Hd.
  destruct (cell_in_range _ _ _ _ Hb Hc) as (Hrow & w & Hw & Hent & _).
  destruct (fields_ok_cell _ _ _ _ Hfs Hc) as (Hlen & Hlt & Hch).
  unfold csv_get_field.
  destruct (Z.eqb_spec n 0); [lia|].
  rewrite Hrow, Hw; simpl. rewrite Hent, Hc; simpl.
  rewrite strncpy_Some by lia; simpl.
  set (d1 := resize _ _ _ ++ _).
  assert (Hd1 : List.length d1 = List.length dest)
    by (apply strncpy_length; lia).
  destruct (store d1 n 0) as [d2|] eqn:Hst.
  2:{ unfold store in Hst. rewrite Hd1 in Hst.
      destruct (Z.leb_spec 0 n), (Z.ltb_spec n (Z.of_nat (List.length dest)));
        simpl in Hst; try discriminate; lia. }
  simpl. rewrite wrap64_small by lia.
  apply store_Some in Hst as [_ ->].
  destruct (Z.ltb_spec (n + 1) (length f)).
  - do 2 eexists; split; [done|]. split; [lia|].
    intros Ht. rewrite Ht in Hlen. simpl in Hlen. lia.
  - destruct (Z.eqb_spec (length f) 0); [lia|].
    do 2 eexists; split; [done|]. split; [lia|].
    intros Ht. split; [done|].
    rewrite take_insert_ge by lia. subst d1.
    rewrite take_app_le by (rewrite length_resize; lia).
    rewrite take_resize, Nat.min_id. rewrite Ht. simpl.
    by rewrite resize_nil.
Qed.

Lemma csv_get_field_empty_cell_is_success_witness :
  exists c dest',
    csv_get_field [1; 2; 3] 2 (mkBuffer [[create_field]] 1 [1] 44 34) 0 0
    = Some (c, dest')
    /\ c <> 2
    /\ (text create_field = [] ->
        c = 0 /\ take 2 dest' = replicate 2 0).
Proof.
  apply (csv_get_field_empty_cell_is_success
           (mkBuffer [[create_field]] 1 [1] 44 34) [1; 2; 3] 2 0 0 create_field).
  - repeat split; try done. repeat constructor; done.
  - repeat constructor; unfold is_char; simpl; lia.
  - reflexivity.
  - simpl; lia.
  - simpl; lia.
Defined.

(** C10 as stated fails: for an empty cell and a destination of exactly
    [dest_len = 1] byte the code does not return 0 after filling the
    destination, it writes [dest[1]], one byte past it. *)
Lemma csv_get_field_empty_cell_overruns_destination :
  csv_get_field [1] 1 (mkBuffer [[create_field]] 1 [1] 44 34) 0 0 = None.
Proof. reflexivity. Qed.

(** ** Behaviour at concrete inputs *)

(** C2.  Out of range, [csv_get_field] returns 2 but its clearing loop
    writes [dest[0]] on every pass: with capacity 2 on a fresh buffer the
    second byte of the destination is left as it was. *)
Theorem csv_get_field_absent_clears_first_byte_only (x y : Z) (rest : list Z) :
  csv_get_field (x :: y :: rest) 2 csv_create_buffer 0 0
  = Some (2, 0 :: y :: rest).
Proof. reflexivity. Qed.

(** C8.  On a buffer with no rows [rows - 1] wraps to [SIZE_MAX], the test
    [row > rows - 1] fails, and both queries read [width[row]] of an empty
    width array instead of returning 0. *)
Theorem csv_get_width_faults_on_empty_buffer :
  csv_get_width csv_create_buffer 0 = None
  /\ csv_get_field_length csv_create_buffer 0 0 = None.
Proof. split; reflexivity. Qed.

(** C9.  When the first allocation of [append_row] fails, [csv_load]
    returns 2 without closing the stream it opened, whatever the file and
    the buffer. *)
Theorem csv_load_leaks_stream_on_allocation_failure
    (a : oracle) (b : CSV_BUFFER) (fp : FILE) :
  csv_load (false :: a) b (Some fp)
  = Some {| code := 2; buffer := b; stream_open := true |}.
Proof. reflexivity. Qed.

(** C3.  The text delimiter met outside quotes resets the counter [c], not
    the buffer: when no character is accumulated afterwards, the field
    keeps what was read before the delimiter.  Here the streams are [ab]
    followed by two text delimiters, and [ab] followed by one. *)
Theorem read_next_field_keeps_text_before_quote (f : CSV_FIELD) :
  read_next_field [97; 98; 34; 34] 44 34 f
  = (2, {| text := [97; 98]; length := 3 |}, [])
  /\ read_next_field [97; 98; 34] 44 34 f
     = (2, {| text := [97; 98]; length := 3 |}, []).
Proof. split; reflexivity. Qed.

(** ** The appending primitives on well-formed buffers *)

Lemma buffer_ok_update b row r w :
  buffer_ok b -> 0 <= row < rows b -> row_ok r w ->
  buffer_ok (with_width (with_field b (<[Z.to_nat row := r]> (field b)))
               (<[Z.to_nat row := w]> (width b))).
Proof.
  intros (Hrows & Hlt & Hw) Hrow Hr. unfold buffer_ok; simpl.
  rewrite length_insert. repeat split; try done.
  by apply Forall2_insert.
Qed.

Lemma resize_snoc {A} (l : list A) (junk x : A) :
  <[List.length l := x]> (resize (S (List.length l)) junk l) = l ++ [x].
Proof.
  rewrite resize_ge by lia.
  replace (S (List.length l) - List.length l)%nat with 1%nat by lia.
  simpl. rewrite insert_app_r_alt by lia.
  by rewrite Nat.sub_diag.
Qed.

Lemma append_field_ok b row r :
  buffer_ok b -> load (field b) row = Some r ->
  append_field [] b row =
    if Z.of_nat (List.length r) + 1 <=? INT_MAX
    then Some (0, appended_field b row r, []) else None.
Proof.
  intros Hb Hr. destruct (buffer_ok_row _ _ _ Hb Hr) as (Hrow & Hw & Hmax).
  pose proof Hb as (Hrows & Hlt & HF).
  unfold append_field. rewrite wrap64_small by lia.
  destruct (Z.ltb_spec (rows b) (row + 1)); [lia|].
  rewrite Hw; simpl. unfold INT_MAX in *.
  rewrite to_int_small by lia.
  destruct (Z.leb_spec (Z.of_nat (List.length r) + 1) (2 ^ 31 - 1)),
    (Z.ltb_spec (2 ^ 31 - 1) (Z.of_nat (List.length r) + 1)); try lia; [|done].
  simpl. rewrite Hr; simpl.
  rewrite realloc_Some by lia; simpl.
  replace (Z.to_nat (Z.of_nat (List.length r) + 1)) with (S (List.length r)) by lia.
  rewrite store_nat by (rewrite length_resize; lia). simpl.
  rewrite resize_snoc.
  unfold store. rewrite <- Hrows.
  pose proof HF as Hlen%Forall2_length. rewrite <- Hlen, <- Hrows.
  destruct (Z.leb_spec 0 row), (Z.ltb_spec row (rows b)); try lia. simpl.
  rewrite wrap64_small by lia. done.
Qed.

Lemma appended_field_ok b row r :
  buffer_ok b -> load (field b) row = Some r ->
  Z.of_nat (List.length r) + 1 <= INT_MAX ->
  buffer_ok (appended_field b row r).
Proof.
  intros Hb Hr Hmax. destruct (buffer_ok_row _ _ _ Hb Hr) as (Hrow & _ & _).
  apply buffer_ok_update; [done|done|].
  split; [rewrite length_app; simpl; lia|done].
Qed.

Lemma append_field_absent a b row :
  0 <= row < 2 ^ 64 - 1 -> rows b <= row ->
  append_field a b row = Some (1, b, a).
Proof.
  intros. unfold append_field. rewrite wrap64_small by lia.
  destruct (Z.ltb_spec (rows b) (row + 1)); [done|lia].
Qed.

Lemma append_row_ok b :
  buffer_ok b ->
  append_row [] b =
    if rows b + 1 <? 2 ^ 61 then Some (0, appended_row b, []) else None.
Proof.
  intros (Hrows & Hlt & HF).
  pose proof HF as Hlen%Forall2_length.
  unfold append_row; simpl.
  destruct (Z.ltb_spec (rows b + 1) (2 ^ 61)).
  2:{ assert (rows b + 1 = 2 ^ 61) as Heq by lia.
      unfold realloc. rewrite Heq. done. }
  assert (Hn : Z.to_nat (rows b + 1) = S (List.length (width b))) by lia.
  assert (Hn' : Z.to_nat (rows b + 1) = S (List.length (field b))) by lia.
  assert (Hr1 : rows b = Z.of_nat (List.length (width b))) by lia.
  rewrite (realloc_Some 0 (width b) (rows b + 1)) by lia. cbn [mbind option_bind].
  rewrite Hn. rewrite Hr1 at 1.
  rewrite store_nat by (rewrite length_resize; lia). cbn [mbind option_bind].
  rewrite resize_snoc. cbn [with_width rows field width].
  rewrite (realloc_Some [] (field b) (rows b + 1)) by lia. cbn [mbind option_bind].
  rewrite Hn'. rewrite Hrows at 1.
  rewrite store_nat by (rewrite length_resize; lia). cbn [mbind option_bind].
  rewrite resize_snoc.
  unfold append_field.
  cbn [with_width with_rows with_field rows field width field_delim text_delim].
  rewrite !wrap64_small by lia.
  destruct (Z.ltb_spec (rows b + 1) (rows b + 1)); [lia|].
  rewrite Hr1 at 1.
  rewrite load_nat, lookup_app_r, Nat.sub_diag by lia. cbn [mbind option_bind lookup list_lookup].
  change (INT_MAX <? to_int 0 + 1) with false. cbn [realloc_ok negb].
  rewrite Hrows at 1.
  rewrite load_nat, lookup_app_r, Nat.sub_diag by lia. cbn [mbind option_bind lookup list_lookup].
  change (realloc junk_field [] (to_int 0 + 1)) with (Some [junk_field]).
  cbn [mbind option_bind]. change (store [junk_field] (to_int 0) create_field) with (Some [create_field]).
  cbn [mbind option_bind].
  rewrite Hrows at 1.
  rewrite store_nat by (rewrite length_app; simpl; lia). cbn [mbind option_bind].
  rewrite Hr1 at 1.
  rewrite store_nat by (rewrite length_app; simpl; lia). cbn [mbind option_bind].
  rewrite !insert_app_r_alt, !Nat.sub_diag by lia.
  reflexivity.
Qed.

Lemma appended_row_ok b :
  buffer_ok b -> rows b + 1 < 2 ^ 61 -> buffer_ok (appended_row b).
Proof.
  intros (Hrows & Hlt & HF) Hn. unfold buffer_ok, appended_row; simpl.
  rewrite length_app; simpl. repeat split; try lia.
  apply Forall2_app; [done|]. repeat constructor. unfold INT_MAX; lia.
Qed.

(** ** [csv_set_field] *)

Lemma cstr_nonzero (s : list Z) : Forall (fun c => c <> 0) s -> cstr s = s.
Proof.
  induction 1 as [|c s Hc _ IH]; simpl; [done|].
  destruct (Z.eqb_spec c 0); [done|]. by rewrite IH.
Qed.

Lemma load_app_l {A} (l k : list A) i x :
  load l i = Some x -> load (l ++ k) i = Some x.
Proof.
  intros [H0 Hl]%load_Some. apply load_Some. split; [done|].
  by apply lookup_app_l_Some.
Qed.

Lemma load_neg {A} (l : list A) i : i < 0 -> load l i = None.
Proof. intros. unfold load. destruct (Z.leb_spec 0 i); [lia|done]. Qed.

Lemma load_insert {A} (l : list A) i j x :
  0 <= i -> 0 <= j ->
  load (<[Z.to_nat i := x]> l) j =
    if (i =? j) && (i <? Z.of_nat (List.length l)) then Some x else load l j.
Proof.
  intros Hi Hj. unfold load. destruct (Z.leb_spec 0 j); [|lia].
  destruct (Z.eqb_spec i j) as [->|Hne]; simpl.
  - destruct (Z.ltb_spec j (Z.of_nat (List.length l))).
    + apply list_lookup_insert_eq; lia.
    + rewrite list_insert_ge by lia; done.
  - apply list_lookup_insert_ne; lia.
Qed.

Lemma set_cell_Some b row entry f b' :
  set_cell b row entry f = Some b' ->
  exists r, load (field b) row = Some r
    /\ 0 <= entry < Z.of_nat (List.length r)
    /\ b' = with_field b
              (<[Z.to_nat row := <[Z.to_nat entry := f]> r]> (field b)).
Proof.
  unfold set_cell. intros H.
  destruct (load (field b) row) as [r|] eqn:Hr; [|done]. simpl in H.
  destruct (store r entry f) as [r'|] eqn:Hs; [|done]. simpl in H.
  destruct (store (field b) row r') as [fs|] eqn:Hs2; [|done]. simpl in H.
  apply store_Some in Hs as [? ->]. apply store_Some in Hs2 as [? ->].
  inversion H; subst. eauto.
Qed.

Lemma set_cell_ok b row entry f f0 :
  cell b row entry = Some f0 ->
  exists b', set_cell b row entry f = Some b'.
Proof.
  intros (r & Hr & Hf)%cell_Some. unfold set_cell. rewrite Hr; simpl.
  pose proof (load_lt _ _ _ Hf). pose proof (load_lt _ _ _ Hr).
  unfold store.
  destruct (Z.leb_spec 0 entry), (Z.ltb_spec entry (Z.of_nat (List.length r)));
    try lia; simpl.
  destruct (Z.leb_spec 0 row),
    (Z.ltb_spec row (Z.of_nat (List.length (field b)))); try lia; simpl.
  eauto.
Qed.

Lemma set_cell_cell b row entry f b' r e :
  set_cell b row entry f = Some b' ->
  cell b' r e =
    if (row =? r) && (entry =? e) then Some f else cell b r e.
Proof.
  intros (x & Hx & Hent & ->)%set_cell_Some.
  pose proof (load_lt _ _ _ Hx) as Hrow.
  unfold cell; simpl.
  destruct (Z.leb_spec 0 r) as [Hr|Hr].
  2:{ rewrite !(load_neg _ r) by lia. simpl.
      destruct (Z.eqb_spec row r); [lia|done]. }
  rewrite load_insert by lia.
  destruct (Z.eqb_spec row r) as [->|Hne]; simpl.
  - destruct (Z.ltb_spec r (Z.of_nat (List.length (field b)))); [|lia].
    simpl. rewrite Hx; simpl.
    destruct (Z.leb_spec 0 e) as [He|He].
    2:{ rewrite !(load_neg _ e) by lia.
        destruct (Z.eqb_spec entry e); [lia|done]. }
    rewrite load_insert by lia.
    destruct (Z.eqb_spec entry e); simpl; [|done].
    destruct (Z.ltb_spec entry (Z.of_nat (List.length x))); [done|lia].
  - done.
Qed.

Lemma set_cell_buffer_ok b row entry f b' :
  buffer_ok b -> set_cell b row entry f = Some b' ->
  buffer_ok b' /\ rows b' = rows b /\ width b' = width b
  /\ field_delim b' = field_delim b /\ text_delim b' = text_delim b.
Proof.
  intros Hb (x & Hx & Hent & ->)%set_cell_Some.
  destruct (buffer_ok_row _ _ _ Hb Hx) as (Hrow & Hw & Hmax).
  split; [|done].
  destruct Hb as (Hrows & Hlt & HF). unfold buffer_ok; simpl.
  rewrite length_insert. repeat split; try done.
  apply load_Some in Hw as [_ Hw].
  rewrite <- (list_insert_id (width b) _ _ Hw).
  apply Forall2_insert; [done|].
  split; [by rewrite length_insert|done].
Qed.

Lemma cell_appended_row b r e f :
  cell b r e = Some f -> cell (appended_row b) r e = Some f.
Proof.
  intros (x & Hx & Hf)%cell_Some. apply cell_Some. exists x. split; [|done].
  simpl. by apply load_app_l.
Qed.

Lemma set_grow_rows_spec n b row b1 :
  buffer_ok b -> set_grow_rows n b row = Some b1 ->
  buffer_ok b1 /\ row < rows b1 /\ rows b <= rows b1
  /\ field_delim b1 = field_delim b /\ text_delim b1 = text_delim b
  /\ (forall r e f, cell b r e = Some f -> cell b1 r e = Some f).
Proof.
  revert b. induction n as [|n IH]; intros b Hb; simpl.
  - destruct (Z.leb_spec (rows b) row); [done|].
    intros [= <-]. split_and!; try done; try lia; auto.
  - destruct (Z.leb_spec (rows b) row).
    + rewrite append_row_ok by done.
      destruct (Z.ltb_spec (rows b + 1) (2 ^ 61)); [|done]. simpl.
      intros H1. apply IH in H1; [|by apply appended_row_ok].
      destruct H1 as (? & ? & Hle & ? & ? & Hc). simpl in *.
      split_and!; try done; try lia.
      intros r e f Hf. apply Hc. by apply cell_appended_row.
    + intros [= <-]. split_and!; try done; try lia; auto.
Qed.

Lemma cell_appended_field b row x r e f :
  load (field b) row = Some x ->
  cell b r e = Some f -> cell (appended_field b row x) r e = Some f.
Proof.
  intros Hx (y & Hy & Hf)%cell_Some. apply cell_Some.
  pose proof (load_lt _ _ _ Hx). pose proof (load_lt _ _ _ Hy).
  simpl. rewrite load_insert by lia.
  destruct (Z.eqb_spec row r) as [->|]; simpl.
  - destruct (Z.ltb_spec r (Z.of_nat (List.length (field b)))); [|lia].
    rewrite Hx in Hy. inversion Hy; subst y.
    eexists; split; [done|]. by apply load_app_l.
  - eauto.
Qed.

Lemma width_appended_field b row x :
  buffer_ok b -> load (field b) row = Some x ->
  load (width (appended_field b row x)) row
  = Some (Z.of_nat (List.length x) + 1).
Proof.
  intros Hb Hx. destruct (buffer_ok_row _ _ _ Hb Hx) as (Hrow & Hw & _).
  pose proof (load_lt _ _ _ Hw).
  simpl. rewrite load_insert by lia.
  rewrite Z.eqb_refl. simpl.
  destruct (Z.ltb_spec row (Z.of_nat (List.length (width b)))); [done|lia].
Qed.

Lemma set_grow_fields_spec n b row entry b2 :
  buffer_ok b -> set_grow_fields n b row entry = Some b2 ->
  buffer_ok b2 /\ rows b2 = rows b
  /\ field_delim b2 = field_delim b /\ text_delim b2 = text_delim b
  /\ (exists w, load (width b2) row = Some w /\ entry < w)
  /\ (forall r e f, cell b r e = Some f -> cell b2 r e = Some f).
Proof.
  revert b. induction n as [|n IH]; intros b Hb; simpl.
  - destruct (load (width b) row) as [w|] eqn:Hw; [|done]. simpl.
    destruct (Z.leb_spec w entry); [done|].
    intros [= <-]. split_and!; try done; eauto.
  - destruct (load (width b) row) as [w|] eqn:Hw; [|done]. simpl.
    destruct (Z.leb_spec w entry).
    + destruct (buffer_ok_width _ _ _ Hb Hw) as (_ & _ & x & Hx & ->).
      rewrite (append_field_ok _ _ x) by done.
      destruct (Z.leb_spec (Z.of_nat (List.length x) + 1) INT_MAX); [|done].
      simpl. intros H1. apply IH in H1; [|by apply appended_field_ok].
      destruct H1 as (? & ? & ? & ? & ? & Hc). simpl in *.
      split_and!; try done.
      intros r e f Hf. apply Hc. by apply cell_appended_field.
    + intros [= <-]. split_and!; try done; eauto.
Qed.

(** What [csv_set_field] leaves when it returns: at least [row + 1] rows,
    at least [entry + 1] fields in row [row], the text [t] in the cell, and
    every other cell that existed as it was. *)
Lemma csv_set_field_spec
    (b : CSV_BUFFER) (row entry : Z) (t : list Z) (c : Z) (b' : CSV_BUFFER) :
  buffer_ok b ->
  Forall (fun ch => ch <> 0) t ->
  csv_set_field b row entry t = Some (c, b') ->
  c = 0
  /\ row + 1 <= rows b'
  /\ (exists w, load (width b') row = Some w /\ entry + 1 <= w)
  /\ (exists f, cell b' row entry = Some f /\ text f = t)
  /\ (forall r e f, cell b r e = Some f -> (r, e) <> (row, entry) ->
        cell b' r e = Some f)
  /\ buffer_ok b'.
Proof.
  intros Hb Ht. unfold csv_set_field.
  destruct (set_grow_rows _ b row) as [b1|] eqn:H1; [|done]. simpl.
  destruct (set_grow_rows_spec _ _ _ _ Hb H1) as (Hb1 & Hrow & _ & _ & _ & Hc1).
  destruct (load (width b1) row) as [w|] eqn:Hw; [|done]. simpl.
  destruct (set_grow_fields _ b1 row entry) as [b2|] eqn:H2; [|done]. simpl.
  destruct (set_grow_fields_spec _ _ _ _ _ Hb1 H2)
    as (Hb2 & Hrows2 & _ & _ & (w2 & Hw2 & Hent) & Hc2).
  destruct (cell b2 row entry) as [f|] eqn:Hf; [|done]. simpl.
  destruct (set_cell b2 row entry _) as [b3|] eqn:H3; [|done]. simpl.
  intros [= <- <-].
  destruct (set_cell_buffer_ok _ _ _ _ _ Hb2 H3) as (Hb3 & Hrows3 & Hw3 & _).
  split_and!.
  - done.
  - lia.
  - exists w2. rewrite Hw3. split; [done|lia].
  - eexists. rewrite (set_cell_cell _ _ _ _ _ row entry H3).
    rewrite !Z.eqb_refl. simpl. split; [done|].
    simpl. by apply cstr_nonzero.
  - intros r e g Hg Hne.
    rewrite (set_cell_cell _ _ _ _ _ r e H3).
    destruct (Z.eqb_spec row r), (Z.eqb_spec entry e); simpl; auto.
    congruence.
  - done.
Qed.

(** ** The width invariant *)

Lemma width_inv_Forall b :
  buffer_ok b -> width_inv b <-> Forall (fun w => 1 <= w) (width b).
Proof.
  intros Hb. pose proof Hb as (Hrows & Hlt & HF).
  pose proof HF as Hlen%Forall2_length.
  split.
  - intros Hinv. apply Forall_lookup_2. intros i w Hi.
    pose proof (lookup_lt_Some _ _ _ Hi).
    destruct (Hinv (Z.of_nat i)) as (w' & Hw' & Hle); [lia|].
    rewrite load_nat in Hw'. congruence.
  - intros Hall row Hrow.
    destruct (lookup_lt_is_Some_2 (width b) (Z.to_nat row)) as [w Hw]; [lia|].
    exists w. split; [apply load_Some; split; [lia|done]|].
    by apply (Forall_lookup_1 _ _ _ _ Hall Hw).
Qed.

Lemma good_width b row w : good b -> load (width b) row = Some w -> 1 <= w.
Proof.
  intros [_ Hall] [_ Hw]%load_Some. by apply (Forall_lookup_1 _ _ _ _ Hall Hw).
Qed.

Lemma good_update b row r w :
  good b -> 0 <= row < rows b -> row_ok r w -> 1 <= w ->
  good (with_width (with_field b (<[Z.to_nat row := r]> (field b)))
          (<[Z.to_nat row := w]> (width b))).
Proof.
  intros [Hb Hall] Hrow Hr Hw. split; [by apply buffer_ok_update|].
  simpl. by apply Forall_insert.
Qed.

Lemma good_set_cell b row entry f b' :
  good b -> set_cell b row entry f = Some b' -> good b'.
Proof.
  intros [Hb Hall] Hs.
  destruct (set_cell_buffer_ok _ _ _ _ _ Hb Hs) as (? & _ & Hw & _).
  split; [done|]. by rewrite Hw.
Qed.

Lemma good_append_row b c b' a :
  good b -> append_row [] b = Some (c, b', a) -> good b'.
Proof.
  intros [Hb Hall]. rewrite append_row_ok by done.
  destruct (Z.ltb_spec (rows b + 1) (2 ^ 61)); [|done].
  intros [= <- <- <-]. split; [by apply appended_row_ok|].
  simpl. apply Forall_app. split; [done|]. repeat constructor. lia.
Qed.

Lemma append_field_cases b row c b' a :
  buffer_ok b -> append_field [] b row = Some (c, b', a) ->
  (c = 1 /\ b' = b) \/
  (c = 0 /\ exists r, load (field b) row = Some r
     /\ Z.of_nat (List.length r) + 1 <= INT_MAX
     /\ b' = appended_field b row r).
Proof.
  intros Hb H.
  destruct (load (width b) row) as [w|] eqn:Hw.
  - destruct (buffer_ok_width _ _ _ Hb Hw) as (_ & _ & r & Hr & ->).
    rewrite (append_field_ok _ _ r) in H by done.
    destruct (Z.leb_spec (Z.of_nat (List.length r) + 1) INT_MAX); [|done].
    inversion H; subst. right. eauto.
  - unfold append_field in H. rewrite Hw in H.
    destruct (_ <? _); [|done]. inversion H; subst. by left.
Qed.

Lemma good_append_field b row c b' a :
  good b -> append_field [] b row = Some (c, b', a) -> good b'.
Proof.
  intros Hg H. pose proof Hg as [Hb Hall].
  destruct (append_field_cases _ _ _ _ _ Hb H)
    as [[_ ->]|(_ & r & Hr & Hmax & ->)]; [done|].
  destruct (buffer_ok_row _ _ _ Hb Hr) as (Hrow & _ & _).
  apply good_update; try done; [|lia].
  split; [rewrite length_app; simpl; lia|done].
Qed.

Lemma good_clear_first b row c b' :
  good b -> csv_clear_field_with (fun _ _ => None) b row 0 = Some (c, b') ->
  good b' /\ rows b' = rows b.
Proof.
  intros Hg. unfold csv_clear_field_with.
  destruct (_ <? _); [by intros [= <- <-]|].
  destruct (load (width b) row) as [w|]; [|done]. simpl.
  destruct (_ <? _); [by intros [= <- <-]|].
  rewrite andb_false_r.
  destruct (cell b row 0) as [f|]; [|done]. simpl.
  destruct (set_cell b row 0 _) as [b1|] eqn:Hs; [|done]. simpl.
  intros [= <- <-]. split; [by eapply good_set_cell|].
  by destruct (set_cell_buffer_ok _ _ _ _ _ (proj1 Hg) Hs) as (_ & ? & _).
Qed.

Lemma good_remove_last_field b row c b' :
  good b -> remove_last_field b row = Some (c, b') ->
  good b' /\ rows b' = rows b.
Proof.
  intros Hg. pose proof Hg as [Hb Hall]. unfold remove_last_field.
  destruct (load (width b) row) as [w|] eqn:Hw; [|done]. simpl.
  destruct (_ <? _); [by intros [= <- <-]|].
  destruct (Z.eqb_spec w 0); [by intros [= <- <-]|].
  destruct (Z.eqb_spec w 1).
  { destruct (csv_clear_field_with _ b row 0) as [[c1 b1]|] eqn:Hc; [|done].
    simpl. intros [= <- <-]. by eapply good_clear_first. }
  destruct (buffer_ok_width _ _ _ Hb Hw) as (Hrow & Hmax & r & Hr & ->).
  rewrite Hr. simpl. unfold INT_MAX in Hmax.
  rewrite wrap64_small by lia.
  destruct (load r _) as [f|]; [|done]. simpl.
  rewrite realloc_Some by lia. simpl.
  pose proof Hb as (Hrows & Hlt & HF).
  pose proof HF as Hlen%Forall2_length.
  unfold store. rewrite <- Hlen, <- Hrows.
  destruct (Z.leb_spec 0 row), (Z.ltb_spec row (rows b)); try lia. simpl.
  intros [= <- <-]. split; [|done].
  apply good_update; try done; [|lia].
  split; [rewrite length_resize; lia|unfold INT_MAX; lia].
Qed.

Lemma good_csv_clear_field b row entry c b' :
  good b -> csv_clear_field b row entry = Some (c, b') -> good b'.
Proof.
  intros Hg. unfold csv_clear_field, csv_clear_field_with.
  destruct (_ <? _); [by intros [= <- <-]|].
  destruct (load (width b) row) as [w|]; [|done]. simpl.
  destruct (_ <? _); [by intros [= <- <-]|].
  destruct (_ && _).
  - destruct (remove_last_field b row) as [[c1 b1]|] eqn:Hr; [|done]. simpl.
    intros [= <- <-]. by eapply good_remove_last_field.
  - destruct (cell b row entry) as [f|]; [|done]. simpl.
    destruct (set_cell b row entry _) as [b1|] eqn:Hs; [|done]. simpl.
    intros [= <- <-]. by eapply good_set_cell.
Qed.

Lemma good_csv_copy_field b dr de sr se c b' :
  good b -> csv_copy_field b dr de sr se = Some (c, b') -> good b'.
Proof.
  intros Hg. unfold csv_copy_field.
  destruct (cell b (to_int dr) _) as [d|]; [|done]. simpl.
  destruct (cell b (to_int sr) _) as [s|]; [|done]. simpl.
  destruct (_ && _); [done|].
  destruct (set_cell b _ _ _) as [b1|] eqn:Hs; [|done]. simpl.
  intros [= <- <-]. by eapply good_set_cell.
Qed.

Lemma good_remove_fields n b row b' :
  good b -> remove_fields n b row = Some b' -> good b' /\ rows b' = rows b.
Proof.
  revert b. induction n as [|n IH]; intros b Hg; simpl.
  - by intros [= <-].
  - destruct (remove_last_field b row) as [[c1 b1]|] eqn:Hr; [|done]. simpl.
    intros H. destruct (good_remove_last_field _ _ _ _ Hg Hr) as [Hg1 <-].
    by apply IH.
Qed.

Lemma good_remove_last_row b c b' :
  good b -> remove_last_row b = Some (c, b') -> good b'.
Proof.
  intros Hg. unfold remove_last_row.
  destruct (load (width b) _) as [w|] eqn:Hw; [|done]. simpl.
  destruct (remove_fields _ b _) as [b1|] eqn:H1; [|done]. simpl.
  destruct (good_remove_fields _ _ _ _ Hg H1) as [[Hb1 Hall1] Hr1].
  pose proof Hb1 as (Hrows & Hlt & HF).
  pose proof HF as Hlen%Forall2_length.
  destruct (buffer_ok_width _ _ _ (proj1 Hg) Hw) as (Hrow & _).
  assert (1 <= rows b1) by lia.
  destruct (Z.eq_dec (rows b1) 1) as [H1'|H1'].
  { rewrite H1'. done. }
  rewrite !realloc_Some by lia. simpl.
  intros [= <- <-]. split.
  - unfold buffer_ok; simpl. rewrite wrap64_small by lia.
    rewrite !resize_le by lia. rewrite length_take.
    split_and!; [lia|lia|]. by apply Forall2_take.
  - simpl. rewrite resize_le by lia. by apply Forall_take.
Qed.

Lemma good_csv_clear_row b row c b' :
  good b -> csv_clear_row b row = Some (c, b') -> good b'.
Proof.
  intros Hg. pose proof Hg as [Hb Hall]. unfold csv_clear_row.
  destruct (_ =? _).
  { destruct (remove_last_row b) as [[c1 b1]|] eqn:Hr; [|done]. simpl.
    intros [= <- <-]. by eapply good_remove_last_row. }
  destruct (load (width b) row) as [w|] eqn:Hw; [|done]. simpl.
  destruct (load (field b) row) as [r|] eqn:Hr; [|done]. simpl.
  destruct (_ || _); [done|].
  destruct (load r 0) as [f0|] eqn:Hf; [|done]. simpl.
  destruct (store r 0 _) as [r1|] eqn:Hs; [|done]. cbn [mbind option_bind].
  change (realloc junk_field r1 1) with (Some (resize 1 junk_field r1)).
  cbn [mbind option_bind].
  destruct (store (field b) row _) as [fs|] eqn:Hs1; [|done]. simpl.
  destruct (store (width b) row 1) as [ws|] eqn:Hs2; [|done]. simpl.
  apply store_Some in Hs as [? ->]. apply store_Some in Hs1 as [? ->].
  apply store_Some in Hs2 as [? ->].
  intros [= <- <-].
  destruct (buffer_ok_row _ _ _ Hb Hr) as (Hrow & _ & _).
  apply good_update; try done.
  split; [by rewrite length_resize|done].
Qed.

Lemma good_grow_rows n b row c b' :
  good b -> grow_rows n b row = Some (c, b') -> good b'.
Proof.
  revert b. induction n as [|n IH]; intros b Hg; simpl.
  - destruct (_ <? _); [done|]. by intros [= <- <-].
  - destruct (_ <? _); [|by intros [= <- <-]].
    destruct (append_row [] b) as [[[c1 b1] a1]|] eqn:Ha; [|done]. simpl.
    pose proof (good_append_row _ _ _ _ Hg Ha).
    destruct (_ =? _); [by apply IH|]. by intros [= <- <-].
Qed.

Lemma good_shrink_row n b d s c b' :
  good b -> shrink_row n b d s = Some (c, b') -> good b'.
Proof.
  revert b. induction n as [|n IH]; intros b Hg; simpl.
  - destruct (load (width b) d); [|done]. simpl.
    destruct (load (width b) s); [|done]. simpl.
    destruct (_ <? _); [done|]. by intros [= <- <-].
  - destruct (load (width b) d); [|done]. simpl.
    destruct (load (width b) s); [|done]. simpl.
    destruct (_ <? _); [|by intros [= <- <-]].
    destruct (remove_last_field b d) as [[c1 b1]|] eqn:Ha; [|done]. simpl.
    destruct (good_remove_last_field _ _ _ _ Hg Ha) as [? _].
    destruct (_ =? _); [by apply IH|]. by intros [= <- <-].
Qed.

Lemma good_widen_row n b d s c b' :
  good b -> widen_row n b d s = Some (c, b') -> good b'.
Proof.
  revert b. induction n as [|n IH]; intros b Hg; simpl.
  - destruct (load (width b) d); [|done]. simpl.
    destruct (load (width b) s); [|done]. simpl.
    destruct (_ <? _); [done|]. by intros [= <- <-].
  - destruct (load (width b) d); [|done]. simpl.
    destruct (load (width b) s); [|done]. simpl.
    destruct (_ <? _); [|by intros [= <- <-]].
    destruct (append_field [] b d) as [[[c1 b1] a1]|] eqn:Ha; [|done]. simpl.
    pose proof (good_append_field _ _ _ _ _ Hg Ha).
    destruct (_ =? _); [by apply IH|]. by intros [= <- <-].
Qed.

Lemma good_copy_fields n b d s i b' :
  good b -> copy_fields n b d s i = Some b' -> good b'.
Proof.
  revert b i. induction n as [|n IH]; intros b i Hg; simpl.
  - destruct (load (width b) d); [|done]. simpl.
    destruct (_ <? _); [done|]. by intros [= <-].
  - destruct (load (width b) d); [|done]. simpl.
    destruct (_ <? _); [|by intros [= <-]].
    destruct (csv_copy_field b d i s i) as [[c1 b1]|] eqn:Ha; [|done]. simpl.
    apply IH. by eapply good_csv_copy_field.
Qed.

Lemma good_csv_copy_row b d s c b' :
  good b -> csv_copy_row b d s = Some (c, b') -> good b'.
Proof.
  intros Hg. unfold csv_copy_row.
  destruct (_ <? _).
  { destruct (csv_clear_row b d) as [[c1 b1]|] eqn:Hc; [|done]. simpl.
    intros [= <- <-]. by eapply good_csv_clear_row. }
  destruct (grow_rows _ b d) as [[c1 b1]|] eqn:H1; [|done]. simpl.
  pose proof (good_grow_rows _ _ _ _ _ Hg H1) as Hg1.
  destruct (negb _); [by intros [= <- <-]|].
  destruct (load (width b1) d) as [wd|]; [|done]. simpl.
  destruct (shrink_row _ b1 d s) as [[c2 b2]|] eqn:H2; [|done]. simpl.
  pose proof (good_shrink_row _ _ _ _ _ _ Hg1 H2) as Hg2.
  destruct (negb _); [by intros [= <- <-]|].
  destruct (load (width b2) d) as [wd2|]; [|done]. simpl.
  destruct (load (width b2) s) as [ws2|]; [|done]. simpl.
  destruct (widen_row _ b2 d s) as [[c3 b3]|] eqn:H3; [|done]. simpl.
  pose proof (good_widen_row _ _ _ _ _ _ Hg2 H3) as Hg3.
  destruct (negb _); [by intros [= <- <-]|].
  destruct (load (width b3) d) as [wd3|]; [|done]. simpl.
  destruct (copy_fields _ b3 d s 0) as [b4|] eqn:H4; [|done]. simpl.
  intros [= <- <-]. by eapply good_copy_fields.
Qed.

Lemma good_shift_rows n b i b' :
  good b -> shift_rows n b i = Some b' -> good b'.
Proof.
  revert b i. induction n as [|n IH]; intros b i Hg; simpl.
  - destruct (_ <? _); [done|]. by intros [= <-].
  - destruct (_ <? _); [|by intros [= <-]].
    destruct (csv_copy_row b i _) as [[c1 b1]|] eqn:Ha; [|done]. simpl.
    apply IH. by eapply good_csv_copy_row.
Qed.

Lemma good_csv_remove_row b row c b' :
  good b -> csv_remove_row b row = Some (c, b') -> good b'.
Proof.
  intros Hg. unfold csv_remove_row.
  destruct (_ <? _); [by intros [= <- <-]|].
  destruct (shift_rows _ b row) as [b1|] eqn:H1; [|done]. simpl.
  destruct (remove_last_row b1) as [[c2 b2]|] eqn:H2; [|done]. simpl.
  intros [= <- <-]. eapply good_remove_last_row; [|exact H2].
  by eapply good_shift_rows.
Qed.

Lemma good_shift_fields n b row i b' :
  good b -> shift_fields n b row i = Some b' -> good b'.
Proof.
  revert b i. induction n as [|n IH]; intros b i Hg; simpl.
  - destruct (load (width b) row); [|done]. simpl.
    destruct (_ <? _); [done|]. by intros [= <-].
  - destruct (load (width b) row); [|done]. simpl.
    destruct (_ <? _); [|by intros [= <-]].
    destruct (csv_copy_field b row i row _) as [[c1 b1]|] eqn:Ha; [|done].
    simpl. apply IH. by eapply good_csv_copy_field.
Qed.

Lemma good_csv_remove_field b row entry c b' :
  good b -> csv_remove_field b row entry = Some (c, b') -> good b'.
Proof.
  intros Hg. unfold csv_remove_field.
  destruct (_ <? _); [by intros [= <- <-]|].
  destruct (load (width b) row) as [w|]; [|done]. simpl.
  destruct (_ <? _); [by intros [= <- <-]|].
  destruct (shift_fields _ b row entry) as [b1|] eqn:H1; [|done]. simpl.
  destruct (remove_last_field b1 row) as [[c2 b2]|] eqn:H2; [|done]. simpl.
  intros [= <- <-].
  eapply good_remove_last_field; [|exact H2]. by eapply good_shift_fields.
Qed.

Lemma good_set_grow_rows n b row b' :
  good b -> set_grow_rows n b row = Some b' -> good b'.
Proof.
  revert b. induction n as [|n IH]; intros b Hg; simpl.
  - destruct (_ <=? _); [done|]. by intros [= <-].
  - destruct (_ <=? _); [|by intros [= <-]].
    destruct (append_row [] b) as [[[c1 b1] a1]|] eqn:Ha; [|done]. simpl.
    apply IH. by eapply good_append_row.
Qed.

Lemma good_set_grow_fields n b row entry b' :
  good b -> set_grow_fields n b row entry = Some b' -> good b'.
Proof.
  revert b. induction n as [|n IH]; intros b Hg; simpl.
  - destruct (load (width b) row); [|done]. simpl.
    destruct (_ <=? _); [done|]. by intros [= <-].
  - destruct (load (width b) row); [|done]. simpl.
    destruct (_ <=? _); [|by intros [= <-]].
    destruct (append_field [] b row) as [[[c1 b1] a1]|] eqn:Ha; [|done]. simpl.
    apply IH. by eapply good_append_field.
Qed.

Lemma good_csv_set_field b row entry t c b' :
  good b -> csv_set_field b row entry t = Some (c, b') -> good b'.
Proof.
  intros Hg. unfold csv_set_field.
  destruct (set_grow_rows _ b row) as [b1|] eqn:H1; [|done]. simpl.
  pose proof (good_set_grow_rows _ _ _ _ Hg H1) as Hg1.
  destruct (load (width b1) row) as [w|]; [|done]. simpl.
  destruct (set_grow_fields _ b1 row entry) as [b2|] eqn:H2; [|done]. simpl.
  pose proof (good_set_grow_fields _ _ _ _ _ Hg1 H2) as Hg2.
  destruct (cell b2 row entry) as [f|]; [|done]. simpl.
  destruct (set_cell b2 row entry _) as [b3|] eqn:H3; [|done]. simpl.
  intros [= <- <-]. by eapply good_set_cell.
Qed.

Lemma good_insert_shift n b row entry i b' :
  good b -> insert_shift n b row entry i = Some b' -> good b'.
Proof.
  revert b i. induction n as [|n IH]; intros b i Hg; simpl.
  - destruct (_ <? _); [done|]. by intros [= <-].
  - destruct (_ <? _); [|by intros [= <-]].
    destruct (csv_copy_field b row i row _) as [[c1 b1]|] eqn:Ha; [|done].
    simpl. apply IH. by eapply good_csv_copy_field.
Qed.

Lemma good_csv_insert_field b row entry t c b' :
  good b -> csv_insert_field b row entry t = Some (c, b') -> good b'.
Proof.
  intros Hg. unfold csv_insert_field.
  match goal with |- (?x ≫= _) = _ -> _ => destruct x as [[]|] end;
    [| |done]; simpl.
  - destruct (csv_set_field b row entry t) as [[c1 b1]|] eqn:H1; [|done].
    simpl. intros [= <- <-]. by eapply good_csv_set_field.
  - destruct (append_field [] b row) as [[[c1 b1] a1]|] eqn:H1; [|done].
    simpl. pose proof (good_append_field _ _ _ _ _ Hg H1) as Hg1.
    destruct (load (width b1) row) as [w|]; [|done]. simpl.
    destruct (insert_shift _ b1 row entry _) as [b2|] eqn:H2; [|done]. simpl.
    pose proof (good_insert_shift _ _ _ _ _ _ Hg1 H2) as Hg2.
    destruct (csv_set_field b2 row entry t) as [[c3 b3]|] eqn:H3; [|done].
    simpl. intros [= <- <-]. by eapply good_csv_set_field.
Qed.

(** With every allocation succeeding, each of the nine mutating
    operations that completes on a well-formed buffer whose rows all have
    at least one field leaves such a buffer.  This says nothing of the
    calls that fault, and it fails when an allocation fails (see
    [append_row] below). *)
Theorem width_invariant_preserved
    (o : operation) (b b' : CSV_BUFFER) :
  buffer_ok b -> width_inv b ->
  run o b = Some b' ->
  buffer_ok b' /\ width_inv b'.
Proof.
  intros Hb Hinv Hrun.
  assert (Hg : good b) by (split; [done|by apply width_inv_Forall]).
  assert (good b') as [Hb' Hall'].
  { destruct o; simpl in Hrun.
    - destruct (append_row [] b) as [[[c b1] a]|] eqn:H; [|done].
      simpl in Hrun. inversion Hrun; subst. by eapply good_append_row.
    - destruct (append_field [] b row) as [[[c b1] a]|] eqn:H; [|done].
      simpl in Hrun. inversion Hrun; subst. by eapply good_append_field.
    - destruct (remove_last_field b row) as [[c b1]|] eqn:H; [|done].
      simpl in Hrun. inversion Hrun; subst.
      by eapply good_remove_last_field.
    - destruct (csv_set_field b row entry t) as [[c b1]|] eqn:H; [|done].
      simpl in Hrun. inversion Hrun; subst. by eapply good_csv_set_field.
    - destruct (csv_insert_field b row entry t) as [[c b1]|] eqn:H; [|done].
      simpl in Hrun. inversion Hrun; subst. by eapply good_csv_insert_field.
    - destruct (csv_remove_field b row entry) as [[c b1]|] eqn:H; [|done].
      simpl in Hrun. inversion Hrun; subst. by eapply good_csv_remove_field.
    - destruct (csv_clear_field b row entry) as [[c b1]|] eqn:H; [|done].
      simpl in Hrun. inversion Hrun; subst. by eapply good_csv_clear_field.
    - destruct (csv_clear_row b row) as [[c b1]|] eqn:H; [|done].
      simpl in Hrun. inversion Hrun; subst. by eapply good_csv_clear_row.
    - destruct (csv_remove_row b row) as [[c b1]|] eqn:H; [|done].
      simpl in Hrun. inversion Hrun; subst. by eapply good_csv_remove_row. }
  split; [done|]. by apply width_inv_Forall.
Qed.

Lemma sample_buffer_ok : buffer_ok sample_buffer.
Proof. repeat split; try done. repeat constructor; done. Qed.

Lemma sample_buffer_width_inv : width_inv sample_buffer.
Proof.
  apply width_inv_Forall; [apply sample_buffer_ok|].
  repeat constructor; done.
Qed.

(** Each operation completes on the sample buffer. *)
Lemma run_sample_buffer :
  cells <$> run op_append_row sample_buffer
    = Some [[[97]; [98]]; [[99]]; [[]]]
  /\ cells <$> run (op_append_field 1) sample_buffer
    = Some [[[97]; [98]]; [[99]; []]]
  /\ cells <$> run (op_remove_last_field 0) sample_buffer
    = Some [[[97]]; [[99]]]
  /\ cells <$> run (op_remove_last_field 1) sample_buffer
    = Some [[[97]; [98]]; [[]]]
  /\ cells <$> run (op_set_field 2 1 [100]) sample_buffer
    = Some [[[97]; [98]]; [[99]]; [[]; [100]]]
  /\ cells <$> run (op_insert_field 0 1 [100]) sample_buffer
    = Some [[[97]; [100]; [98]]; [[99]]]
  /\ cells <$> run (op_remove_field 0 0) sample_buffer
    = Some [[[98]]; [[99]]]
  /\ cells <$> run (op_clear_field 0 0) sample_buffer
    = Some [[[]; [98]]; [[99]]]
  /\ cells <$> run (op_clear_row 0) sample_buffer
    = Some [[[]]; [[99]]]
  /\ cells <$> run (op_clear_row 1) sample_buffer
    = Some [[[97]; [98]]]
  /\ cells <$> run (op_remove_row 0) sample_buffer
    = Some [[[99]]].
Proof. repeat split; reflexivity. Qed.

Lemma width_invariant_preserved_witness :
  buffer_ok (mkBuffer [[mkField [98] 2]; [mkField [99] 2]] 2 [1; 1] 44 34)
  /\ width_inv (mkBuffer [[mkField [98] 2]; [mkField [99] 2]] 2 [1; 1] 44 34).
Proof.
  apply (width_invariant_preserved (op_remove_field 0 0) sample_buffer).
  - repeat split; try done. repeat constructor; done.
  - intros row Hrow. simpl in Hrow.
    destruct (Z.eq_dec row 0) as [->|]; [exists 2; split; [reflexivity|lia]|].
    assert (row = 1) as -> by lia. exists 1; split; [reflexivity|lia].
  - reflexivity.
Defined.

(** ** The tokenizer and a final newline *)





Lemma scan_terminator_unfold fp fd ch :
  scan_terminator fp fd ch =
    if ch =? fd then (0, fp)
    else if ch =? NL then
      (if to_char (fst (getc fp)) =? EOF then 2 else 1, fp)
    else if ch =? EOF then (2, fp)
    else
      match fp with
      | [] => if EOF =? fd then (0, []) else (2, [])
      | x :: fp' => scan_terminator fp' fd (to_char x)
      end.
Proof. by destruct fp. Qed.

Lemma scan_terminator_delim fp fd : scan_terminator fp fd fd = (0, fp).
Proof. by rewrite scan_terminator_unfold, Z.eqb_refl. Qed.

Lemma scan_terminator_eof fd : fd <> EOF -> scan_terminator [] fd EOF = (2, []).
Proof.
  intros. rewrite scan_terminator_unfold.
  destruct (Z.eqb_spec EOF fd); [congruence|]. done.
Qed.

Lemma scan_terminator_final_newline fd :
  fd <> NL -> scan_terminator [] fd NL = (2, []).
Proof.
  intros. rewrite scan_terminator_unfold.
  destruct (Z.eqb_spec NL fd); [congruence|]. done.
Qed.

Lemma to_char_mod x : to_char (x mod 256) = to_char x.
Proof. unfold to_char. by rewrite Zplus_mod_idemp_l. Qed.

Lemma scan_terminator_newline fd y fp :
  fd <> NL -> to_char y <> EOF ->
  scan_terminator (y :: fp) fd NL = (1, y :: fp).
Proof.
  intros. rewrite scan_terminator_unfold.
  destruct (Z.eqb_spec NL fd); [congruence|].
  rewrite Z.eqb_refl. cbn [getc fst]. rewrite to_char_mod.
  destruct (Z.eqb_spec (to_char y) EOF); [congruence|]. done.
Qed.





Lemma load_loop_S fuel (first : bool) a b fp i j :
  load_loop (S fuel) first a b fp i j =
   ('(next, b1, fp1) ←
      (if first then Some (1, b, fp)
       else
         f ← cell b i (j - 1);
         let '(next, f', fp') :=
           read_next_field fp (field_delim b) (text_delim b) f in
         b' ← set_cell b i (j - 1) f';
         Some (next, b', fp'));
    if next =? 2 then
      Some {| code := 0; buffer := b1; stream_open := false |}
    else if next =? 1 then
      '(c, b2, a2) ← append_row a b1;
      if negb (c =? 0) then
        Some {| code := 2; buffer := b2; stream_open := true |}
      else load_loop fuel false a2 b2 fp1 (i + 1) 1
    else
      '(c, b2, a2) ← append_field a b1 (wrap64 i);
      if negb (c =? 0) then
        Some {| code := 2; buffer := b2; stream_open := true |}
      else load_loop fuel false a2 b2 fp1 i (j + 1) : option outcome).
Proof. reflexivity. Qed.




(** Scenario 1 of the specification: two rows of three fields, whether or
    not the file ends in a newline. *)
Lemma csv_load_scenario_1 :
  (fun o => (code o, cells (buffer o), rows (buffer o), width (buffer o)))
    <$> csv_load [] csv_create_buffer
          (Some [97; 44; 98; 44; 99; 10; 49; 44; 50; 44; 51; 10])
  = Some (0, [[[97]; [98]; [99]]; [[49]; [50]; [51]]], 2, [3; 3]).
Proof. reflexivity. Qed.

(** ** What [csv_save] writes *)

Lemma text_char_is_char c : text_char c -> is_char c.
Proof. intros (? & ? & ?). by split. Qed.

Lemma strchr_existsb t c :
  Forall (fun ch => ch <> 0) t -> c <> 0 -> strchr t c = existsb (Z.eqb c) t.
Proof.
  intros Ht Hc. unfold strchr. rewrite cstr_nonzero by done.
  destruct (Z.eqb_spec c 0); [done|]. by rewrite orb_false_r.
Qed.

Lemma save_quoted_ok td t pre out :
  save_quoted (List.length t) td (pre ++ t ++ [0])
    (Z.of_nat (List.length pre)) out
  = Some (out ++ escape td t).
Proof.
  revert pre out. induction t as [|ch t IH]; intros pre out.
  - simpl. by rewrite app_nil_r.
  - cbn [List.length save_quoted].
    rewrite load_nat, lookup_app_r, Nat.sub_diag by lia.
    cbn [app lookup list_lookup mbind option_bind].
    replace (Z.of_nat (List.length pre) + 1)
      with (Z.of_nat (List.length (pre ++ [ch])))
      by (rewrite length_app; simpl; lia).
    replace (pre ++ ch :: t ++ [0]) with ((pre ++ [ch]) ++ t ++ [0])
      by (by rewrite <- app_assoc).
    rewrite IH. unfold escape, fputc, byte. cbn [flat_map].
    destruct (ch =? td); by rewrite <- !app_assoc.
Qed.

Lemma save_field_ok b i j out r f :
  buffer_ok b -> load (field b) i = Some r -> load r j = Some f ->
  field_ok f ->
  text_delim b <> 0 -> field_delim b <> 0 ->
  save_field b i j out =
    Some (out ++ written_field (field_delim b) (text_delim b) (text f)
          ++ (if j <? Z.of_nat (List.length r) - 1 then [byte (field_delim b)]
              else if i <? rows b - 1 then [byte NL] else [])).
Proof.
  intros Hb Hr Hf (Hlen & Hlt & Hch) Htd Hfd.
  destruct (buffer_ok_row _ _ _ Hb Hr) as (Hrow & Hw & Hmax).
  pose proof (load_lt _ _ _ Hf) as Hj. unfold INT_MAX in Hmax.
  pose proof Hb as (_ & Hlt61 & _).
  unfold save_field, cell. rewrite Hr. cbn [mbind option_bind].
  rewrite Hf, Hw. cbn [mbind option_bind].
  rewrite Hlen in *.
  rewrite !(wrap64_small (rows b - 1)) by lia.
  rewrite !(wrap64_small (Z.of_nat (List.length r) - 1)) by lia.
  rewrite !(wrap64_small (Z.of_nat (List.length (text f)) + 1 - 1)) by lia.
  replace (Z.to_nat (Z.of_nat (List.length (text f)) + 1 - 1))
    with (List.length (text f)) by lia.
  pose proof (fun out => save_quoted_ok (text_delim b) (text f) [] out) as Hq.
  cbn [app List.length] in Hq. change (Z.of_nat 0) with 0 in Hq.
  unfold written_field, quoted.
  destruct (strchr (text f) (text_delim b) || strchr (text f) (field_delim b)
            || strchr (text f) NL).
  - rewrite Hq. cbn [mbind option_bind].
    unfold fputc, byte. f_equal.
    destruct (_ <? _); [|destruct (_ <? _)]; by rewrite <- ?app_assoc.
  - cbn [mbind option_bind]. unfold fputs, fputc, byte.
    rewrite cstr_id by done. f_equal.
    destruct (_ <? _); [|destruct (_ <? _)];
      by rewrite <- ?app_assoc, ?app_nil_r.
Qed.

Lemma text_ok_field_of t : text_ok t -> field_ok (field_of t).
Proof.
  intros [Hch Hlen]. unfold INT_MAX in Hlen.
  split_and!; [done|simpl; lia|].
  eapply Forall_impl; [exact Hch|]. apply text_char_is_char.
Qed.

Lemma buffer_of_ok fd td c :
  table_ok c -> buffer_ok (buffer_of fd td c) /\ fields_ok (buffer_of fd td c).
Proof.
  intros [Hlen Hrows]. split.
  - split_and!; simpl; [by rewrite length_map|lia|].
    apply Forall2_fmap, Forall_Forall2_diag.
    eapply Forall_impl; [exact Hrows|].
    intros r [[? ?] _]. split; [by rewrite length_map|done].
  - unfold fields_ok; simpl. apply Forall_fmap.
    eapply Forall_impl; [exact Hrows|].
    intros r [_ Hr]. apply Forall_fmap.
    eapply Forall_impl; [exact Hr|]. apply text_ok_field_of.
Qed.

Lemma cells_buffer_of fd td c : cells (buffer_of fd td c) = c.
Proof.
  unfold cells; simpl. rewrite <- list_fmap_compose.
  rewrite <- (list_fmap_id c) at 2. apply list_fmap_ext.
  intros _ r _. simpl. rewrite <- list_fmap_compose.
  rewrite <- (list_fmap_id r) at 2. by apply list_fmap_ext.
Qed.

Lemma field_ok_eq f : field_ok f -> f = field_of (text f).
Proof. intros (Hlen & _ & _). destruct f; simpl in *. by rewrite Hlen. Qed.

Lemma buffer_of_cells b :
  buffer_ok b -> fields_ok b ->
  b = buffer_of (field_delim b) (text_delim b) (cells b).
Proof.
  intros (Hrows & Hlt & HF) Hfs. destruct b as [fs n ws fd td].
  unfold buffer_of, cells; simpl in *. f_equal.
  - rewrite <- list_fmap_compose.
    rewrite <- (list_fmap_id fs) at 1. apply list_fmap_ext.
    intros i r Hr. simpl. rewrite <- list_fmap_compose.
    rewrite <- (list_fmap_id r) at 1. apply list_fmap_ext.
    intros j f Hf. simpl. apply field_ok_eq.
    eapply Forall_lookup_1; [|exact Hf].
    eapply Forall_lookup_1; [exact Hfs|exact Hr].
  - by rewrite length_map.
  - rewrite <- list_fmap_compose. apply list_eq. intros i.
    rewrite list_lookup_fmap.
    destruct (fs !! i) as [r|] eqn:Hr; simpl.
    + destruct (Forall2_lookup_l _ _ _ _ _ HF Hr) as (w & -> & -> & _).
      f_equal. by rewrite length_map.
    + apply Forall2_length in HF.
      apply lookup_ge_None. apply lookup_ge_None in Hr. lia.
Qed.

Lemma delims_ok_nonzero fd td : delims_ok fd td -> fd <> 0 /\ td <> 0.
Proof. intros ((_ & ? & _) & (_ & ? & _) & _). done. Qed.

Lemma written_row_cons fd td t t2 ts :
  written_row fd td (t :: t2 :: ts)
  = written_field fd td t ++ byte fd :: written_row fd td (t2 :: ts).
Proof. reflexivity. Qed.

Lemma written_rows_cons fd td r r2 rs :
  written_rows fd td (r :: r2 :: rs)
  = written_row fd td r ++ byte NL :: written_rows fd td (r2 :: rs).
Proof. reflexivity. Qed.

Lemma save_fields_ok fd td c i r pre suf t out :
  table_ok c -> delims_ok fd td ->
  c !! i = Some r -> r = pre ++ t :: suf ->
  save_fields (S (List.length suf)) (buffer_of fd td c) (Z.of_nat i)
    (Z.of_nat (List.length pre)) out
  = Some (out ++ written_row fd td (t :: suf)
          ++ (if Z.of_nat i <? Z.of_nat (List.length c) - 1
              then [byte NL] else [])).
Proof.
  intros Hc Hd Hi. destruct (buffer_of_ok fd td c Hc) as [Hb Hfs].
  destruct (delims_ok_nonzero _ _ Hd) as [Hfd Htd].
  assert (Hr : load (field (buffer_of fd td c)) (Z.of_nat i)
               = Some (field_of <$> r)).
  { rewrite load_nat. simpl. by rewrite list_lookup_fmap, Hi. }
  revert pre t out. induction suf as [|t2 suf IH]; intros pre t out ->.
  - cbn [List.length save_fields].
    rewrite (save_field_ok _ _ _ _ _ (field_of t) Hb Hr); try done.
    + cbn [mbind option_bind field_delim text_delim buffer_of rows text field_of].
      rewrite length_fmap, length_app. cbn [List.length].
      destruct (Z.ltb_spec (Z.of_nat (List.length pre))
                  (Z.of_nat (List.length pre + 1) - 1)); [lia|].
      cbn [written_row]. rewrite (app_nil_r (written_field fd td t)). done.
    + rewrite load_nat, list_lookup_fmap, lookup_app_r, Nat.sub_diag by lia.
      done.
    + apply text_ok_field_of.
      destruct Hc as [_ Hc]. pose proof (Forall_lookup_1 _ _ _ _ Hc Hi) as [_ Hr'].
      apply Forall_app in Hr' as [_ Hr']. by inversion Hr'.
  - cbn [List.length]. change (save_fields (S (S (List.length suf))) ?b ?i ?j ?o)
      with (save_field b i j o ≫= save_fields (S (List.length suf)) b i (j + 1)).
    rewrite (save_field_ok _ _ _ _ _ (field_of t) Hb Hr); try done.
    + cbn [mbind option_bind field_delim text_delim buffer_of rows text field_of].
      rewrite length_fmap, length_app. cbn [List.length].
      destruct (Z.ltb_spec (Z.of_nat (List.length pre))
                  (Z.of_nat (List.length pre + S (S (List.length suf))) - 1));
        [|lia].
      replace (Z.of_nat (List.length pre) + 1)
        with (Z.of_nat (List.length (pre ++ [t])))
        by (rewrite length_app; simpl; lia).
      rewrite (IH (pre ++ [t]) t2) by (rewrite <- app_assoc; reflexivity).
      rewrite (written_row_cons fd td t t2 suf).
      rewrite <- !app_assoc. reflexivity.
    + rewrite load_nat, list_lookup_fmap, lookup_app_r, Nat.sub_diag by lia.
      done.
    + apply text_ok_field_of.
      destruct Hc as [_ Hc]. pose proof (Forall_lookup_1 _ _ _ _ Hc Hi) as [_ Hr'].
      apply Forall_app in Hr' as [_ Hr']. by inversion Hr'.
Qed.

Lemma save_rows_ok fd td c cpre csuf out :
  table_ok c -> delims_ok fd td -> c = cpre ++ csuf ->
  save_rows (List.length csuf) (buffer_of fd td c)
    (Z.of_nat (List.length cpre)) out
  = Some (out ++ written_rows fd td csuf).
Proof.
  intros Hc Hd. revert cpre out.
  induction csuf as [|r csuf IH]; intros cpre out Heq.
  - simpl. by rewrite app_nil_r.
  - cbn [List.length save_rows].
    assert (Hi : c !! List.length cpre = Some r).
    { subst c. by rewrite lookup_app_r, Nat.sub_diag by lia. }
    rewrite load_nat. cbn [width buffer_of]. rewrite list_lookup_fmap, Hi.
    cbn [fmap option_fmap option_map mbind option_bind].
    rewrite Nat2Z.id.
    destruct Hc as [Hlen Hrows].
    pose proof (Forall_lookup_1 _ _ _ _ Hrows Hi) as [[Hr1 _] _].
    destruct r as [|t r]; [simpl in Hr1; lia|].
    cbn [List.length].
    rewrite (save_fields_ok fd td c (List.length cpre) (t :: r) [] r t);
      try done.
    cbn [mbind option_bind].
    replace (Z.of_nat (List.length cpre) + 1)
      with (Z.of_nat (List.length (cpre ++ [t :: r])))
      by (rewrite length_app; simpl; lia).
    rewrite IH by (subst c; rewrite <- app_assoc; reflexivity).
    f_equal. rewrite <- !app_assoc. f_equal.
    subst c. rewrite !length_app. cbn [List.length].
    destruct csuf as [|r2 csuf]; cbn [List.length];
      match goal with |- context [?x <? ?y] => destruct (Z.ltb_spec x y) end;
      try lia.
    + cbn [written_rows]. by rewrite !app_nil_r.
    + rewrite written_rows_cons. reflexivity.
Qed.

Lemma csv_save_ok fd td c :
  table_ok c -> delims_ok fd td ->
  csv_save true (buffer_of fd td c) = Some (0, written_rows fd td c).
Proof.
  intros Hc Hd. unfold csv_save. cbn [negb rows buffer_of].
  rewrite Nat2Z.id.
  pose proof (save_rows_ok fd td c [] c [] Hc Hd eq_refl) as H.
  cbn [List.length app] in H. change (Z.of_nat 0) with 0 in H.
  by rewrite H.
Qed.

(** ** The tokenizer on what [csv_save] writes *)

Lemma add_char_snoc s ch :
  add_char (s ++ [0]) (List.length s) ch = ((s ++ [ch]) ++ [0], S (List.length s)).
Proof.
  unfold add_char. f_equal.
  rewrite resize_ge by (rewrite length_app; simpl; lia).
  rewrite length_app. cbn [List.length].
  replace (S (S (List.length s)) - (List.length s + 1))%nat with 1%nat by lia.
  cbn [replicate]. rewrite <- !app_assoc. cbn [app].
  rewrite insert_app_r_alt, Nat.sub_diag by lia. cbn [insert list_insert].
  rewrite insert_app_r_alt by lia.
  replace (S (List.length s) - List.length s)%nat with 1%nat by lia.
  done.
Qed.

Lemma to_char_text_char c : text_char c -> to_char (byte c) = c.
Proof. intros (? & _). by apply to_char_byte. Qed.

Lemma read_text_cons x fp fd td in_text esc tmp c :
  read_text (x :: fp) fd td in_text esc tmp c =
    let ch := to_char x in
    if ch =? EOF then (ch, tmp, fp)
    else if negb in_text then
      if ch =? td then read_text fp fd td true esc tmp 0
      else if ch =? fd then (ch, tmp, fp)
      else if ch =? NL then (ch, tmp, fp)
      else
        let '(tmp', c') := add_char tmp c ch in
        read_text fp fd td in_text esc tmp' c'
    else if esc then
      if ch =? td then
        let '(tmp', c') := add_char tmp c ch in
        read_text fp fd td in_text false tmp' c'
      else (ch, tmp, fp)
    else
      if ch =? td then read_text fp fd td in_text true tmp c
      else
        let '(tmp', c') := add_char tmp c ch in
        read_text fp fd td in_text esc tmp' c'.
Proof. reflexivity. Qed.

Lemma read_text_plain fd td t s tail :
  Forall (fun c => text_char c /\ c <> td /\ c <> fd /\ c <> NL) t ->
  read_text (map byte t ++ tail) fd td false false (s ++ [0]) (List.length s)
  = read_text tail fd td false false ((s ++ t) ++ [0]) (List.length (s ++ t)).
Proof.
  intros Ht. revert s.
  induction Ht as [|ch t (Hc & Htd & Hfd & Hnl) _ IH]; intros s.
  - by rewrite app_nil_r.
  - cbn [map app]. rewrite read_text_cons. cbv zeta.
    rewrite to_char_text_char by done. destruct Hc as (_ & _ & He).
    destruct (Z.eqb_spec ch EOF); [done|].
    destruct (Z.eqb_spec ch td); [done|].
    destruct (Z.eqb_spec ch fd); [done|].
    destruct (Z.eqb_spec ch NL); [done|].
    cbn [negb]. rewrite add_char_snoc.
    replace (S (List.length s)) with (List.length (s ++ [ch]))
      by (rewrite length_app; simpl; lia).
    rewrite IH. by rewrite <- !(app_assoc s [ch] t).
Qed.

Lemma read_text_escaped fd td t s tail :
  text_char td -> Forall text_char t ->
  read_text (escape td t ++ tail) fd td true false (s ++ [0]) (List.length s)
  = read_text tail fd td true false ((s ++ t) ++ [0]) (List.length (s ++ t)).
Proof.
  intros Hd Ht. revert s.
  induction Ht as [|ch t Hc _ IH]; intros s.
  - by rewrite app_nil_r.
  - unfold escape. cbn [flat_map]. fold (escape td t).
    destruct (Z.eqb_spec ch td) as [->|Hne].
    + cbn [app]. rewrite read_text_cons. cbv zeta.
      rewrite to_char_text_char by done.
      destruct Hd as (Hd1 & Hd2 & Hd3).
      destruct (Z.eqb_spec td EOF); [done|].
      rewrite Z.eqb_refl. cbn [negb].
      rewrite read_text_cons. cbv zeta.
      rewrite to_char_text_char by done.
      destruct (Z.eqb_spec td EOF); [done|].
      rewrite Z.eqb_refl. cbn [negb].
      rewrite add_char_snoc.
      replace (S (List.length s)) with (List.length (s ++ [td]))
        by (rewrite length_app; simpl; lia).
      rewrite IH. by rewrite <- !(app_assoc s [td] t).
    + cbn [app]. rewrite read_text_cons. cbv zeta.
      rewrite to_char_text_char by done.
      destruct Hc as (Hc1 & Hc2 & Hc3).
      destruct (Z.eqb_spec ch EOF); [done|].
      destruct (Z.eqb_spec ch td); [done|].
      cbn [negb]. rewrite add_char_snoc.
      replace (S (List.length s)) with (List.length (s ++ [ch]))
        by (rewrite length_app; simpl; lia).
      rewrite IH. by rewrite <- !(app_assoc s [ch] t).
Qed.

Lemma quoted_false fd td t :
  fd <> 0 -> td <> 0 -> Forall text_char t -> quoted fd td t = false ->
  Forall (fun c => text_char c /\ c <> td /\ c <> fd /\ c <> NL) t.
Proof.
  intros Hfd Htd Ht. unfold quoted.
  assert (Hnz : Forall (fun ch => ch <> 0) t).
  { eapply Forall_impl; [exact Ht|]. by intros c (_ & ? & _). }
  rewrite !strchr_existsb by done.
  intros H. apply orb_false_iff in H as [H Hnl].
  apply orb_false_iff in H as [H1 H2].
  apply Forall_forall. intros c Hin.
  split; [by eapply Forall_forall in Ht|].
  pose proof (proj1 (list_elem_of_In _ _) Hin) as Hin'.
  split_and!; intros ->.
  - assert (existsb (Z.eqb td) t = true); [|congruence].
    apply existsb_exists. exists td. by rewrite Z.eqb_refl.
  - assert (existsb (Z.eqb fd) t = true); [|congruence].
    apply existsb_exists. exists fd. by rewrite Z.eqb_refl.
  - assert (existsb (Z.eqb NL) t = true); [|congruence].
    apply existsb_exists. exists NL. by rewrite Z.eqb_refl.
Qed.

Lemma read_text_written fd td t tail :
  delims_ok fd td -> Forall text_char t -> after_field fd tail ->
  read_text (written_field fd td t ++ tail) fd td false false [0] 0
  = (last_char tail, t ++ [0], List.tl tail).
Proof.
  intros Hd Ht Htail. pose proof Hd as (Hfd & Htd & Hfn & Htn & Hne).
  destruct (delims_ok_nonzero _ _ Hd) as [Hfd0 Htd0].
  assert (Hx : forall x, x = byte fd \/ x = byte NL ->
               to_char x <> EOF /\ to_char x <> td /\
               (to_char x = fd \/ to_char x = NL)).
  { intros x [->| ->].
    - rewrite to_char_text_char by done. destruct Hfd as (_ & _ & ?). auto.
    - change (to_char (byte NL)) with NL. split_and!; [done|congruence|auto]. }
  unfold written_field. destruct (quoted fd td t) eqn:Hq.
  - cbn [app]. rewrite read_text_cons. cbv zeta.
    rewrite to_char_text_char by done.
    destruct Htd as (Ht1 & Ht2 & Ht3).
    destruct (Z.eqb_spec td EOF); [done|]. rewrite Z.eqb_refl. cbn [negb].
    rewrite <- app_assoc.
    rewrite (read_text_escaped fd td t []) by done.
    cbn [app]. rewrite read_text_cons. cbv zeta.
    rewrite to_char_text_char by done.
    destruct (Z.eqb_spec td EOF); [done|]. rewrite Z.eqb_refl. cbn [negb].
    destruct tail as [|x rest]; [done|].
    rewrite read_text_cons. cbv zeta.
    destruct (Hx x Htail) as (He & Hxt & _).
    destruct (Z.eqb_spec (to_char x) EOF); [done|].
    destruct (Z.eqb_spec (to_char x) td); [done|]. done.
  - rewrite (read_text_plain fd td t []) by (by apply quoted_false).
    cbn [app]. destruct tail as [|x rest]; [done|].
    rewrite read_text_cons. cbv zeta.
    destruct (Hx x Htail) as (He & Hxt & Hxf).
    destruct (Z.eqb_spec (to_char x) EOF); [done|].
    destruct (Z.eqb_spec (to_char x) td); [done|]. cbn [negb].
    destruct (Z.eqb_spec (to_char x) fd); [done|].
    destruct (Z.eqb_spec (to_char x) NL); [done|]. by destruct Hxf.
Qed.

Lemma cstr_app_nul t : Forall (fun c => c <> 0) t -> cstr (t ++ [0]) = t.
Proof.
  induction 1 as [|c t Hc _ IH]; [done|]. cbn [app cstr].
  destruct (Z.eqb_spec c 0); [done|]. by rewrite IH.
Qed.

Lemma set_field_written f t : text_ok t -> set_field f (t ++ [0]) = field_of t.
Proof.
  intros [Hch Hlen]. unfold INT_MAX in Hlen.
  unfold set_field, field_of, strlen.
  rewrite cstr_app_nul.
  - by rewrite wrap64_small by lia.
  - eapply Forall_impl; [exact Hch|]. by intros c (_ & ? & _).
Qed.

Lemma read_next_field_last fd td t f :
  delims_ok fd td -> text_ok t ->
  read_next_field (written_field fd td t) fd td f = (2, field_of t, []).
Proof.
  intros Hd Ht. unfold read_next_field.
  rewrite <- (app_nil_r (written_field fd td t)).
  rewrite read_text_written by (done || apply Ht).
  cbn [last_char List.tl]. rewrite scan_terminator_eof.
  - by rewrite set_field_written.
  - destruct Hd as ((_ & _ & ?) & _). done.
Qed.

Lemma read_next_field_delim fd td t rest f :
  delims_ok fd td -> text_ok t ->
  read_next_field (written_field fd td t ++ byte fd :: rest) fd td f
  = (0, field_of t, rest).
Proof.
  intros Hd Ht. unfold read_next_field.
  rewrite read_text_written by (done || apply Ht || by left).
  cbn [last_char List.tl]. destruct Hd as (Hfd & _).
  rewrite to_char_text_char by done.
  rewrite scan_terminator_delim. by rewrite set_field_written.
Qed.

Lemma read_next_field_newline_more fd td t y rest f :
  delims_ok fd td -> text_ok t -> to_char y <> EOF ->
  read_next_field (written_field fd td t ++ byte NL :: y :: rest) fd td f
  = (1, field_of t, y :: rest).
Proof.
  intros Hd Ht Hy. unfold read_next_field.
  rewrite read_text_written by (done || apply Ht || by right).
  cbn [last_char List.tl]. change (to_char (byte NL)) with NL.
  rewrite scan_terminator_newline.
  - by rewrite set_field_written.
  - by destruct Hd as (_ & _ & ? & _).
  - done.
Qed.

(** ** The loader on the buffer of a table *)

Lemma insert_middle {A} (l1 l2 : list A) n x y :
  n = List.length l1 -> <[n := x]> (l1 ++ y :: l2) = l1 ++ x :: l2.
Proof. intros ->. by rewrite insert_app_r_alt, Nat.sub_diag by lia. Qed.

Lemma lookup_middle {A} (l1 l2 : list A) n y :
  n = List.length l1 -> (l1 ++ y :: l2) !! n = Some y.
Proof. intros ->. by rewrite list_lookup_middle. Qed.

Lemma buffer_of_sized fd td c : sized c -> buffer_ok (buffer_of fd td c).
Proof.
  intros [Hlen Hrows]. split_and!; simpl; [by rewrite length_map|done|].
  apply Forall2_fmap, Forall_Forall2_diag.
  eapply Forall_impl; [exact Hrows|].
  intros r ?. split; [by rewrite length_map|done].
Qed.

Lemma buffer_of_snoc_row fd td c :
  appended_row (buffer_of fd td c) = buffer_of fd td (c ++ [[[]]]).
Proof.
  unfold appended_row, buffer_of; simpl.
  rewrite !map_app, length_app. simpl. f_equal. lia.
Qed.

Lemma append_row_of fd td c :
  sized (c ++ [[[]]]) ->
  append_row [] (buffer_of fd td c) = Some (0, buffer_of fd td (c ++ [[[]]]), []).
Proof.
  intros [Hlen Hrows]. rewrite length_app in Hlen. simpl in Hlen.
  apply Forall_app in Hrows as [Hrows _].
  rewrite append_row_ok by (apply buffer_of_sized; split; [lia|done]).
  cbn [rows buffer_of].
  destruct (Z.ltb_spec (Z.of_nat (List.length c) + 1) (2 ^ 61)); [|lia].
  by rewrite buffer_of_snoc_row.
Qed.

Lemma sized_prefix_row c r r' :
  sized (c ++ [r']) -> (List.length r <= List.length r')%nat -> sized (c ++ [r]).
Proof.
  intros [Hlen Hrows] Hle. split.
  { rewrite length_app in Hlen. rewrite length_app. simpl in *. lia. }
  apply Forall_app in Hrows as [Hrows Hr]. apply Forall_app. split; [done|].
  inversion Hr; subst. repeat constructor. lia.
Qed.

Lemma buffer_of_snoc_field fd td c r :
  appended_field (buffer_of fd td (c ++ [r])) (Z.of_nat (List.length c))
    (field_of <$> r)
  = buffer_of fd td (c ++ [r ++ [[]]]).
Proof.
  unfold appended_field, buffer_of, with_width, with_field; simpl.
  rewrite Nat2Z.id, !map_app, !length_app. simpl.
  rewrite !insert_middle by (by rewrite length_map).
  rewrite length_fmap, map_app, length_app. simpl.
  do 3 f_equal. lia.
Qed.

Lemma load_field_of_last fd td c r :
  load (field (buffer_of fd td (c ++ [r]))) (Z.of_nat (List.length c))
  = Some (field_of <$> r).
Proof.
  rewrite load_nat. simpl. rewrite map_app. simpl.
  by rewrite lookup_middle by (by rewrite length_map).
Qed.

Lemma append_field_of fd td c r :
  sized (c ++ [r ++ [[]]]) ->
  append_field [] (buffer_of fd td (c ++ [r])) (wrap64 (Z.of_nat (List.length c)))
  = Some (0, buffer_of fd td (c ++ [r ++ [[]]]), []).
Proof.
  intros Hs. pose proof Hs as [Hlen Hrows].
  rewrite length_app in Hlen. simpl in Hlen.
  rewrite wrap64_small by lia.
  assert (Hs' : sized (c ++ [r])).
  { eapply sized_prefix_row; [exact Hs|]. rewrite length_app. lia. }
  rewrite (append_field_ok _ _ (field_of <$> r));
    [|by apply buffer_of_sized|by apply load_field_of_last].
  rewrite length_fmap.
  apply Forall_app in Hrows as [_ Hr]. inversion Hr as [|? ? Hmax _]; subst.
  rewrite length_app in Hmax. simpl in Hmax.
  destruct (Z.leb_spec (Z.of_nat (List.length r) + 1) INT_MAX); [|lia].
  by rewrite buffer_of_snoc_field.
Qed.

Lemma cell_of_last fd td c r x :
  cell (buffer_of fd td (c ++ [r ++ [x]])) (Z.of_nat (List.length c))
    (Z.of_nat (List.length r) + 1 - 1)
  = Some (field_of x).
Proof.
  unfold cell. rewrite load_field_of_last. cbn [mbind option_bind].
  replace (Z.of_nat (List.length r) + 1 - 1) with (Z.of_nat (List.length r)) by lia.
  rewrite load_nat, fmap_app. simpl.
  by rewrite lookup_middle by (by rewrite length_fmap).
Qed.

Lemma set_cell_of_last fd td c r x t :
  set_cell (buffer_of fd td (c ++ [r ++ [x]])) (Z.of_nat (List.length c))
    (Z.of_nat (List.length r) + 1 - 1) (field_of t)
  = Some (buffer_of fd td (c ++ [r ++ [t]])).
Proof.
  unfold set_cell. rewrite load_field_of_last. cbn [mbind option_bind].
  replace (Z.of_nat (List.length r) + 1 - 1) with (Z.of_nat (List.length r)) by lia.
  rewrite store_nat by (rewrite length_fmap, length_app; simpl; lia).
  cbn [mbind option_bind].
  rewrite store_nat by (simpl; rewrite length_map, length_app; simpl; lia).
  cbn [mbind option_bind]. f_equal.
  unfold with_field, buffer_of; simpl.
  rewrite !map_app, !length_app. simpl.
  rewrite insert_middle by (by rewrite length_map).
  rewrite fmap_app. simpl.
  rewrite insert_middle by (by rewrite length_fmap).
  by rewrite !length_app.
Qed.

Lemma load_step_last fd td c r t fuel :
  delims_ok fd td -> text_ok t ->
  load_loop (S fuel) false [] (buffer_of fd td (c ++ [r ++ [[]]]))
    (written_field fd td t) (Z.of_nat (List.length c))
    (Z.of_nat (List.length r) + 1)
  = Some {| code := 0; buffer := buffer_of fd td (c ++ [r ++ [t]]);
            stream_open := false |}.
Proof.
  intros Hd Ht. rewrite load_loop_S.
  rewrite cell_of_last. cbn [mbind option_bind field_delim text_delim buffer_of].
  rewrite read_next_field_last by done.
  rewrite set_cell_of_last. done.
Qed.

Lemma load_step_delim fd td c r t rest fuel :
  delims_ok fd td -> text_ok t -> sized (c ++ [(r ++ [t]) ++ [[]]]) ->
  load_loop (S fuel) false [] (buffer_of fd td (c ++ [r ++ [[]]]))
    (written_field fd td t ++ byte fd :: rest) (Z.of_nat (List.length c))
    (Z.of_nat (List.length r) + 1)
  = load_loop fuel false [] (buffer_of fd td (c ++ [(r ++ [t]) ++ [[]]]))
      rest (Z.of_nat (List.length c)) (Z.of_nat (List.length (r ++ [t])) + 1).
Proof.
  intros Hd Ht Hs. rewrite load_loop_S.
  rewrite cell_of_last. cbn [mbind option_bind field_delim text_delim buffer_of].
  rewrite read_next_field_delim by done.
  rewrite set_cell_of_last. cbn [mbind option_bind].
  change (0 =? 2) with false. change (0 =? 1) with false. cbv iota.
  rewrite append_field_of by done. cbn [mbind option_bind].
  change (negb (0 =? 0)) with false. cbv iota.
  rewrite length_app. cbn [List.length].
  by replace (Z.of_nat (List.length r + 1) + 1)
    with (Z.of_nat (List.length r) + 1 + 1) by lia.
Qed.

Lemma load_step_newline fd td c r t y rest fuel :
  delims_ok fd td -> text_ok t -> sized ((c ++ [r ++ [t]]) ++ [[[]]]) ->
  to_char y <> EOF ->
  load_loop (S fuel) false [] (buffer_of fd td (c ++ [r ++ [[]]]))
    (written_field fd td t ++ byte NL :: y :: rest) (Z.of_nat (List.length c))
    (Z.of_nat (List.length r) + 1)
  = load_loop fuel false [] (buffer_of fd td ((c ++ [r ++ [t]]) ++ [[] ++ [[]]]))
      (y :: rest) (Z.of_nat (List.length (c ++ [r ++ [t]])))
      (Z.of_nat (List.length (@nil (list Z))) + 1).
Proof.
  intros Hd Ht Hs Hy. rewrite load_loop_S.
  rewrite cell_of_last. cbn [mbind option_bind field_delim text_delim buffer_of].
  rewrite read_next_field_newline_more by done.
  rewrite set_cell_of_last. cbn [mbind option_bind].
  change (1 =? 2) with false. change (1 =? 1) with true. cbv iota.
  rewrite append_row_of by done. cbn [mbind option_bind].
  change (negb (0 =? 0)) with false. cbv iota.
  rewrite length_app. cbn [List.length app].
  by replace (Z.of_nat (List.length c + 1)) with (Z.of_nat (List.length c) + 1)
    by lia.
Qed.

Lemma written_rows_head fd td rs :
  delims_ok fd td -> Forall table_row_ok rs -> rs <> [] -> rs <> [[[]]] ->
  exists y rest, written_rows fd td rs = y :: rest /\ to_char y <> EOF.
Proof.
  intros (Hfd & Htd & Hfn & Htn & Hne) Hrs Hnil Hlast.
  destruct rs as [|r1 rs]; [done|].
  inversion Hrs as [|? ? [[Hlen _] Hts] _]; subst.
  destruct r1 as [|t1 ts1]; [simpl in Hlen; lia|].
  inversion Hts as [|? ? [Ht1 _] _]; subst.
  assert (Hfd' : to_char (byte fd) <> EOF).
  { rewrite to_char_text_char by done. by destruct Hfd as (_ & _ & ?). }
  assert (Htd' : to_char (byte td) <> EOF).
  { rewrite to_char_text_char by done. by destruct Htd as (_ & _ & ?). }
  cbn [written_rows written_row]. unfold written_field.
  destruct (quoted fd td t1).
  { cbn [app]. eauto. }
  destruct t1 as [|ch t1].
  - cbn [map app]. destruct ts1 as [|t2 ts1].
    + destruct rs as [|r2 rs]; [done|]. cbn [app]. exists (byte NL). eauto.
    + cbn [app]. eauto.
  - cbn [map app]. do 2 eexists. split; [done|].
    inversion Ht1 as [|? ? Hc _]; subst.
    rewrite to_char_text_char by done. by destruct Hc as (_ & _ & ?).
Qed.

Lemma table_ok_sized c : table_ok c -> sized c.
Proof.
  intros [Hlen Hrows]. split; [lia|].
  eapply Forall_impl; [exact Hrows|]. by intros r [[_ ?] _].
Qed.

Lemma snoc_app {A} (r : list A) t ts : (r ++ [t]) ++ ts = r ++ t :: ts.
Proof. by rewrite <- app_assoc. Qed.

Lemma table_ok_current c r t ts rs :
  table_ok (c ++ (r ++ t :: ts) :: rs) ->
  text_ok t /\ Forall table_row_ok rs
  /\ (ts <> [] -> sized (c ++ [(r ++ [t]) ++ [[]]]))
  /\ (rs <> [] -> sized ((c ++ [r ++ [t]]) ++ [[[]]])).
Proof.
  intros [Hlen Hrows]. rewrite length_app in Hlen. cbn [List.length] in Hlen.
  apply Forall_app in Hrows as [Hc Hrows].
  inversion Hrows as [|? ? [[_ Hmax] Hr] Hrs]; subst.
  rewrite length_app in Hmax. cbn [List.length] in Hmax.
  assert (Hc' : Forall (fun r => Z.of_nat (List.length r) <= INT_MAX) c).
  { eapply Forall_impl; [exact Hc|]. by intros ? [[_ ?] _]. }
  split_and!.
  - apply Forall_app in Hr as [_ Hr]. by inversion Hr.
  - done.
  - intros Hts. destruct ts as [|t2 ts]; [done|]. cbn [List.length] in Hmax.
    split; [rewrite length_app; cbn [List.length]; lia|].
    apply Forall_app. split; [done|]. repeat constructor.
    rewrite !length_app. cbn [List.length]. lia.
  - intros Hrs'. destruct rs as [|r1 rs]; [done|]. cbn [List.length] in Hlen.
    split; [rewrite !length_app; cbn [List.length]; lia|].
    apply Forall_app. split; [apply Forall_app; split; [done|]|].
    + repeat constructor. rewrite length_app. cbn [List.length]. lia.
    + repeat constructor. by unfold INT_MAX.
Qed.

Lemma read_next_field_final_newline fd td t f :
  delims_ok fd td -> text_ok t ->
  read_next_field (written_field fd td t ++ [byte NL]) fd td f
  = (2, field_of t, []).
Proof.
  intros Hd Ht. unfold read_next_field.
  rewrite read_text_written by (done || apply Ht || by right).
  cbn [last_char List.tl]. change (to_char (byte NL)) with NL.
  rewrite scan_terminator_final_newline.
  - by rewrite set_field_written.
  - by destruct Hd as (_ & _ & ? & _).
Qed.

Lemma load_step_last_newline fd td c r t fuel :
  delims_ok fd td -> text_ok t ->
  load_loop (S fuel) false [] (buffer_of fd td (c ++ [r ++ [[]]]))
    (written_field fd td t ++ [byte NL]) (Z.of_nat (List.length c))
    (Z.of_nat (List.length r) + 1)
  = Some {| code := 0; buffer := buffer_of fd td (c ++ [r ++ [t]]);
            stream_open := false |}.
Proof.
  intros Hd Ht. rewrite load_loop_S.
  rewrite cell_of_last. cbn [mbind option_bind field_delim text_delim buffer_of].
  rewrite read_next_field_final_newline by done.
  rewrite set_cell_of_last. done.
Qed.

Lemma written_rows_field fd td t t2 ts rs final :
  written_rows fd td ((t :: t2 :: ts) :: rs) ++ final
  = written_field fd td t
    ++ byte fd :: (written_rows fd td ((t2 :: ts) :: rs) ++ final).
Proof.
  destruct rs as [|r1 rs].
  - cbn [written_rows]. rewrite !app_nil_r, written_row_cons.
    by rewrite <- app_assoc.
  - rewrite !written_rows_cons, written_row_cons.
    by rewrite <- !app_assoc.
Qed.

Lemma written_rows_row fd td t r1 rs final :
  written_rows fd td ([t] :: r1 :: rs) ++ final
  = written_field fd td t
    ++ byte NL :: (written_rows fd td (r1 :: rs) ++ final).
Proof.
  rewrite written_rows_cons. cbn [written_row].
  rewrite app_nil_r. by rewrite <- app_assoc.
Qed.

Lemma written_rows_last fd td t final :
  written_rows fd td [[t]] ++ final = written_field fd td t ++ final.
Proof. cbn [written_rows written_row]. by rewrite !app_nil_r. Qed.

(** Loading the rest of a written table: [c] holds the rows read so far,
    [r] the fields of the current row read so far; the field [t], the
    fields [ts] and the rows [rs] are still in the stream, followed by
    [final]: nothing, or one newline. *)
Lemma load_written fd td final rs :
  forall ts t c r fuel,
    delims_ok fd td ->
    final = [] \/ final = [byte NL] ->
    table_ok (c ++ (r ++ t :: ts) :: rs) ->
    last_row_written (c ++ (r ++ t :: ts) :: rs) ->
    (List.length (written_rows fd td ((t :: ts) :: rs) ++ final) < fuel)%nat ->
    load_loop fuel false [] (buffer_of fd td (c ++ [r ++ [[]]]))
      (written_rows fd td ((t :: ts) :: rs) ++ final)
      (Z.of_nat (List.length c)) (Z.of_nat (List.length r) + 1)
    = Some {| code := 0; buffer := buffer_of fd td (c ++ (r ++ t :: ts) :: rs);
              stream_open := false |}.
Proof.
  assert (Hstep : forall rs ts t2,
    (forall t c r fuel,
      delims_ok fd td -> final = [] \/ final = [byte NL] ->
      table_ok (c ++ (r ++ t :: ts) :: rs) ->
      last_row_written (c ++ (r ++ t :: ts) :: rs) ->
      (List.length (written_rows fd td ((t :: ts) :: rs) ++ final) < fuel)%nat ->
      load_loop fuel false [] (buffer_of fd td (c ++ [r ++ [[]]]))
        (written_rows fd td ((t :: ts) :: rs) ++ final)
        (Z.of_nat (List.length c)) (Z.of_nat (List.length r) + 1)
      = Some {| code := 0;
                buffer := buffer_of fd td (c ++ (r ++ t :: ts) :: rs);
                stream_open := false |}) ->
    forall t c r fuel,
      delims_ok fd td -> final = [] \/ final = [byte NL] ->
      table_ok (c ++ (r ++ t :: t2 :: ts) :: rs) ->
      last_row_written (c ++ (r ++ t :: t2 :: ts) :: rs) ->
      (List.length (written_rows fd td ((t :: t2 :: ts) :: rs) ++ final)
       < fuel)%nat ->
      load_loop fuel false [] (buffer_of fd td (c ++ [r ++ [[]]]))
        (written_rows fd td ((t :: t2 :: ts) :: rs) ++ final)
        (Z.of_nat (List.length c)) (Z.of_nat (List.length r) + 1)
      = Some {| code := 0;
                buffer := buffer_of fd td (c ++ (r ++ t :: t2 :: ts) :: rs);
                stream_open := false |}).
  { (* a field followed by another of its row *)
    intros rs0 ts t2 IHts t c r fuel Hd Hfin Hok Hlast Hfuel.
    destruct fuel as [|fuel]; [lia|].
    destruct (table_ok_current _ _ _ _ _ Hok) as (Ht & Hrs & Hsf & Hsr).
    rewrite written_rows_field in Hfuel |- *.
    rewrite load_step_delim; [|done|done|by apply Hsf].
    pose proof (IHts t2 c (r ++ [t]) fuel Hd Hfin) as IH.
    rewrite snoc_app in IH. apply IH; [done|done|].
    rewrite length_app in Hfuel. cbn [List.length] in Hfuel. lia. }
  induction rs as [|r1 rs IHrs]; intros ts; induction ts as [|t2 ts IHts];
    try (by apply Hstep);
    intros t c r fuel Hd Hfin Hok Hlast Hfuel;
    (destruct fuel as [|fuel]; [lia|]);
    destruct (table_ok_current _ _ _ _ _ Hok) as (Ht & Hrs & Hsf & Hsr).
  - (* the last field of the last row *)
    rewrite written_rows_last.
    destruct Hfin as [-> | ->].
    + rewrite app_nil_r. by rewrite load_step_last.
    + by rewrite load_step_last_newline.
  - (* the last field of a row that is not the last *)
    rewrite written_rows_row in Hfuel |- *.
    destruct (written_rows_head fd td (r1 :: rs)) as (y & rest & Hy & Hye);
      [done|done|done| |].
    { intros Heq. apply (Hlast (c ++ [r ++ [t]])).
      - by destruct c.
      - rewrite Heq. by rewrite <- app_assoc. }
    assert (Hy' : written_rows fd td (r1 :: rs) ++ final = y :: (rest ++ final))
      by (by rewrite Hy).
    rewrite Hy' in Hfuel |- *.
    rewrite load_step_newline; [|done|done|by apply Hsr|done].
    rewrite <- Hy' in Hfuel |- *.
    inversion Hrs as [|? ? [[Hr1 _] _] _]; subst.
    destruct r1 as [|t1 ts1]; [simpl in Hr1; lia|].
    pose proof (IHrs ts1 t1 (c ++ [r ++ [t]]) [] fuel Hd Hfin) as IH.
    rewrite snoc_app in IH. cbn [app] in IH.
    apply IH; [done|done|].
    rewrite length_app in Hfuel. cbn [List.length] in Hfuel. lia.
Qed.

(** ** Round trip *)

Lemma table_ok_cells b :
  buffer_ok b -> fields_ok b -> no_eof_char b -> width_inv b ->
  int_sized b ->
  table_ok (cells b).
Proof.
  intros Hb Hfs Hne Hinv [Hr31 Hshort].
  apply (width_inv_Forall _ Hb) in Hinv.
  destruct Hb as (Hrows & Hlt & HF).
  split; [unfold cells; rewrite length_map; lia|].
  unfold cells. apply Forall_fmap. apply Forall_lookup_2. intros i r Hr.
  destruct (Forall2_lookup_l _ _ _ _ _ HF Hr) as (w & Hw & -> & Hmax).
  pose proof (Forall_lookup_1 _ _ _ _ Hinv Hw) as H1. simpl in H1.
  pose proof (Forall_lookup_1 _ _ _ _ Hfs Hr) as Hfr.
  pose proof (Forall_lookup_1 _ _ _ _ Hne Hr) as Hnr.
  simpl. split; [rewrite length_map; lia|].
  apply Forall_fmap. apply Forall_lookup_2. intros j f Hf.
  pose proof (Forall_lookup_1 _ _ _ _ Hfr Hf) as (Hlen & Hlt64 & Hch).
  pose proof (Forall_lookup_1 _ _ _ _ Hnr Hf) as Hnf.
  pose proof (Forall_lookup_1 _ _ _ _
                (Forall_lookup_1 _ _ _ _ Hshort Hr) Hf) as Hfit.
  simpl in Hfit.
  simpl. split; [|lia].
  apply Forall_lookup_2. intros k c Hc.
  pose proof (Forall_lookup_1 _ _ _ _ Hch Hc) as [? ?].
  pose proof (Forall_lookup_1 _ _ _ _ Hnf Hc) as He. simpl in He.
  unfold text_char. split_and!; [lia|lia|done|done].
Qed.

Lemma load_written_table fd td final c :
  table_ok c -> c <> [] -> delims_ok fd td -> last_row_written c ->
  final = [] \/ final = [byte NL] ->
  csv_load [] (buffer_of fd td []) (Some (written_rows fd td c ++ final))
  = Some {| code := 0; buffer := buffer_of fd td c; stream_open := false |}.
Proof.
  intros Hok Hne Hd Hlast Hfin.
  destruct c as [|r rs]; [done|].
  destruct r as [|t ts].
  { destruct Hok as [_ Hok]. inversion Hok as [|? ? [[H1 _] _] _]; subst.
    simpl in H1. lia. }
  unfold csv_load. rewrite load_loop_S. cbn [mbind option_bind].
  change (1 =? 2) with false. change (1 =? 1) with true. cbv iota.
  rewrite (append_row_of fd td []).
  2:{ split; [done|]. repeat constructor. by unfold INT_MAX. }
  cbn [mbind option_bind]. change (negb (0 =? 0)) with false. cbv iota.
  apply (load_written fd td final rs ts t [] []); try done. lia.
Qed.

Lemma round_trip_table fd td c :
  table_ok c -> c <> [] -> delims_ok fd td -> last_row_written c ->
  csv_save true (buffer_of fd td c) = Some (0, written_rows fd td c)
  /\ csv_load [] (buffer_of fd td []) (Some (written_rows fd td c))
     = Some {| code := 0; buffer := buffer_of fd td c; stream_open := false |}.
Proof.
  intros Hok Hne Hd Hlast. split; [by apply csv_save_ok|].
  rewrite <- (app_nil_r (written_rows fd td c)).
  apply load_written_table; auto.
Qed.

(** C1, amended.  Round trip: a well-formed buffer with at least one row,
    rows of at least one field, characters and delimiters that the
    tokenizer can read back, sizes that the [int] counters of the loader
    hold (at most 2^31 rows, fields of fewer than 2^31 - 1 characters),
    and no lone empty field as the last of several rows, is saved, and
    loading what was saved into a fresh buffer with its delimiters gives
    the buffer back: the same rows, widths and fields. *)
Theorem csv_save_load_round_trip (b : CSV_BUFFER) :
  buffer_ok b -> fields_ok b -> no_eof_char b -> width_inv b ->
  int_sized b ->
  1 <= rows b ->
  delims_ok (field_delim b) (text_delim b) ->
  last_row_written (cells b) ->
  exists out,
    csv_save true b = Some (0, out)
    /\ csv_load [] (fresh_like b) (Some out)
       = Some {| code := 0; buffer := b; stream_open := false |}.
Proof.
  intros Hb Hfs Hne Hinv Hint Hrows Hd Hlast.
  pose proof (table_ok_cells _ Hb Hfs Hne Hinv Hint) as Hok.
  pose proof (buffer_of_cells b Hb Hfs) as E.
  assert (Hc : cells b <> []).
  { intros Hc. destruct Hb as (Hr & _). unfold cells in Hc.
    apply (f_equal List.length) in Hc. rewrite length_map in Hc.
    simpl in Hc. lia. }
  destruct (round_trip_table _ _ _ Hok Hc Hd Hlast) as [H1 H2].
  rewrite <- E in H1, H2. eauto.
Qed.

Lemma quoting_buffer_written :
  csv_save true quoting_buffer
  = Some (0, [34; 120; 44; 121; 34; 44;
              34; 115; 97; 121; 32; 34; 34; 104; 105; 34; 34; 34; 10;
              34; 49; 10; 50; 34]).
Proof. reflexivity. Qed.

Lemma csv_save_load_round_trip_witness :
  exists out,
    csv_save true quoting_buffer = Some (0, out)
    /\ csv_load [] (fresh_like quoting_buffer) (Some out)
       = Some {| code := 0; buffer := quoting_buffer; stream_open := false |}.
Proof.
  apply (csv_save_load_round_trip quoting_buffer).
  - repeat split; try done. repeat constructor; done.
  - repeat constructor; unfold is_char; simpl; lia.
  - repeat constructor; done.
  - intros row Hrow. simpl in Hrow.
    destruct (Z.eq_dec row 0) as [->|]; [exists 2; split; [reflexivity|lia]|].
    assert (row = 1) as -> by lia. exists 1; split; [reflexivity|lia].
  - split; [simpl; lia|].
    repeat constructor; unfold INT_MAX; simpl; lia.
  - simpl; lia.
  - unfold delims_ok, text_char, NL, EOF; simpl; lia.
  - intros c' _ Heq. apply (f_equal last) in Heq.
    rewrite last_snoc in Heq. discriminate.
Defined.

(** C1 as stated fails on the empty buffer: nothing is written, and
    loading nothing gives one row holding one empty field. *)
Lemma csv_round_trip_fails_on_empty_buffer :
  csv_save true csv_create_buffer = Some (0, [])
  /\ csv_load [] csv_create_buffer (Some [])
     = Some {| code := 0; buffer := buffer_of 44 34 [[[]]];
               stream_open := false |}
  /\ rows csv_create_buffer = 0
  /\ rows (buffer_of 44 34 [[[]]]) = 1
  /\ buffer_of 44 34 [[[]]] <> csv_create_buffer.
Proof. split_and!; try reflexivity. discriminate. Qed.

(** A lone empty field as the last of several rows is not read back: the
    newline written before it is taken for the end of the stream. *)
Lemma csv_round_trip_drops_final_empty_row :
  exists out o,
    csv_save true (buffer_of 44 34 [[[97]]; [[]]]) = Some (0, out)
    /\ csv_load [] csv_create_buffer (Some out) = Some o
    /\ cells (buffer o) = [[[97]]].
Proof. eexists _, _. split_and!; reflexivity. Qed.

(** A character [-1] (the byte 255) is written and then read as [EOF]. *)
Lemma csv_round_trip_loses_byte_255 :
  exists out o,
    csv_save true (buffer_of 44 34 [[[97; -1; 98]]]) = Some (0, out)
    /\ csv_load [] csv_create_buffer (Some out) = Some o
    /\ cells (buffer o) = [[[97]]].
Proof. eexists _, _. split_and!; reflexivity. Qed.

(** With the same character as field and text delimiter the fields are
    not read back. *)
Lemma csv_round_trip_needs_distinct_delimiters :
  exists out o,
    csv_save true (buffer_of 44 44 [[[97]; [98]]]) = Some (0, out)
    /\ csv_load [] (buffer_of 44 44 []) (Some out) = Some o
    /\ cells (buffer o) = [[[98]]].
Proof. eexists _, _. split_and!; reflexivity. Qed.

(** A written table followed by one newline loads to the same buffer:
    the final newline is absorbed, also after a quoted field. *)
Lemma csv_load_written_final_newline fd td c :
  table_ok c -> c <> [] -> delims_ok fd td -> last_row_written c ->
  csv_load [] (buffer_of fd td []) (Some (written_rows fd td c ++ [byte NL]))
  = Some {| code := 0; buffer := buffer_of fd td c; stream_open := false |}.
Proof. intros. apply load_written_table; auto. Qed.

(** ** The text delimiter outside quotes *)

(** After the counter is reset, the next character added starts the
    buffer again. *)
Lemma add_char_after_reset tmp ch : add_char tmp 0 ch = ([ch; 0], 1%nat).
Proof. by destruct tmp as [|x [|y [|z tmp]]]. Qed.

(** A text delimiter met after unquoted characters resets the counter and
    keeps the buffer. *)
Lemma read_text_quote_keeps_buffer fd td pre rest :
  text_char td ->
  Forall (fun c => text_char c /\ c <> td /\ c <> fd /\ c <> NL) pre ->
  read_text (map byte pre ++ byte td :: rest) fd td false false [0] 0
  = read_text rest fd td true false (pre ++ [0]) 0.
Proof.
  intros Htd Hpre. rewrite (read_text_plain fd td pre []) by done.
  cbn [app]. rewrite read_text_cons. cbv zeta.
  rewrite to_char_text_char by done. destruct Htd as (_ & _ & ?).
  destruct (Z.eqb_spec td EOF); [done|]. by rewrite Z.eqb_refl.
Qed.

(** So the field keeps the characters before the delimiter when the stream
    ends there, and loses them as soon as one more character is
    accumulated. *)
Lemma read_next_field_quote_at_end fd td pre f :
  text_char td -> fd <> EOF ->
  Forall (fun c => text_char c /\ c <> td /\ c <> fd /\ c <> NL) pre ->
  read_next_field (map byte pre ++ [byte td]) fd td f
  = (2, set_field f (pre ++ [0]), []).
Proof.
  intros Htd Hfd Hpre. unfold read_next_field.
  rewrite read_text_quote_keeps_buffer by done. cbn [read_text].
  by rewrite scan_terminator_eof.
Qed.

Lemma read_text_quote_then_char fd td pre ch rest :
  text_char td -> text_char ch -> ch <> td ->
  Forall (fun c => text_char c /\ c <> td /\ c <> fd /\ c <> NL) pre ->
  read_text (map byte pre ++ byte td :: byte ch :: rest) fd td false false
    [0] 0
  = read_text rest fd td true false ([ch] ++ [0]) 1.
Proof.
  intros Htd Hch Hne Hpre. rewrite read_text_quote_keeps_buffer by done.
  rewrite read_text_cons. cbv zeta. rewrite to_char_text_char by done.
  destruct Hch as (_ & _ & ?).
  destruct (Z.eqb_spec ch EOF); [done|].
  destruct (Z.eqb_spec ch td); [done|].
  cbn [negb]. by rewrite add_char_after_reset.
Qed.

(** ** [csv_set_field] completes *)

Lemma set_grow_rows_total n b row :
  buffer_ok b -> row + 1 < 2 ^ 61 ->
  (Z.to_nat (row - rows b + 1) <= n)%nat ->
  exists b1, set_grow_rows n b row = Some b1.
Proof.
  revert b. induction n as [|n IH]; intros b Hb Hrow Hn; simpl.
  - destruct (Z.leb_spec (rows b) row); [lia|]. eauto.
  - destruct (Z.leb_spec (rows b) row); [|eauto].
    rewrite append_row_ok by done.
    destruct (Z.ltb_spec (rows b + 1) (2 ^ 61)); [|lia]. simpl.
    apply IH; [by apply appended_row_ok|done|]. simpl. lia.
Qed.

Lemma set_grow_fields_total n b row entry w :
  buffer_ok b -> load (width b) row = Some w -> entry < INT_MAX ->
  (Z.to_nat (entry - w + 1) <= n)%nat ->
  exists b2, set_grow_fields n b row entry = Some b2.
Proof.
  revert b w. induction n as [|n IH]; intros b w Hb Hw Hent Hn; simpl;
    rewrite Hw; simpl.
  - destruct (Z.leb_spec w entry); [lia|]. eauto.
  - destruct (Z.leb_spec w entry); [|eauto].
    destruct (buffer_ok_width _ _ _ Hb Hw) as (_ & _ & x & Hx & ->).
    rewrite (append_field_ok _ _ x) by done.
    destruct (Z.leb_spec (Z.of_nat (List.length x) + 1) INT_MAX); [|lia].
    simpl. eapply IH; [by apply appended_field_ok| |done|].
    + by apply width_appended_field.
    + lia.
Qed.

Lemma csv_set_field_total b row entry t :
  buffer_ok b -> 0 <= row -> row + 1 < 2 ^ 61 -> 0 <= entry < INT_MAX ->
  exists b', csv_set_field b row entry t = Some (0, b').
Proof.
  intros Hb Hrow0 Hrow Hent. unfold csv_set_field.
  destruct (set_grow_rows_total (Z.to_nat (row - rows b + 1)) b row)
    as [b1 H1]; [done|done|lia|].
  rewrite H1. simpl.
  destruct (set_grow_rows_spec _ _ _ _ Hb H1) as (Hb1 & Hlt & _).
  destruct (buffer_ok_in_range b1 row Hb1) as [r Hr]; [lia|].
  destruct (buffer_ok_row _ _ _ Hb1 Hr) as (_ & Hw & _).
  rewrite Hw. simpl.
  destruct (set_grow_fields_total
              (Z.to_nat (entry - Z.of_nat (List.length r) + 1)) b1 row entry
              _ Hb1 Hw)
    as [b2 H2]; [lia|lia|].
  rewrite H2. simpl.
  destruct (set_grow_fields_spec _ _ _ _ _ Hb1 H2)
    as (Hb2 & Hrows2 & _ & _ & (w2 & Hw2 & Hlt2) & _).
  destruct (buffer_ok_width _ _ _ Hb2 Hw2) as (_ & _ & r2 & Hr2 & ->).
  destruct (lookup_lt_is_Some_2 r2 (Z.to_nat entry)) as [f Hf]; [lia|].
  assert (Hc : cell b2 row entry = Some f).
  { apply cell_Some. exists r2. split; [done|]. apply load_Some. split; [lia|done]. }
  rewrite Hc. simpl.
  destruct (set_cell_ok b2 row entry (set_field f t) f Hc) as [b3 H3].
  rewrite H3. simpl. eauto.
Qed.

(** C7.  With its allocations succeeding, [csv_set_field(buffer, row,
    entry, t)] on a well-formed buffer returns 0 for every row and entry
    within the sizes a buffer can have (a row below 2^61 - 1, an entry
    below [INT_MAX]); afterwards the buffer is well formed and has at least
    [row + 1] rows, row [row] has at least [entry + 1] fields, the cell
    holds the text [t], and every cell that existed before, other than the
    target, is unchanged. *)
Theorem csv_set_field_grows_and_overwrites
    (b : CSV_BUFFER) (row entry : Z) (t : list Z) :
  buffer_ok b ->
  Forall (fun ch => ch <> 0) t ->
  0 <= row -> row + 1 < 2 ^ 61 -> 0 <= entry < INT_MAX ->
  exists b',
    csv_set_field b row entry t = Some (0, b')
    /\ buffer_ok b'
    /\ row + 1 <= rows b'
    /\ (exists w, load (width b') row = Some w /\ entry + 1 <= w)
    /\ (exists f, cell b' row entry = Some f /\ text f = t)
    /\ (forall r e f, cell b r e = Some f -> (r, e) <> (row, entry) ->
          cell b' r e = Some f).
Proof.
  intros Hb Ht Hrow0 Hrow Hent.
  destruct (csv_set_field_total b row entry t Hb Hrow0 Hrow Hent) as [b' Hrun].
  destruct (csv_set_field_spec _ _ _ _ _ _ Hb Ht Hrun)
    as (_ & Hrows & Hw & Hf & Hothers & Hb').
  exists b'. split_and!; done.
Qed.

Lemma csv_set_field_grows_and_overwrites_witness :
  exists b',
    csv_set_field (mkBuffer [[mkField [97] 2]] 1 [1] 44 34) 1 2 [104; 105]
    = Some (0, b')
    /\ buffer_ok b'
    /\ 1 + 1 <= rows b'
    /\ (exists w, load (width b') 1 = Some w /\ 2 + 1 <= w)
    /\ (exists f, cell b' 1 2 = Some f /\ text f = [104; 105])
    /\ (forall r e f,
          cell (mkBuffer [[mkField [97] 2]] 1 [1] 44 34) r e = Some f ->
          (r, e) <> (1, 2) -> cell b' r e = Some f).
Proof.
  apply (csv_set_field_grows_and_overwrites
           (mkBuffer [[mkField [97] 2]] 1 [1] 44 34) 1 2 [104; 105]).
  - repeat split; try done. repeat constructor; done.
  - repeat constructor; lia.
  - lia.
  - lia.
  - unfold INT_MAX. lia.
Defined.

(** ** Allocation failure inside [append_row] *)

(** [append_row] does not look at what its call of [append_field] returns:
    when that allocation fails it still returns 0, and the new row has no
    field. *)
Lemma append_row_ignores_append_field_failure :
  append_row [true; true; false] csv_create_buffer
  = Some (0, {| field := [[]]; rows := 1; width := [0];
                field_delim := 44; text_delim := 34 |}, []).
Proof. reflexivity. Qed.

(** C6.  The width invariant is broken by [append_row]: on every
    well-formed buffer whose rows all have at least one field, when the
    two allocations of [append_row] succeed and the one inside its call of
    [append_field] fails, [append_row] returns 0 and the buffer has one
    more row, of width 0. *)
Theorem append_row_breaks_width_invariant (b : CSV_BUFFER) :
  buffer_ok b -> width_inv b -> rows b + 1 < 2 ^ 61 ->
  exists b',
    append_row [true; true; false] b = Some (0, b', [])
    /\ rows b' = rows b + 1
    /\ load (width b') (rows b) = Some 0
    /\ load (field b') (rows b) = Some []
    /\ ~ width_inv b'.
Proof.
  intros (Hrows & Hlt & HF) Hinv Hfit. pose proof HF as Hlen%Forall2_length.
  assert (Hwlen : Z.of_nat (List.length (width b)) = rows b) by lia.
  assert (Hw : load (<[Z.to_nat (rows b) := 0]>
                       (resize (Z.to_nat (rows b + 1)) 0 (width b)))
                  (rows b) = Some 0).
  { rewrite load_insert by lia. rewrite Z.eqb_refl, length_resize.
    destruct (Z.ltb_spec (rows b) (Z.of_nat (Z.to_nat (rows b + 1)))); [done|lia]. }
  unfold append_row. cbn [realloc_ok negb].
  rewrite realloc_Some by lia. cbn [mbind option_bind].
  rewrite store_ok by (rewrite length_resize; lia).
  cbn [mbind option_bind negb rows with_width field].
  rewrite realloc_Some by lia. cbn [mbind option_bind].
  rewrite store_ok by (rewrite length_resize; lia).
  cbn [mbind option_bind].
  unfold append_field. cbn [rows with_rows with_field with_width width field].
  rewrite !wrap64_small by lia.
  destruct (Z.ltb_spec (rows b + 1) (rows b + 1)); [lia|].
  rewrite Hw. cbn [mbind option_bind].
  change (to_int 0) with 0. change (INT_MAX <? 0 + 1) with false. cbv iota.
  cbn [realloc_ok negb mbind option_bind].
  eexists. split; [reflexivity|].
  unfold with_rows, with_field, with_width. cbn [rows width field].
  split_and!; [done|exact Hw| |].
  - rewrite load_insert by lia. rewrite Z.eqb_refl, length_resize.
    destruct (Z.ltb_spec (rows b) (Z.of_nat (Z.to_nat (rows b + 1)))); [done|lia].
  - intros Hinv'. destruct (Hinv' (rows b)) as (w & Hw' & Hw1).
    { cbn [rows]. lia. }
    cbn [width] in Hw'. rewrite Hw in Hw'. injection Hw' as <-. lia.
Qed.

Lemma append_row_breaks_width_invariant_witness :
  exists b',
    append_row [true; true; false] sample_buffer = Some (0, b', [])
    /\ rows b' = rows sample_buffer + 1
    /\ load (width b') (rows sample_buffer) = Some 0
    /\ load (field b') (rows sample_buffer) = Some []
    /\ ~ width_inv b'.
Proof.
  apply (append_row_breaks_width_invariant sample_buffer).
  - apply sample_buffer_ok.
  - apply sample_buffer_width_inv.
  - simpl. lia.
Defined.

(** * Further properties *)

(** ** [csv_get_field]: whole copy, absent cell, zero capacity *)

Lemma get_field_whole
    (b : CSV_BUFFER) (dest : list Z) (n row entry : Z) (f : CSV_FIELD) :
  buffer_ok b -> field_ok f ->
  cell b row entry = Some f ->
  1 <= n -> Z.of_nat (List.length (text f)) <= n ->
  n < Z.of_nat (List.length dest) ->
  Z.of_nat (List.length dest) < 2 ^ 64 ->
  exists dest',
    csv_get_field dest n b row entry = Some (0, dest')
    /\ take (Z.to_nat n) dest'
       = text f ++ replicate (Z.to_nat n - List.length (text f)) 0
    /\ dest' !! Z.to_nat n = Some 0
    /\ drop (S (Z.to_nat n)) dest' = drop (S (Z.to_nat n)) dest
    /\ List.length dest' = List.length dest.
Proof.
  intros Hb Hf Hc Hn Hfit Hd Hd64.
  destruct (cell_in_range _ _ _ _ Hb Hc) as (Hrow & w & Hw & Hent & _).
  destruct Hf as (Hlen & Hlt & Hch).
  unfold csv_get_field.
  destruct (Z.eqb_spec n 0); [lia|].
  rewrite Hrow, Hw; simpl. rewrite Hent, Hc; simpl.
  rewrite strncpy_Some by lia; simpl.
  set (d1 := resize _ _ _ ++ _).
  assert (Hd1 : List.length d1 = List.length dest)
    by (apply strncpy_length; lia).
  rewrite store_ok by lia. simpl.
  rewrite wrap64_small by lia.
  destruct (Z.ltb_spec (n + 1) (length f)); [lia|].
  destruct (Z.eqb_spec (length f) 0); [lia|].
  eexists; split; [done|]. split_and!.
  - rewrite take_insert_ge by lia. subst d1.
    rewrite take_app_le by (rewrite length_resize; lia).
    rewrite take_resize, Nat.min_id. rewrite cstr_id by done.
    by rewrite resize_ge by lia.
  - apply list_lookup_insert_eq. lia.
  - rewrite drop_insert_lt by lia. subst d1.
    rewrite drop_app_ge by (rewrite length_resize; lia).
    rewrite length_resize, drop_drop. f_equal. lia.
  - by rewrite length_insert.
Qed.

(** X1.  When the text of an in-range cell fits the capacity [n],
    [csv_get_field] returns 0; the first [n] bytes of the destination are
    the text padded with NULs, byte [n] is NUL, and the bytes after it are
    untouched.  The destination memory holds at least [n + 1] bytes. *)
Theorem csv_get_field_copies_whole_text
    (b : CSV_BUFFER) (dest : list Z) (n row entry : Z) (f : CSV_FIELD) :
  buffer_ok b -> fields_ok b ->
  cell b row entry = Some f ->
  1 <= n -> Z.of_nat (List.length (text f)) <= n ->
  n < Z.of_nat (List.length dest) ->
  Z.of_nat (List.length dest) < 2 ^ 64 ->
  exists dest',
    csv_get_field dest n b row entry = Some (0, dest')
    /\ take (Z.to_nat n) dest'
       = text f ++ replicate (Z.to_nat n - List.length (text f)) 0
    /\ dest' !! Z.to_nat n = Some 0
    /\ drop (S (Z.to_nat n)) dest' = drop (S (Z.to_nat n)) dest
    /\ List.length dest' = List.length dest.
Proof.
  intros Hb Hfs Hc. apply get_field_whole; [done| |done].
  by eapply fields_ok_cell.
Qed.

Lemma csv_get_field_copies_whole_text_witness :
  exists dest',
    csv_get_field [1; 2; 3; 4; 5] 3 sample_buffer 0 1 = Some (0, dest')
    /\ take 3 dest' = [98] ++ replicate (3 - 1) 0
    /\ dest' !! 3%nat = Some 0
    /\ drop 4 dest' = drop 4 [1; 2; 3; 4; 5]
    /\ List.length dest' = 5%nat.
Proof.
  apply (csv_get_field_copies_whole_text sample_buffer [1; 2; 3; 4; 5] 3 0 1
           (mkField [98] 2)).
  - apply sample_buffer_ok.
  - repeat constructor; unfold is_char; simpl; lia.
  - reflexivity.
  - lia.
  - simpl; lia.
  - simpl; lia.
  - simpl; lia.
Defined.

(** X2.  For a row or entry past the bounds and a capacity of at least 1,
    [csv_get_field] returns 2 and sets byte 0 of the destination to NUL;
    every other byte of the destination is left as it was. *)
Theorem csv_get_field_absent_sets_first_byte
    (b : CSV_BUFFER) (dest : list Z) (n row entry : Z) :
  n <> 0 -> dest <> [] ->
  rows b <= row \/ (exists w, load (width b) row = Some w /\ w <= entry) ->
  csv_get_field dest n b row entry = Some (2, <[0%nat := 0]> dest).
Proof.
  intros Hn Hd Hout. unfold csv_get_field.
  destruct (Z.eqb_spec n 0); [done|].
  assert (Hst : store dest 0 0 = Some (<[0%nat := 0]> dest)).
  { destruct dest; [done|]. apply store_Some. simpl. split; [lia|done]. }
  destruct (Z.leb_spec (rows b) row) as [Hle|Hgt]; simpl.
  - by rewrite Hst.
  - destruct Hout as [?|(w & Hw & Hle)]; [lia|].
    rewrite Hw. simpl. destruct (Z.leb_spec w entry); [|lia].
    by rewrite Hst.
Qed.

Lemma csv_get_field_absent_sets_first_byte_witness :
  csv_get_field [7; 8; 9] 3 sample_buffer 1 1 = Some (2, <[0%nat := 0]> [7; 8; 9]).
Proof.
  apply (csv_get_field_absent_sets_first_byte sample_buffer [7; 8; 9] 3 1 1).
  - lia.
  - discriminate.
  - right. exists 1. split; [reflexivity|lia].
Defined.

(** ** The size queries on a buffer with rows *)

(** X3.  On a well-formed buffer with at least one row, [csv_get_width]
    returns 0 for a row past the end and the number of fields of the row
    otherwise. *)
Theorem csv_get_width_of_rows (b : CSV_BUFFER) (row : Z) :
  buffer_ok b -> 1 <= rows b -> 0 <= row < 2 ^ 64 ->
  csv_get_width b row =
    match load (field b) row with
    | Some r => Some (Z.of_nat (List.length r))
    | None => Some 0
    end.
Proof.
  intros Hb Hrows Hrow. pose proof Hb as (Hr & Hlt & HF).
  unfold csv_get_width. rewrite wrap64_small by lia.
  destruct (Z.ltb_spec (rows b - 1) row).
  - destruct (load (field b) row) as [r|] eqn:Hl; [|done].
    apply load_lt in Hl. lia.
  - destruct (buffer_ok_in_range b row Hb) as [r Hl]; [lia|].
    rewrite Hl. destruct (buffer_ok_row _ _ _ Hb Hl) as (_ & Hw & Hmax).
    rewrite Hw. simpl. unfold INT_MAX in Hmax. rewrite to_int_small by lia.
    done.
Qed.

Lemma csv_get_width_of_rows_witness :
  csv_get_width sample_buffer 0 =
    match load (field sample_buffer) 0 with
    | Some r => Some (Z.of_nat (List.length r))
    | None => Some 0
    end.
Proof.
  apply (csv_get_width_of_rows sample_buffer 0).
  - apply sample_buffer_ok.
  - simpl; lia.
  - lia.
Defined.

(** X4.  On a well-formed buffer with at least one row and no empty row,
    [csv_get_field_length] returns 0 for an absent cell and the length of
    the text, as an [int], for a cell that exists. *)
Theorem csv_get_field_length_of_cells (b : CSV_BUFFER) (row entry : Z) :
  buffer_ok b -> fields_ok b -> width_inv b -> 1 <= rows b ->
  0 <= row < 2 ^ 64 -> 0 <= entry < 2 ^ 64 ->
  csv_get_field_length b row entry =
    match cell b row entry with
    | Some f => Some (to_int (Z.of_nat (List.length (text f))))
    | None => Some 0
    end.
Proof.
  intros Hb Hfs Hinv Hrows Hrow Hent. pose proof Hb as (Hr & Hlt & HF).
  unfold csv_get_field_length. rewrite wrap64_small by lia.
  destruct (Z.ltb_spec (rows b - 1) row).
  - destruct (cell b row entry) as [f|] eqn:Hc; [|done].
    destruct (cell_in_range _ _ _ _ Hb Hc) as (_ & _ & _ & _ & _ & ?). lia.
  - destruct (Hinv row) as (w & Hw & Hw1); [lia|].
    rewrite Hw. simpl.
    destruct (buffer_ok_width _ _ _ Hb Hw) as (_ & Hmax & r & Hl & ->).
    unfold INT_MAX in Hmax. rewrite wrap64_small by lia.
    destruct (Z.ltb_spec (Z.of_nat (List.length r) - 1) entry).
    + destruct (cell b row entry) as [f|] eqn:Hc; [|done].
      apply cell_Some in Hc as (r' & Hl' & Hf). rewrite Hl in Hl'.
      inversion Hl'; subst r'. apply load_lt in Hf. lia.
    + destruct (lookup_lt_is_Some_2 r (Z.to_nat entry)) as [f Hf]; [lia|].
      assert (Hc : cell b row entry = Some f).
      { apply cell_Some. exists r. split; [done|].
        apply load_Some. split; [lia|done]. }
      rewrite Hc. simpl.
      destruct (fields_ok_cell _ _ _ _ Hfs Hc) as (Hlen & Hl64 & _).
      rewrite Hlen. rewrite wrap64_small by lia.
      do 2 f_equal. lia.
Qed.

Lemma csv_get_field_length_of_cells_witness :
  csv_get_field_length quoting_buffer 0 1 =
    match cell quoting_buffer 0 1 with
    | Some f => Some (to_int (Z.of_nat (List.length (text f))))
    | None => Some 0
    end.
Proof.
  apply (csv_get_field_length_of_cells quoting_buffer 0 1).
  - repeat split; try done. repeat constructor; done.
  - repeat constructor; unfold is_char; simpl; lia.
  - intros row Hrow. simpl in Hrow.
    destruct (Z.eq_dec row 0) as [->|]; [exists 2; split; [reflexivity|lia]|].
    assert (row = 1) as -> by lia. exists 1; split; [reflexivity|lia].
  - simpl; lia.
  - lia.
  - lia.
Defined.

(** ** [csv_set_field] followed by the readers *)

Lemma csv_set_field_result b row entry t c b' :
  buffer_ok b -> csv_set_field b row entry t = Some (c, b') ->
  buffer_ok b' /\ exists f0, cell b' row entry = Some (set_field f0 t).
Proof.
  intros Hb. unfold csv_set_field.
  destruct (set_grow_rows _ b row) as [b1|] eqn:H1; [|done]. simpl.
  destruct (set_grow_rows_spec _ _ _ _ Hb H1) as (Hb1 & _).
  destruct (load (width b1) row) as [w|] eqn:Hw; [|done]. simpl.
  destruct (set_grow_fields _ b1 row entry) as [b2|] eqn:H2; [|done]. simpl.
  destruct (set_grow_fields_spec _ _ _ _ _ Hb1 H2) as (Hb2 & _).
  destruct (cell b2 row entry) as [f|] eqn:Hf; [|done]. simpl.
  destruct (set_cell b2 row entry _) as [b3|] eqn:H3; [|done]. simpl.
  intros [= <- <-].
  destruct (set_cell_buffer_ok _ _ _ _ _ Hb2 H3) as (Hb3 & _).
  split; [done|]. exists f.
  rewrite (set_cell_cell _ _ _ _ _ row entry H3). by rewrite !Z.eqb_refl.
Qed.

Lemma get_field_length_cell b row entry f :
  buffer_ok b -> cell b row entry = Some f -> field_ok f ->
  csv_get_field_length b row entry
  = Some (to_int (Z.of_nat (List.length (text f)))).
Proof.
  intros Hb Hc (Hlen & Hl64 & _). pose proof Hb as (Hr & Hlt & HF).
  destruct (cell_in_range _ _ _ _ Hb Hc) as (_ & w & Hw & _ & Hent & Hrow).
  destruct (buffer_ok_width _ _ _ Hb Hw) as (_ & Hmax & _).
  unfold INT_MAX in Hmax.
  unfold csv_get_field_length. rewrite wrap64_small by lia.
  destruct (Z.ltb_spec (rows b - 1) row); [lia|].
  rewrite Hw. simpl. rewrite wrap64_small by lia.
  destruct (Z.ltb_spec (w - 1) entry); [lia|].
  rewrite Hc. simpl. rewrite Hlen, wrap64_small by lia.
  do 2 f_equal. lia.
Qed.

(** X5.  What [csv_set_field] writes is what the readers return: after
    [csv_set_field(buffer, row, entry, t)], [csv_get_field] with a
    [dest_len = n] that fits [t], into a destination of at least [n + 1]
    bytes, returns 0 and the text [t] padded with NULs, and
    [csv_get_field_length] returns the length of [t]. *)
Theorem csv_set_field_then_get
    (b b' : CSV_BUFFER) (row entry c n : Z) (t dest : list Z) :
  buffer_ok b -> Forall is_char t ->
  csv_set_field b row entry t = Some (c, b') ->
  1 <= n -> Z.of_nat (List.length t) <= n ->
  n < Z.of_nat (List.length dest) ->
  Z.of_nat (List.length dest) < 2 ^ 64 ->
  (exists dest',
      csv_get_field dest n b' row entry = Some (0, dest')
      /\ take (Z.to_nat n) dest'
         = t ++ replicate (Z.to_nat n - List.length t) 0)
  /\ csv_get_field_length b' row entry
     = Some (to_int (Z.of_nat (List.length t))).
Proof.
  intros Hb Ht Hset Hn Hfit Hd Hd64.
  destruct (csv_set_field_result _ _ _ _ _ _ Hb Hset) as (Hb' & f0 & Hc).
  destruct (set_field_ok f0 t Ht) as [Hok Htext]; [lia|].
  split.
  - destruct (get_field_whole b' dest n row entry _ Hb' Hok Hc)
      as (dest' & Hg & Htake & _); try done.
    { rewrite Htext. lia. }
    exists dest'. split; [done|]. by rewrite Htext in Htake.
  - rewrite (get_field_length_cell _ _ _ _ Hb' Hc Hok). by rewrite Htext.
Qed.

Lemma csv_set_field_then_get_witness :
  (exists dest',
      csv_get_field [1; 2; 3; 4; 5; 6] 5
        (mkBuffer [[mkField [97] 2; mkField [98] 2];
                   [mkField [99] 2; create_field; mkField [104; 105] 3]]
           2 [2; 3] 44 34) 1 2 = Some (0, dest')
      /\ take (Z.to_nat 5) dest'
         = [104; 105] ++ replicate (Z.to_nat 5 - List.length [104; 105]) 0)
  /\ csv_get_field_length
       (mkBuffer [[mkField [97] 2; mkField [98] 2];
                  [mkField [99] 2; create_field; mkField [104; 105] 3]]
          2 [2; 3] 44 34) 1 2
     = Some (to_int (Z.of_nat (List.length [104; 105]))).
Proof.
  apply (csv_set_field_then_get sample_buffer _ 1 2 0 5 [104; 105]
           [1; 2; 3; 4; 5; 6]).
  - apply sample_buffer_ok.
  - repeat constructor; unfold is_char; lia.
  - reflexivity.
  - lia.
  - simpl; lia.
  - simpl; lia.
  - simpl; lia.
Defined.

(** ** The tokenizer: progress, and what it accepts around a quoted field *)

Lemma read_text_suffix fp fd td in_text esc tmp c ch tmp' rest :
  read_text fp fd td in_text esc tmp c = (ch, tmp', rest) ->
  exists p, fp = p ++ rest /\ (p = [] -> ch = EOF).
Proof.
  revert in_text esc tmp c.
  induction fp as [|x fp IH]; intros in_text esc tmp c.
  - intros [= <- <- <-]. by exists [].
  - rewrite read_text_cons. cbv zeta.
    assert (Hstop : forall ch0 tmp0,
              (ch0, tmp0, fp) = (ch, tmp', rest) ->
              exists p, x :: fp = p ++ rest /\ (p = [] -> ch = EOF)).
    { intros ? ? [= <- <- <-]. by exists [x]. }
    assert (Hgo : forall in_text esc tmp c,
              read_text fp fd td in_text esc tmp c = (ch, tmp', rest) ->
              exists p, x :: fp = p ++ rest /\ (p = [] -> ch = EOF)).
    { intros ? ? ? ? H. apply IH in H as (p & -> & _). by exists (x :: p). }
    destruct (to_char x =? EOF); [apply Hstop|].
    destruct in_text; cbn [negb].
    + destruct esc.
      * destruct (to_char x =? td); [|apply Hstop].
        destruct (add_char tmp c (to_char x)). apply Hgo.
      * destruct (to_char x =? td); [apply Hgo|].
        destruct (add_char tmp c (to_char x)). apply Hgo.
    + destruct (to_char x =? td); [apply Hgo|].
      destruct (to_char x =? fd); [apply Hstop|].
      destruct (to_char x =? NL); [apply Hstop|].
      destruct (add_char tmp c (to_char x)). apply Hgo.
Qed.

Lemma scan_terminator_suffix fp fd ch code rest :
  fd <> EOF ->
  scan_terminator fp fd ch = (code, rest) ->
  (code = 0 \/ code = 1 \/ code = 2)
  /\ exists p, fp = p ++ rest /\ (code <> 2 -> ch <> EOF \/ p <> []).
Proof.
  intros Hfd. revert ch. induction fp as [|x fp IH]; intros ch;
    rewrite scan_terminator_unfold.
  - destruct (Z.eqb_spec ch fd) as [->|].
    { intros [= <- <-]. split; [auto|]. exists []. split; [done|]. auto. }
    destruct (Z.eqb_spec ch NL) as [->|].
    { intros [= <- <-]. split.
      - try match goal with
            | |- context [if ?c then _ else _] => destruct c
            end; auto.
      - exists []. split; [done|]. intros _. by left. }
    destruct (Z.eqb_spec ch EOF).
    { intros [= <- <-]. split; [auto|]. by exists []. }
    destruct (Z.eqb_spec EOF fd); [congruence|].
    intros [= <- <-]. split; [auto|]. by exists [].
  - destruct (Z.eqb_spec ch fd) as [->|].
    { intros [= <- <-]. split; [auto|]. exists []. split; [done|]. auto. }
    destruct (Z.eqb_spec ch NL) as [->|].
    { intros [= <- <-]. split.
      - try match goal with
            | |- context [if ?c then _ else _] => destruct c
            end; auto.
      - exists []. split; [done|]. intros _. by left. }
    destruct (Z.eqb_spec ch EOF).
    { intros [= <- <-]. split; [auto|]. by exists []. }
    intros H. apply IH in H as (Hc & p & -> & _). split; [done|].
    exists (x :: p). split; [done|]. intros _. by right.
Qed.

(** What the loader needs of the tokenizer to terminate. *)
Lemma read_next_field_suffix
    (fp rest : FILE) (fd td code : Z) (f f' : CSV_FIELD) :
  fd <> EOF ->
  read_next_field fp fd td f = (code, f', rest) ->
  (code = 0 \/ code = 1 \/ code = 2)
  /\ (exists p, fp = p ++ rest)
  /\ (code <> 2 -> (List.length rest < List.length fp)%nat).
Proof.
  intros Hfd. unfold read_next_field.
  destruct (read_text fp fd td false false [0] 0) as [[ch tmp] fp1] eqn:H1.
  destruct (scan_terminator fp1 fd ch) as [cd fp2] eqn:H2.
  intros [= <- <- <-].
  apply read_text_suffix in H1 as (p1 & -> & Hp1).
  apply (scan_terminator_suffix _ _ _ _ _ Hfd) in H2 as (Hc & p2 & -> & Hp2).
  split_and!; [done|exists (p1 ++ p2); by rewrite app_assoc|].
  intros Hne. rewrite !length_app.
  destruct (Hp2 Hne) as [He|He].
  - destruct p1; [by destruct He; apply Hp1|]. simpl. lia.
  - destruct p2; [done|]. simpl. lia.
Qed.

(** X6.  Progress of the tokenizer: with a field delimiter other than the
    [EOF] character, [read_next_field] returns 0, 1 or 2, leaves a suffix
    of the stream, and has read at least one byte unless it returns 2. *)
Theorem read_next_field_progress
    (fp rest : FILE) (fd td code : Z) (f f' : CSV_FIELD) :
  fd <> EOF ->
  read_next_field fp fd td f = (code, f', rest) ->
  (code = 0 \/ code = 1 \/ code = 2)
  /\ (exists p, fp = p ++ rest)
  /\ (code <> 2 -> (List.length rest < List.length fp)%nat).
Proof.
  intros Hfd. unfold read_next_field.
  destruct (read_text fp fd td false false [0] 0) as [[ch tmp] fp1] eqn:H1.
  destruct (scan_terminator fp1 fd ch) as [cd fp2] eqn:H2.
  intros [= <- <- <-].
  apply read_text_suffix in H1 as (p1 & -> & Hp1).
  apply (scan_terminator_suffix _ _ _ _ _ Hfd) in H2 as (Hc & p2 & -> & Hp2).
  split_and!; [done|exists (p1 ++ p2); by rewrite app_assoc|].
  intros Hne. rewrite !length_app.
  destruct (Hp2 Hne) as [He|He].
  - destruct p1; [by destruct He; apply Hp1|]. simpl. lia.
  - destruct p2; [done|]. simpl. lia.
Qed.

Lemma read_next_field_progress_witness :
  (0 = 0 \/ 0 = 1 \/ 0 = 2)
  /\ (exists p, [97; 44; 98] = p ++ [98])
  /\ (0 <> 2 -> (List.length [98] < List.length [97; 44; 98])%nat).
Proof.
  apply (read_next_field_progress [97; 44; 98] [98] 44 34 0 create_field
           (mkField [97] 2)).
  - discriminate.
  - reflexivity.
Defined.

(** X7.  The tokenizer inverts the field encoding of [csv_save]: reading
    a written field of fewer than 2^31 - 1 characters (the counter of
    [add_char] is an [int]) gives back its text, whatever delimiters,
    quotes and newlines it holds, with code 2 at the end of the stream
    (also before a final newline), 0 before a field delimiter and 1 before
    a newline that is followed by more. *)
Theorem read_next_field_inverts_written_field
    (fd td : Z) (t : list Z) (f : CSV_FIELD) :
  delims_ok fd td -> text_ok t ->
  read_next_field (written_field fd td t) fd td f = (2, field_of t, [])
  /\ read_next_field (written_field fd td t ++ [byte NL]) fd td f
     = (2, field_of t, [])
  /\ (forall rest,
        read_next_field (written_field fd td t ++ byte fd :: rest) fd td f
        = (0, field_of t, rest))
  /\ (forall y rest, to_char y <> EOF ->
        read_next_field (written_field fd td t ++ byte NL :: y :: rest) fd td f
        = (1, field_of t, y :: rest)).
Proof.
  intros Hd Ht. split_and!.
  - by apply read_next_field_last.
  - by apply read_next_field_final_newline.
  - intros rest. by apply read_next_field_delim.
  - intros y rest Hy. by apply read_next_field_newline_more.
Qed.

Lemma read_next_field_inverts_written_field_witness :
  read_next_field (written_field 44 34 [120; 44; 34; 10]) 44 34 create_field
  = (2, field_of [120; 44; 34; 10], [])
  /\ read_next_field (written_field 44 34 [120; 44; 34; 10] ++ [byte NL])
       44 34 create_field
     = (2, field_of [120; 44; 34; 10], [])
  /\ (forall rest,
        read_next_field
          (written_field 44 34 [120; 44; 34; 10] ++ byte 44 :: rest)
          44 34 create_field
        = (0, field_of [120; 44; 34; 10], rest))
  /\ (forall y rest, to_char y <> EOF ->
        read_next_field
          (written_field 44 34 [120; 44; 34; 10] ++ byte NL :: y :: rest)
          44 34 create_field
        = (1, field_of [120; 44; 34; 10], y :: rest)).
Proof.
  apply (read_next_field_inverts_written_field 44 34 [120; 44; 34; 10]).
  - unfold delims_ok, text_char, NL, EOF; lia.
  - split; [|unfold INT_MAX; simpl; lia]. repeat constructor; unfold EOF; lia.
Defined.

Lemma scan_terminator_skip fd ch skipped fp :
  Forall (fun c => c <> fd /\ c <> NL /\ c <> EOF)
    (ch :: (to_char <$> skipped)) ->
  forall x, scan_terminator (skipped ++ x :: fp) fd ch
            = scan_terminator fp fd (to_char x).
Proof.
  revert ch. induction skipped as [|y sk IH]; intros ch Hsk x;
    inversion Hsk as [|? ? (H1 & H2 & H3) Hsk']; subst;
    rewrite scan_terminator_unfold;
    destruct (Z.eqb_spec ch fd); try done;
    destruct (Z.eqb_spec ch NL); try done;
    destruct (Z.eqb_spec ch EOF); try done.
  cbn [app]. by apply IH.
Qed.

(** X8.  Characters between the closing text delimiter of a quoted field
    and the next field delimiter are ignored: the field is the quoted
    text, of fewer than 2^31 - 1 characters, and the stream is left after
    the delimiter. *)
Theorem read_next_field_ignores_after_closing_quote
    (fd td : Z) (t : list Z) (x : Z) (ignored rest : FILE) (f : CSV_FIELD) :
  delims_ok fd td -> text_ok t ->
  to_char x <> td ->
  Forall (fun c => c <> fd /\ c <> NL /\ c <> EOF)
    (to_char x :: (to_char <$> ignored)) ->
  read_next_field
    (byte td :: escape td t ++ byte td :: x :: ignored ++ byte fd :: rest)
    fd td f
  = (0, field_of t, rest).
Proof.
  intros Hd Ht Hx Hign. pose proof Hd as (Hfd & Htd & _).
  destruct Ht as [Hch Hlen].
  inversion Hign as [|? ? (Hx1 & Hx2 & Hx3) _]; subst.
  unfold read_next_field.
  rewrite read_text_cons. cbv zeta. rewrite to_char_text_char by done.
  destruct Htd as (Ht1 & Ht2 & Ht3).
  destruct (Z.eqb_spec td EOF); [done|]. rewrite Z.eqb_refl. cbn [negb].
  rewrite (read_text_escaped fd td t []) by done.
  cbn [app]. rewrite read_text_cons. cbv zeta.
  rewrite to_char_text_char by done.
  destruct (Z.eqb_spec td EOF); [done|]. rewrite Z.eqb_refl. cbn [negb].
  rewrite read_text_cons. cbv zeta.
  destruct (Z.eqb_spec (to_char x) EOF); [done|].
  destruct (Z.eqb_spec (to_char x) td); [done|].
  cbn [app negb]. cbv iota beta.
  rewrite set_field_written by done.
  rewrite scan_terminator_skip by done.
  rewrite to_char_text_char by done.
  by rewrite scan_terminator_delim.
Qed.

Lemma read_next_field_ignores_after_closing_quote_witness :
  read_next_field
    (byte 34 :: escape 34 [97; 44; 98] ++ byte 34 :: 120 :: [121; 122]
       ++ byte 44 :: [99])
    44 34 create_field
  = (0, field_of [97; 44; 98], [99]).
Proof.
  apply (read_next_field_ignores_after_closing_quote 44 34 [97; 44; 98] 120
           [121; 122] [99]).
  - unfold delims_ok, text_char, NL, EOF; lia.
  - split; [|unfold INT_MAX; simpl; lia]. repeat constructor; unfold EOF; lia.
  - vm_compute; discriminate.
  - repeat constructor; vm_compute; discriminate.
Defined.

(** ** The loader on an arbitrary stream *)

Lemma to_char_range x : char_range (to_char x).
Proof.
  unfold char_range, to_char.
  pose proof (Z.mod_pos_bound (x + 128) 256). lia.
Qed.

Lemma add_char_range tmp c ch :
  Forall char_range tmp -> char_range ch ->
  Forall char_range (add_char tmp c ch).1
  /\ List.length (add_char tmp c ch).1 = S (S c).
Proof.
  intros Htmp Hch. unfold add_char. cbn [fst]. split.
  - apply Forall_insert; [|unfold char_range; lia].
    apply Forall_insert; [|done].
    apply Forall_resize; [unfold char_range; lia|done].
  - by rewrite !length_insert, length_resize.
Qed.

Lemma read_text_range fp fd td in_text esc tmp c ch tmp' rest (k : nat) :
  read_text fp fd td in_text esc tmp c = (ch, tmp', rest) ->
  Forall char_range tmp -> (List.length tmp <= k)%nat -> (c < k)%nat ->
  Forall char_range tmp' /\ (List.length tmp' <= k + List.length fp)%nat.
Proof.
  revert in_text esc tmp c k.
  induction fp as [|x fp IH]; intros in_text esc tmp c k.
  - intros [= <- <- <-] ? ? ?. split; [done|lia].
  - rewrite read_text_cons. cbv zeta. intros H Htmp Hlen Hc.
    assert (Hstop : forall ch0,
              (ch0, tmp, fp) = (ch, tmp', rest) ->
              Forall char_range tmp'
              /\ (List.length tmp' <= k + List.length (x :: fp))%nat).
    { intros ? [= <- <- <-]. split; [done|simpl; lia]. }
    assert (Hgo : forall in_text esc c,
              (c < k)%nat ->
              read_text fp fd td in_text esc tmp c = (ch, tmp', rest) ->
              Forall char_range tmp'
              /\ (List.length tmp' <= k + List.length (x :: fp))%nat).
    { intros ? ? c0 Hc0 H0. destruct (IH _ _ _ _ k H0) as [? ?]; try done.
      split; [done|simpl; lia]. }
    assert (Hadd : forall in_text esc,
              (let '(tmp0, c0) := add_char tmp c (to_char x) in
               read_text fp fd td in_text esc tmp0 c0) = (ch, tmp', rest) ->
              Forall char_range tmp'
              /\ (List.length tmp' <= k + List.length (x :: fp))%nat).
    { intros ? ? H0.
      destruct (add_char_range tmp c (to_char x) Htmp (to_char_range x))
        as [Hr Hl].
      destruct (add_char tmp c (to_char x)) as [tmp0 c0] eqn:Ha.
      assert (c0 = S c) as -> by (unfold add_char in Ha; congruence).
      cbn [fst] in Hr, Hl.
      destruct (IH _ _ _ _ (S k) H0) as [? ?]; try done; try lia.
      split; [done|simpl; lia]. }
    destruct (to_char x =? EOF); [by apply Hstop in H|].
    destruct in_text; cbn [negb] in H.
    + destruct esc.
      * destruct (to_char x =? td); [by apply Hadd in H|by apply Hstop in H].
      * destruct (to_char x =? td); [by apply Hgo in H|by apply Hadd in H].
    + destruct (to_char x =? td); [apply Hgo in H; [done|lia]|].
      destruct (to_char x =? fd); [by apply Hstop in H|].
      destruct (to_char x =? NL); [by apply Hstop in H|].
      by apply Hadd in H.
Qed.

Lemma cstr_range s :
  Forall char_range s ->
  Forall is_char (cstr s) /\ (List.length (cstr s) <= List.length s)%nat.
Proof.
  induction 1 as [|c s Hc _ [IH1 IH2]]; simpl; [by split|].
  destruct (Z.eqb_spec c 0); simpl; [split; [done|lia]|].
  split; [|lia]. constructor; [by split|done].
Qed.

(** The field that [read_next_field] stores is well formed. *)
Lemma read_next_field_field_ok fp fd td f code f' rest :
  read_next_field fp fd td f = (code, f', rest) ->
  Z.of_nat (List.length fp) + 2 < 2 ^ 64 ->
  field_ok f'.
Proof.
  unfold read_next_field.
  destruct (read_text fp fd td false false [0] 0) as [[ch tmp] fp1] eqn:H1.
  destruct (scan_terminator fp1 fd ch) as [cd fp2].
  intros [= <- <- <-] Hlen.
  assert (Forall char_range [0]) as H0
    by (repeat constructor; unfold char_range; lia).
  destruct (read_text_range _ _ _ _ _ _ _ _ _ _ 1%nat H1 H0) as [Hr Hl];
    [simpl; lia|lia|].
  destruct (cstr_range _ Hr) as [Hc Hle].
  unfold field_ok, set_field, strlen. cbn [text length].
  rewrite wrap64_small by lia. split_and!; [done|lia|done].
Qed.

Lemma fields_ok_set_cell b row entry f b' :
  fields_ok b -> field_ok f -> set_cell b row entry f = Some b' ->
  fields_ok b'.
Proof.
  intros Hfs Hf (r & Hr & _ & ->)%set_cell_Some.
  unfold fields_ok. cbn [field with_field].
  apply Forall_insert; [done|]. apply Forall_insert; [|done].
  apply load_Some in Hr as [_ Hr]. by eapply Forall_lookup_1.
Qed.

Lemma fields_ok_appended_row b : fields_ok b -> fields_ok (appended_row b).
Proof.
  intros Hfs. unfold fields_ok. cbn [field appended_row].
  apply Forall_app. split; [done|].
  constructor; [|constructor]. constructor; [|constructor].
  apply create_field_ok.
Qed.

Lemma fields_ok_appended_field b row r :
  fields_ok b -> load (field b) row = Some r ->
  fields_ok (appended_field b row r).
Proof.
  intros Hfs [_ Hr]%load_Some. unfold fields_ok, appended_field.
  cbn [field with_field with_width].
  apply Forall_insert; [done|]. apply Forall_app. split.
  - by eapply Forall_lookup_1.
  - constructor; [|constructor]. apply create_field_ok.
Qed.

Lemma good_appended_row b :
  good b -> rows b + 1 < 2 ^ 61 -> good (appended_row b).
Proof.
  intros [Hb Hall] Hn. split; [by apply appended_row_ok|].
  cbn [width appended_row]. apply Forall_app. split; [done|].
  repeat constructor. lia.
Qed.

Lemma good_appended_field b row r :
  good b -> load (field b) row = Some r ->
  Z.of_nat (List.length r) + 1 <= INT_MAX ->
  good (appended_field b row r).
Proof.
  intros [Hb Hall] Hr Hmax. split; [by apply appended_field_ok|].
  cbn [width appended_field with_width]. apply Forall_insert; [done|]. lia.
Qed.

Lemma load_loop_total bound fuel b fp i j :
  load_inv bound b fp i j -> bound < INT_MAX ->
  field_delim b <> EOF ->
  (List.length fp < fuel)%nat ->
  exists o,
    load_loop fuel false [] b fp i j = Some o
    /\ code o = 0 /\ stream_open o = false
    /\ good (buffer o) /\ fields_ok (buffer o)
    /\ rows b <= rows (buffer o) <= bound
    /\ field_delim (buffer o) = field_delim b
    /\ text_delim (buffer o) = text_delim b.
Proof.
  revert b fp i j.
  induction fuel as [|fuel IH];
    intros b fp i j (Hg & Hfs & Hrows & Hw & Hb1 & Hb2) Hbound Hfd Hfuel;
    [lia|].
  pose proof Hg as [Hb Hall]. pose proof Hb as (Hr & Hlt & HF).
  unfold INT_MAX in Hbound.
  pose proof (good_width _ _ _ Hg Hw) as Hj.
  destruct (buffer_ok_width _ _ _ Hb Hw) as (Hi & _ & r & Hrow & Hjr).
  destruct (lookup_lt_is_Some_2 r (Z.to_nat (j - 1))) as [f Hf]; [lia|].
  assert (Hc : cell b i (j - 1) = Some f).
  { apply cell_Some. exists r. split; [done|].
    apply load_Some. split; [lia|done]. }
  rewrite load_loop_S. rewrite Hc. cbn [mbind option_bind].
  destruct (read_next_field fp (field_delim b) (text_delim b) f)
    as [[cd f'] rest] eqn:Hread.
  destruct (read_next_field_suffix _ _ _ _ _ _ _ Hfd Hread)
    as (Hcd & _ & Hshort).
  pose proof (read_next_field_field_ok _ _ _ _ _ _ _ Hread) as Hf'.
  destruct (set_cell_ok b i (j - 1) f' f Hc) as [b1 Hset].
  rewrite Hset. cbn [mbind option_bind].
  pose proof (good_set_cell _ _ _ _ _ Hg Hset) as Hg1.
  pose proof (fields_ok_set_cell _ _ _ _ _ Hfs (Hf' ltac:(lia)) Hset) as Hfs1.
  destruct (set_cell_buffer_ok _ _ _ _ _ Hb Hset)
    as (Hb1' & Hrows1 & Hw1 & Hfd1 & Htd1).
  destruct Hcd as [->|[->| ->]].
  - (* another field of the row *)
    specialize (Hshort ltac:(lia)).
    change (0 =? 2) with false. change (0 =? 1) with false. cbv iota.
    rewrite wrap64_small by lia.
    destruct (buffer_ok_in_range b1 i Hb1') as [r1 Hr1]; [lia|].
    destruct (buffer_ok_row _ _ _ Hb1' Hr1) as (_ & Hwr1 & _).
    rewrite Hw1, Hw in Hwr1.
    assert (Hjr1 : j = Z.of_nat (List.length r1)) by congruence.
    rewrite (append_field_ok _ _ r1) by done.
    destruct (Z.leb_spec (Z.of_nat (List.length r1) + 1) INT_MAX);
      [|unfold INT_MAX in *; lia].
    cbn [mbind option_bind]. change (negb (0 =? 0)) with false. cbv iota.
    destruct (IH (appended_field b1 i r1) rest i (j + 1)) as (o & Ho & Hrest);
      [|unfold INT_MAX; lia|cbn; congruence|lia|].
    { split_and!.
      - by apply good_appended_field.
      - by apply fields_ok_appended_field.
      - cbn [rows appended_field with_width with_field]. lia.
      - rewrite width_appended_field by done. f_equal. lia.
      - cbn [rows appended_field with_width with_field]. lia.
      - lia. }
    exists o. split; [done|].
    destruct Hrest as (? & ? & ? & ? & Hro & Hd1 & Hd2).
    cbn [rows field_delim text_delim appended_field with_width with_field]
      in Hro, Hd1, Hd2.
    split_and!; try done; try congruence; lia.
  - (* a new row *)
    specialize (Hshort ltac:(lia)).
    change (1 =? 2) with false. change (1 =? 1) with true. cbv iota.
    rewrite append_row_ok by done.
    destruct (Z.ltb_spec (rows b1 + 1) (2 ^ 61)); [|lia].
    cbn [mbind option_bind]. change (negb (0 =? 0)) with false. cbv iota.
    destruct (IH (appended_row b1) rest (i + 1) 1) as (o & Ho & Hrest);
      [|unfold INT_MAX; lia|cbn; congruence|lia|].
    { split_and!.
      - by apply good_appended_row.
      - by apply fields_ok_appended_row.
      - cbn [rows appended_row]. lia.
      - cbn [width appended_row].
        pose proof HF as Hlen%Forall2_length.
        replace (i + 1) with (Z.of_nat (List.length (width b1)))
          by (rewrite Hw1; lia).
        by rewrite load_nat, lookup_app_r, Nat.sub_diag by lia.
      - cbn [rows appended_row]. lia.
      - lia. }
    exists o. split; [done|].
    destruct Hrest as (? & ? & ? & ? & Hro & Hd1 & Hd2).
    cbn [rows field_delim text_delim appended_row] in Hro, Hd1, Hd2.
    split_and!; try done; try congruence; lia.
  - (* the end of the stream *)
    change (2 =? 2) with true. cbv iota.
    eexists. split; [done|]. cbn [code stream_open buffer].
    split_and!; try done; lia.
Qed.

(** X10.  The loader accepts every stream: on an empty well-formed buffer
    whose field delimiter is not the [EOF] character, [csv_load] of any
    file of fewer than 2^31 - 3 bytes returns 0 with the stream closed, and
    the buffer it leaves is well formed, has at least one row and at most
    one more row than the file has bytes, and no row without a field. *)
Theorem csv_load_accepts_every_stream (b : CSV_BUFFER) (s : FILE) :
  buffer_ok b -> rows b = 0 ->
  field_delim b <> EOF ->
  Z.of_nat (List.length s) + 3 < 2 ^ 31 ->
  exists o,
    csv_load [] b (Some s) = Some o
    /\ code o = 0 /\ stream_open o = false
    /\ buffer_ok (buffer o) /\ fields_ok (buffer o) /\ width_inv (buffer o)
    /\ 1 <= rows (buffer o) <= Z.of_nat (List.length s) + 1.
Proof.
  intros Hb Hrows Hfd Hlen. pose proof Hb as (Hr & Hlt & HF).
  assert (Hf0 : field b = []) by (destruct (field b); [done|simpl in *; lia]).
  assert (Hw0 : width b = []).
  { rewrite Hf0 in HF. by inversion HF. }
  unfold csv_load. rewrite load_loop_S. cbn [mbind option_bind].
  change (1 =? 2) with false. change (1 =? 1) with true. cbv iota.
  rewrite append_row_ok by done.
  destruct (Z.ltb_spec (rows b + 1) (2 ^ 61)); [|lia].
  cbn [mbind option_bind]. change (negb (0 =? 0)) with false. cbv iota.
  destruct (load_loop_total (Z.of_nat (List.length s) + 1)
              (S (List.length s)) (appended_row b) s (-1 + 1) 1)
    as (o & Ho & Hc & Hs & Hg & Hfs & Hle & _);
    [|unfold INT_MAX; lia|done|lia|].
  { assert (Hg0 : good b) by (split; [done|rewrite Hw0; constructor]).
    split_and!.
    - apply good_appended_row; [done|lia].
    - apply fields_ok_appended_row. unfold fields_ok. rewrite Hf0. constructor.
    - cbn [rows appended_row]. lia.
    - cbn [width appended_row]. by rewrite Hw0.
    - cbn [rows appended_row]. lia.
    - lia. }
  exists o. split; [done|]. destruct Hg as [Hbo Hall].
  cbn [rows appended_row] in Hle.
  split_and!; try done; try lia.
  by apply width_inv_Forall.
Qed.

Lemma csv_load_accepts_every_stream_witness :
  exists o,
    csv_load [] csv_create_buffer (Some [34; 97; 10; 44; 255; 98]) = Some o
    /\ code o = 0 /\ stream_open o = false
    /\ buffer_ok (buffer o) /\ fields_ok (buffer o) /\ width_inv (buffer o)
    /\ 1 <= rows (buffer o)
       <= Z.of_nat (List.length [34; 97; 10; 44; 255; 98]) + 1.
Proof.
  apply (csv_load_accepts_every_stream csv_create_buffer
           [34; 97; 10; 44; 255; 98]).
  - repeat split; try done; constructor.
  - reflexivity.
  - discriminate.
  - simpl; lia.
Defined.

(** ** The final newline *)









(** ** Buffers as tables *)

Lemma text_fine_field_of t : text_fine t -> field_ok (field_of t).
Proof. intros [Hch Hlen]. by split_and!. Qed.

Lemma buffer_of_fine fd td c :
  table_fine c -> buffer_ok (buffer_of fd td c) /\ fields_ok (buffer_of fd td c).
Proof.
  intros [Hs Hts]. split; [by apply buffer_of_sized|].
  unfold fields_ok; simpl. apply Forall_fmap.
  eapply Forall_impl; [exact Hts|].
  intros r Hr. apply Forall_fmap.
  eapply Forall_impl; [exact Hr|]. apply text_fine_field_of.
Qed.

Lemma table_fine_cells b :
  buffer_ok b -> fields_ok b -> table_fine (cells b).
Proof.
  intros (Hrows & Hlt & HF) Hfs. split.
  - split; [unfold cells; rewrite length_map; lia|].
    unfold cells. apply Forall_fmap. apply Forall_lookup_2. intros i r Hr.
    destruct (Forall2_lookup_l _ _ _ _ _ HF Hr) as (w & Hw & -> & Hmax).
    simpl. by rewrite length_map.
  - unfold cells. apply Forall_fmap.
    eapply Forall_impl; [exact Hfs|]. intros r Hr. simpl.
    apply Forall_fmap. eapply Forall_impl; [exact Hr|].
    intros f (Hlen & Hl64 & Hch). simpl. split; [done|lia].
Qed.

Lemma width_inv_cells b :
  buffer_ok b -> width_inv b -> Forall (fun r => r <> []) (cells b).
Proof.
  intros Hb Hinv. apply (width_inv_Forall _ Hb) in Hinv.
  destruct Hb as (_ & _ & HF).
  unfold cells. apply Forall_fmap. apply Forall_lookup_2. intros i r Hr.
  destruct (Forall2_lookup_l _ _ _ _ _ HF Hr) as (w & Hw & -> & _).
  pose proof (Forall_lookup_1 _ _ _ _ Hinv Hw) as H1. simpl in *.
  destruct r; [simpl in H1; lia|done].
Qed.

(** ** The format that [csv_save] writes *)

Lemma save_fields_fine fd td c i r pre suf t out :
  table_fine c -> fd <> 0 -> td <> 0 ->
  c !! i = Some r -> r = pre ++ t :: suf ->
  save_fields (S (List.length suf)) (buffer_of fd td c) (Z.of_nat i)
    (Z.of_nat (List.length pre)) out
  = Some (out ++ written_row fd td (t :: suf)
          ++ (if Z.of_nat i <? Z.of_nat (List.length c) - 1
              then [byte NL] else [])).
Proof.
  intros Hc Hfd Htd Hi. destruct (buffer_of_fine fd td c Hc) as [Hb Hfs].
  assert (Hr : load (field (buffer_of fd td c)) (Z.of_nat i)
               = Some (field_of <$> r)).
  { rewrite load_nat. simpl. by rewrite list_lookup_fmap, Hi. }
  assert (Hok : forall pre t suf, r = pre ++ t :: suf -> field_ok (field_of t)).
  { intros pre0 t0 suf0 ->. apply text_fine_field_of.
    destruct Hc as [_ Hc]. pose proof (Forall_lookup_1 _ _ _ _ Hc Hi) as Hr'.
    apply Forall_app in Hr' as [_ Hr']. by inversion Hr'. }
  revert pre t out. induction suf as [|t2 suf IH]; intros pre t out Heq.
  - cbn [List.length save_fields].
    rewrite (save_field_ok _ _ _ _ _ (field_of t) Hb Hr); try done.
    + cbn [mbind option_bind field_delim text_delim buffer_of rows text field_of].
      rewrite length_fmap, Heq, length_app. cbn [List.length].
      destruct (Z.ltb_spec (Z.of_nat (List.length pre))
                  (Z.of_nat (List.length pre + 1) - 1)); [lia|].
      cbn [written_row]. rewrite (app_nil_r (written_field fd td t)). done.
    + rewrite Heq.
      rewrite load_nat, list_lookup_fmap, lookup_app_r, Nat.sub_diag by lia.
      done.
    + by eapply Hok.
  - cbn [List.length]. change (save_fields (S (S (List.length suf))) ?b ?i ?j ?o)
      with (save_field b i j o ≫= save_fields (S (List.length suf)) b i (j + 1)).
    rewrite (save_field_ok _ _ _ _ _ (field_of t) Hb Hr); try done.
    + cbn [mbind option_bind field_delim text_delim buffer_of rows text field_of].
      rewrite length_fmap, Heq, length_app. cbn [List.length].
      destruct (Z.ltb_spec (Z.of_nat (List.length pre))
                  (Z.of_nat (List.length pre + S (S (List.length suf))) - 1));
        [|lia].
      replace (Z.of_nat (List.length pre) + 1)
        with (Z.of_nat (List.length (pre ++ [t])))
        by (rewrite length_app; simpl; lia).
      rewrite (IH (pre ++ [t]) t2)
        by (rewrite Heq, <- app_assoc; reflexivity).
      rewrite (written_row_cons fd td t t2 suf).
      rewrite <- !app_assoc. reflexivity.
    + rewrite Heq.
      rewrite load_nat, list_lookup_fmap, lookup_app_r, Nat.sub_diag by lia.
      done.
    + by eapply Hok.
Qed.

Lemma save_rows_fine fd td c cpre csuf out :
  table_fine c -> Forall (fun r => r <> []) c -> fd <> 0 -> td <> 0 ->
  c = cpre ++ csuf ->
  save_rows (List.length csuf) (buffer_of fd td c)
    (Z.of_nat (List.length cpre)) out
  = Some (out ++ written_rows fd td csuf).
Proof.
  intros Hc Hne Hfd Htd. revert cpre out.
  induction csuf as [|r csuf IH]; intros cpre out Heq.
  - simpl. by rewrite app_nil_r.
  - cbn [List.length save_rows].
    assert (Hi : c !! List.length cpre = Some r).
    { subst c. by rewrite lookup_app_r, Nat.sub_diag by lia. }
    rewrite load_nat. cbn [width buffer_of]. rewrite list_lookup_fmap, Hi.
    cbn [fmap option_fmap option_map mbind option_bind].
    rewrite Nat2Z.id.
    pose proof (Forall_lookup_1 _ _ _ _ Hne Hi) as Hr1.
    destruct r as [|t r]; [done|].
    cbn [List.length].
    rewrite (save_fields_fine fd td c (List.length cpre) (t :: r) [] r t);
      try done.
    cbn [mbind option_bind].
    replace (Z.of_nat (List.length cpre) + 1)
      with (Z.of_nat (List.length (cpre ++ [t :: r])))
      by (rewrite length_app; simpl; lia).
    rewrite IH by (subst c; rewrite <- app_assoc; reflexivity).
    f_equal. rewrite <- !app_assoc. f_equal.
    subst c. rewrite !length_app. cbn [List.length].
    destruct csuf as [|r2 csuf]; cbn [List.length];
      match goal with |- context [?x <? ?y] => destruct (Z.ltb_spec x y) end;
      try lia.
    + cbn [written_rows]. by rewrite !app_nil_r.
    + rewrite written_rows_cons. reflexivity.
Qed.

(** X9.  The format of [csv_save]: for a well-formed buffer without empty
    rows and NUL delimiters aside, the bytes written are the rows separated
    by newlines with none after the last, the fields of a row separated by
    the field delimiter, and each field either verbatim or, when it holds
    a text delimiter, a field delimiter or a newline, wrapped in text
    delimiters with every text delimiter inside doubled. *)
Theorem csv_save_format (b : CSV_BUFFER) :
  buffer_ok b -> fields_ok b -> width_inv b ->
  field_delim b <> 0 -> text_delim b <> 0 ->
  csv_save true b
  = Some (0, written_rows (field_delim b) (text_delim b) (cells b)).
Proof.
  intros Hb Hfs Hinv Hfd Htd.
  pose proof (table_fine_cells _ Hb Hfs) as Hc.
  pose proof (width_inv_cells _ Hb Hinv) as Hne.
  rewrite (buffer_of_cells b Hb Hfs) at 1.
  unfold csv_save. cbn [negb rows buffer_of]. rewrite Nat2Z.id.
  pose proof (save_rows_fine (field_delim b) (text_delim b) (cells b) []
                (cells b) [] Hc Hne Hfd Htd eq_refl) as H.
  cbn [List.length app] in H. change (Z.of_nat 0) with 0 in H.
  by rewrite H.
Qed.

Lemma csv_save_format_witness :
  csv_save true quoting_buffer
  = Some (0, written_rows (field_delim quoting_buffer)
               (text_delim quoting_buffer) (cells quoting_buffer)).
Proof.
  apply (csv_save_format quoting_buffer).
  - repeat split; try done. repeat constructor; done.
  - repeat constructor; unfold is_char; simpl; lia.
  - intros row Hrow. simpl in Hrow.
    destruct (Z.eq_dec row 0) as [->|]; [exists 2; split; [reflexivity|lia]|].
    assert (row = 1) as -> by lia. exists 1; split; [reflexivity|lia].
  - discriminate.
  - discriminate.
Defined.

(** ** The mutators on tables *)

Lemma load_field_of fd td c i :
  load (field (buffer_of fd td c)) (Z.of_nat i) = fmap (M:=list) field_of <$> c !! i.
Proof. rewrite load_nat. simpl. by rewrite list_lookup_fmap. Qed.

Lemma load_width_of fd td c i :
  load (width (buffer_of fd td c)) (Z.of_nat i)
  = (fun r => Z.of_nat (List.length r)) <$> c !! i.
Proof. rewrite load_nat. simpl. by rewrite list_lookup_fmap. Qed.

Lemma buffer_of_insert fd td c i r :
  with_width
    (with_field (buffer_of fd td c)
       (<[i := field_of <$> r]> (field (buffer_of fd td c))))
    (<[i := Z.of_nat (List.length r)]> (width (buffer_of fd td c)))
  = buffer_of fd td (<[i := r]> c).
Proof.
  unfold with_width, with_field, buffer_of. cbn [field width rows field_delim text_delim].
  rewrite !list_fmap_insert, length_insert. done.
Qed.

Lemma store_field_of fd td c i (r : list CSV_FIELD) x :
  c !! i = Some x ->
  store (field (buffer_of fd td c)) (Z.of_nat i) r
  = Some (<[i := r]> (field (buffer_of fd td c))).
Proof.
  intros Hi%lookup_lt_Some. rewrite store_nat; [done|].
  simpl. by rewrite length_map.
Qed.

Lemma store_width_of fd td c i w x :
  c !! i = Some x ->
  store (width (buffer_of fd td c)) (Z.of_nat i) w
  = Some (<[i := w]> (width (buffer_of fd td c))).
Proof.
  intros Hi%lookup_lt_Some. rewrite store_nat; [done|].
  simpl. by rewrite length_map.
Qed.

Lemma cell_of fd td c i j :
  cell (buffer_of fd td c) (Z.of_nat i) (Z.of_nat j)
  = field_of <$> (c !! i ≫= (.!! j)).
Proof.
  unfold cell. rewrite load_field_of.
  destruct (c !! i) as [r|]; [|done]. simpl.
  by rewrite load_nat, list_lookup_fmap.
Qed.

Lemma set_cell_of fd td c i j r x t :
  c !! i = Some r -> r !! j = Some x ->
  set_cell (buffer_of fd td c) (Z.of_nat i) (Z.of_nat j) (field_of t)
  = Some (buffer_of fd td (<[i := <[j := t]> r]> c)).
Proof.
  intros Hi Hj. unfold set_cell. rewrite load_field_of, Hi. simpl.
  rewrite store_nat by (rewrite length_fmap; by eapply lookup_lt_Some).
  simpl.
  rewrite store_nat by (rewrite length_map; by eapply lookup_lt_Some).
  simpl. f_equal. unfold with_field, buffer_of. simpl.
  change (map (map field_of)) with (fmap (M:=list) (fmap (M:=list) field_of)).
  change (map (fun r0 : list (list Z) => Z.of_nat (List.length r0)))
    with (fmap (M:=list) (fun r0 : list (list Z) => Z.of_nat (List.length r0))).
  rewrite !list_fmap_insert, length_insert. f_equal.
  symmetry. apply list_insert_id.
  rewrite list_lookup_fmap, Hi. simpl. by rewrite length_insert.
Qed.

Lemma set_field_fine f t :
  text_fine (cstr t) -> set_field f t = field_of (cstr t).
Proof.
  intros [_ Hlen]. unfold set_field, field_of, strlen.
  by rewrite wrap64_small by lia.
Qed.

Lemma sized_lookup c i r :
  sized c -> c !! i = Some r ->
  Z.of_nat i < Z.of_nat (List.length c) < 2 ^ 61
  /\ Z.of_nat (List.length r) <= INT_MAX.
Proof.
  intros [Hlen Hrows] Hi. pose proof (lookup_lt_Some _ _ _ Hi).
  split; [lia|]. by apply (Forall_lookup_1 _ _ _ _ Hrows Hi).
Qed.

Lemma table_fine_insert c i r :
  table_fine c -> Z.of_nat (List.length r) <= INT_MAX -> Forall text_fine r ->
  table_fine (<[i := r]> c).
Proof.
  intros [[Hlen Hrows] Hts] Hr Hrt. split; [split|].
  - by rewrite length_insert.
  - by apply Forall_insert.
  - by apply Forall_insert.
Qed.

Lemma table_fine_row c i r :
  table_fine c -> c !! i = Some r ->
  Z.of_nat (List.length r) <= INT_MAX /\ Forall text_fine r.
Proof.
  intros [Hs Hts] Hi. split; [by eapply sized_lookup|].
  by apply (Forall_lookup_1 _ _ _ _ Hts Hi).
Qed.

Lemma text_fine_nil : text_fine [].
Proof. split; [constructor|simpl; lia]. Qed.

(** A result on the buffer of a table is a result on every well-formed
    buffer with these cells. *)
Lemma via_table (op : CSV_BUFFER -> option (Z * CSV_BUFFER)) b code c' :
  buffer_ok b -> fields_ok b ->
  op (buffer_of (field_delim b) (text_delim b) (cells b))
  = Some (code, buffer_of (field_delim b) (text_delim b) c') ->
  table_fine c' ->
  exists b', op b = Some (code, b')
    /\ buffer_ok b' /\ fields_ok b' /\ cells b' = c'
    /\ field_delim b' = field_delim b /\ text_delim b' = text_delim b.
Proof.
  intros Hb Hfs Hop Hc'. rewrite <- (buffer_of_cells b Hb Hfs) in Hop.
  eexists. split; [exact Hop|].
  destruct (buffer_of_fine (field_delim b) (text_delim b) c' Hc') as [? ?].
  split_and!; try done. apply cells_buffer_of.
Qed.

Lemma clear_field_with_table rlf fd td c i j r x :
  table_fine c -> c !! i = Some r -> r !! j = Some x ->
  j = 0%nat \/ j <> (List.length r - 1)%nat ->
  csv_clear_field_with rlf (buffer_of fd td c) (Z.of_nat i) (Z.of_nat j)
  = Some (0, buffer_of fd td (<[i := <[j := []]> r]> c)).
Proof.
  intros Hc Hi Hj Hlast.
  destruct (sized_lookup _ _ _ (proj1 Hc) Hi) as [Hlt Hmax].
  unfold INT_MAX in Hmax. pose proof (lookup_lt_Some _ _ _ Hj) as Hjlt.
  unfold csv_clear_field_with. cbn [rows buffer_of].
  rewrite wrap64_small by lia.
  destruct (Z.ltb_spec (Z.of_nat (List.length c)) (Z.of_nat i + 1)); [lia|].
  rewrite load_width_of, Hi.
  cbn [fmap option_fmap option_map mbind option_bind].
  rewrite !wrap64_small by lia.
  destruct (Z.ltb_spec (Z.of_nat (List.length r)) (Z.of_nat j + 1)); [lia|].
  replace ((Z.of_nat j =? Z.of_nat (List.length r) - 1)
           && negb (Z.of_nat j =? 0)) with false.
  2:{ symmetry. apply andb_false_iff. destruct Hlast as [->|Hne].
      - right. reflexivity.
      - left. apply Z.eqb_neq. lia. }
  rewrite cell_of, Hi.
  cbn [fmap option_fmap option_map mbind option_bind]. rewrite Hj.
  cbn [fmap option_fmap option_map mbind option_bind].
  change (set_field (field_of x) [0]) with (field_of []).
  by rewrite (set_cell_of fd td c i j r x).
Qed.

Lemma remove_last_field_table fd td c i r :
  table_fine c -> c !! i = Some r ->
  remove_last_field (buffer_of fd td c) (Z.of_nat i)
  = Some (match r with [] => 1 | _ => 0 end,
          buffer_of fd td
            (<[i := match r with
                    | [] => []
                    | [_] => [[]]
                    | _ => take (List.length r - 1) r
                    end]> c)).
Proof.
  intros Hc Hi. destruct (sized_lookup _ _ _ (proj1 Hc) Hi) as [Hlt Hmax].
  unfold INT_MAX in Hmax.
  unfold remove_last_field. cbn [rows buffer_of].
  rewrite wrap64_small by lia.
  destruct (Z.ltb_spec (Z.of_nat (List.length c) - 1) (Z.of_nat i)); [lia|].
  rewrite load_width_of, Hi. cbn [fmap option_fmap option_map mbind option_bind].
  destruct r as [|x [|y r]].
  - cbn [List.length]. change (Z.of_nat 0 =? 0) with true. cbv iota.
    by rewrite list_insert_id.
  - cbn [List.length]. change (Z.of_nat 1 =? 0) with false.
    change (Z.of_nat 1 =? 1) with true. cbv iota.
    pose proof (clear_field_with_table (fun _ _ => None) fd td c i 0 [x] x
                  Hc Hi eq_refl (or_introl eq_refl)) as E.
    change (Z.of_nat 0) with 0 in E. rewrite E. done.
  - set (r0 := x :: y :: r) in *.
    assert (Hl : (2 <= List.length r0)%nat) by (simpl; lia).
    destruct (Z.eqb_spec (Z.of_nat (List.length r0)) 0); [lia|].
    destruct (Z.eqb_spec (Z.of_nat (List.length r0)) 1); [lia|].
    rewrite load_field_of, Hi.
    cbn [fmap option_fmap option_map mbind option_bind].
    rewrite wrap64_small by lia.
    replace (Z.of_nat (List.length r0) - 1)
      with (Z.of_nat (List.length r0 - 1)) by lia.
    rewrite load_nat, list_lookup_fmap.
    destruct (lookup_lt_is_Some_2 r0 (List.length r0 - 1)) as [z Hz]; [lia|].
    rewrite Hz. cbn [fmap option_fmap option_map mbind option_bind].
    rewrite realloc_Some by lia. cbn [mbind option_bind].
    rewrite Nat2Z.id.
    rewrite resize_le by (rewrite length_fmap; lia).
    rewrite (store_field_of _ _ _ _ _ r0) by done. cbn [mbind option_bind].
    rewrite (store_width_of _ _ _ _ _ r0) by done. cbn [mbind option_bind].
    do 2 f_equal. rewrite <- fmap_take.
    rewrite <- buffer_of_insert. rewrite length_take.
    do 2 f_equal. lia.
Qed.

(** X11.  [remove_last_field] on a row that exists never leaves it
    without a field: a row of one field has that field emptied, a longer
    row loses its last field; the other rows are untouched. *)
Theorem remove_last_field_shortens_or_clears
    (b : CSV_BUFFER) (i : nat) (r : list (list Z)) :
  buffer_ok b -> fields_ok b ->
  cells b !! i = Some r -> r <> [] ->
  exists b',
    remove_last_field b (Z.of_nat i) = Some (0, b')
    /\ buffer_ok b' /\ fields_ok b'
    /\ cells b'
       = <[i := if decide (List.length r = 1%nat) then [[]]
                else take (List.length r - 1) r]> (cells b).
Proof.
  intros Hb Hfs Hi Hr. pose proof (table_fine_cells _ Hb Hfs) as Hc.
  destruct (table_fine_row _ _ _ Hc Hi) as [Hmax Hrt].
  destruct (via_table (fun b => remove_last_field b (Z.of_nat i)) b 0
              (<[i := if decide (List.length r = 1%nat) then [[]]
                      else take (List.length r - 1) r]> (cells b)) Hb Hfs)
    as (b' & ? & ? & ? & ? & _).
  - rewrite (remove_last_field_table _ _ _ _ r) by done.
    destruct r as [|x [|y r]]; [done| |]; by case_decide.
  - apply table_fine_insert; [done| |].
    + case_decide; [by unfold INT_MAX|]. rewrite length_take. lia.
    + case_decide; [repeat constructor; apply text_fine_nil|].
      by apply Forall_take.
  - eauto.
Qed.

Lemma remove_last_field_shortens_or_clears_witness :
  exists b',
    remove_last_field sample_buffer (Z.of_nat 0) = Some (0, b')
    /\ buffer_ok b' /\ fields_ok b'
    /\ cells b'
       = <[0%nat := if decide (List.length [[97]; [98]] = 1%nat) then [[]]
                    else take (List.length [[97]; [98]] - 1) [[97]; [98]]]>
           (cells sample_buffer).
Proof.
  apply (remove_last_field_shortens_or_clears sample_buffer 0 [[97]; [98]]).
  - apply sample_buffer_ok.
  - repeat constructor; unfold is_char; simpl; lia.
  - reflexivity.
  - discriminate.
Defined.

Lemma clear_field_with_last rlf fd td c i j r :
  table_fine c -> c !! i = Some r ->
  j <> 0%nat -> j = (List.length r - 1)%nat ->
  csv_clear_field_with rlf (buffer_of fd td c) (Z.of_nat i) (Z.of_nat j)
  = '(_, b') ← rlf (buffer_of fd td c) (Z.of_nat i); Some (0, b').
Proof.
  intros Hc Hi Hj0 Hj.
  destruct (sized_lookup _ _ _ (proj1 Hc) Hi) as [Hlt Hmax].
  unfold INT_MAX in Hmax.
  unfold csv_clear_field_with. cbn [rows buffer_of].
  rewrite wrap64_small by lia.
  destruct (Z.ltb_spec (Z.of_nat (List.length c)) (Z.of_nat i + 1)); [lia|].
  rewrite load_width_of, Hi.
  cbn [fmap option_fmap option_map mbind option_bind].
  rewrite !wrap64_small by lia.
  destruct (Z.ltb_spec (Z.of_nat (List.length r)) (Z.of_nat j + 1)); [lia|].
  destruct (Z.eqb_spec (Z.of_nat j) (Z.of_nat (List.length r) - 1)); [|lia].
  destruct (Z.eqb_spec (Z.of_nat j) 0); [lia|]. done.
Qed.

Lemma csv_clear_field_table fd td c i j r x :
  table_fine c -> c !! i = Some r -> r !! j = Some x ->
  csv_clear_field (buffer_of fd td c) (Z.of_nat i) (Z.of_nat j)
  = Some (0, buffer_of fd td
               (<[i := if decide (j <> 0%nat /\ j = (List.length r - 1)%nat)
                       then take j r else <[j := []]> r]> c)).
Proof.
  intros Hc Hi Hj. unfold csv_clear_field. case_decide as Hd.
  - destruct Hd as [Hj0 Hjl].
    rewrite (clear_field_with_last _ fd td c i j r) by done.
    rewrite (remove_last_field_table fd td c i r) by done.
    destruct r as [|y [|z r]]; [done|simpl in Hjl; lia|].
    cbn [mbind option_bind]. by rewrite <- Hjl.
  - apply (clear_field_with_table _ fd td c i j r x); try done.
    destruct (decide (j = 0%nat)); [by left|right]. tauto.
Qed.

(** X12.  [csv_clear_field] on a cell that exists empties its text, unless
    the cell is the last of a row of several fields, which then loses it;
    all other cells are untouched. *)
Theorem csv_clear_field_clears_or_removes
    (b : CSV_BUFFER) (i j : nat) (r : list (list Z)) (x : list Z) :
  buffer_ok b -> fields_ok b ->
  cells b !! i = Some r -> r !! j = Some x ->
  exists b',
    csv_clear_field b (Z.of_nat i) (Z.of_nat j) = Some (0, b')
    /\ buffer_ok b' /\ fields_ok b'
    /\ cells b'
       = <[i := if decide (j <> 0%nat /\ j = (List.length r - 1)%nat)
                then take j r else <[j := []]> r]> (cells b).
Proof.
  intros Hb Hfs Hi Hj. pose proof (table_fine_cells _ Hb Hfs) as Hc.
  destruct (table_fine_row _ _ _ Hc Hi) as [Hmax Hrt].
  destruct (via_table (fun b => csv_clear_field b (Z.of_nat i) (Z.of_nat j))
              b 0
              (<[i := if decide (j <> 0%nat /\ j = (List.length r - 1)%nat)
                      then take j r else <[j := []]> r]> (cells b)) Hb Hfs)
    as (b' & ? & ? & ? & ? & _).
  - by apply (csv_clear_field_table _ _ _ _ _ r x).
  - apply table_fine_insert; [done| |].
    + case_decide; [rewrite length_take; lia|by rewrite length_insert].
    + case_decide; [by apply Forall_take|].
      apply Forall_insert; [done|apply text_fine_nil].
  - eauto.
Qed.

Lemma csv_clear_field_clears_or_removes_witness :
  exists b',
    csv_clear_field sample_buffer (Z.of_nat 0) (Z.of_nat 1) = Some (0, b')
    /\ buffer_ok b' /\ fields_ok b'
    /\ cells b'
       = <[0%nat := if decide (1%nat <> 0%nat
                               /\ 1%nat = (List.length [[97]; [98]] - 1)%nat)
                    then take 1 [[97]; [98]] else <[1%nat := []]> [[97]; [98]]]>
           (cells sample_buffer).
Proof.
  apply (csv_clear_field_clears_or_removes sample_buffer 0 1 [[97]; [98]] [98]).
  - apply sample_buffer_ok.
  - repeat constructor; unfold is_char; simpl; lia.
  - reflexivity.
  - reflexivity.
Defined.

Lemma sample_table_fine : table_fine sample_table.
Proof.
  split; [split|].
  - simpl. lia.
  - repeat constructor; unfold INT_MAX; simpl; lia.
  - repeat constructor; unfold is_char; simpl; lia.
Qed.

Lemma sample_table_ok :
  buffer_ok (buffer_of 44 34 sample_table)
  /\ fields_ok (buffer_of 44 34 sample_table).
Proof. apply buffer_of_fine, sample_table_fine. Qed.

Lemma to_int_pred w :
  0 <= w <= INT_MAX -> to_int (wrap64 (w - 1)) = w - 1.
Proof.
  unfold INT_MAX. intros Hw. destruct (Z.eq_dec w 0) as [->|Hne].
  - reflexivity.
  - rewrite wrap64_small by lia. apply to_int_small. lia.
Qed.

Lemma remove_fields_table n fd td c i r :
  table_fine c -> c !! i = Some r ->
  exists r',
    remove_fields n (buffer_of fd td c) (Z.of_nat i)
    = Some (buffer_of fd td (<[i := r']> c))
    /\ table_fine (<[i := r']> c).
Proof.
  revert c r. induction n as [|n IH]; intros c r Hc Hi.
  - exists r. simpl. rewrite list_insert_id by done. done.
  - cbn [remove_fields].
    rewrite (remove_last_field_table fd td c i r) by done.
    cbn [mbind option_bind].
    destruct (table_fine_row _ _ _ Hc Hi) as [Hmax Hrt].
    set (r1 := match r with
               | [] => []
               | [_] => [[]]
               | _ :: _ :: _ => take (List.length r - 1) r
               end).
    assert (Hc1 : table_fine (<[i := r1]> c)).
    { apply table_fine_insert; [done| |]; subst r1.
      - destruct r as [|x [|y r]]; [done|by unfold INT_MAX|].
        rewrite length_take. lia.
      - destruct r as [|x [|y r]]; [done| |].
        + repeat constructor; apply text_fine_nil.
        + by apply Forall_take. }
    destruct (IH (<[i := r1]> c) r1 Hc1) as (r' & Hr' & Hf').
    { apply list_lookup_insert_eq. by eapply lookup_lt_Some. }
    exists r'. rewrite list_insert_insert_eq in Hr', Hf'. done.
Qed.

Lemma remove_last_row_table fd td c :
  table_fine c ->
  (2 <= List.length c)%nat -> Z.of_nat (List.length c) <= 2 ^ 31 ->
  remove_last_row (buffer_of fd td c)
  = Some (0, buffer_of fd td (take (List.length c - 1) c)).
Proof.
  intros Hc H2 H31. pose proof (proj1 (proj1 Hc)) as H61.
  destruct (lookup_lt_is_Some_2 c (List.length c - 1)) as [r Hr]; [lia|].
  destruct (table_fine_row _ _ _ Hc Hr) as [Hmax Hrt].
  unfold remove_last_row. cbn [rows buffer_of].
  rewrite (wrap64_small (Z.of_nat (List.length c) - 1)) by lia.
  rewrite to_int_small by lia.
  replace (Z.of_nat (List.length c) - 1)
    with (Z.of_nat (List.length c - 1)) by lia.
  change (map (fun r0 : list (list Z) => Z.of_nat (List.length r0)) c)
    with (width (buffer_of fd td c)).
  rewrite load_width_of, Hr.
  cbn [fmap option_fmap option_map mbind option_bind].
  rewrite to_int_pred by lia.
  replace (Z.of_nat (List.length r) - 1 + 1) with (Z.of_nat (List.length r))
    by lia.
  rewrite wrap64_small by lia.
  change {| field := map (map field_of) c;
            rows := Z.of_nat (List.length c);
            width := map (fun r0 : list (list Z) => Z.of_nat (List.length r0)) c;
            field_delim := fd; text_delim := td |}
    with (buffer_of fd td c).
  destruct (remove_fields_table (Z.to_nat (Z.of_nat (List.length r)))
              fd td c (List.length c - 1) r Hc Hr) as (r' & -> & Hf').
  cbn [mbind option_bind rows field width buffer_of].
  rewrite length_insert.
  rewrite !realloc_Some by lia. cbn [mbind option_bind].
  rewrite wrap64_small by lia.
  f_equal. f_equal. unfold with_rows, with_width, with_field, buffer_of.
  cbn [field width rows field_delim text_delim].
  replace (Z.to_nat (Z.of_nat (List.length c) - 1))
    with (List.length c - 1)%nat by lia.
  rewrite !resize_le by (rewrite length_map, length_insert; lia).
  change (map (map field_of)) with (fmap (M:=list) (fmap (M:=list) field_of)).
  change (map (fun r0 : list (list Z) => Z.of_nat (List.length r0)))
    with (fmap (M:=list) (fun r0 : list (list Z) => Z.of_nat (List.length r0))).
  rewrite <- !fmap_take, !take_insert_ge by lia.
  rewrite length_take. f_equal. lia.
Qed.

(** X13.  [remove_last_row] on a buffer of at least two rows (and at most
    2^31, the row index being an [int]) drops the last row and keeps the
    others as they are. *)
Theorem remove_last_row_drops_last (b : CSV_BUFFER) :
  buffer_ok b -> fields_ok b ->
  2 <= rows b <= 2 ^ 31 ->
  exists b',
    remove_last_row b = Some (0, b')
    /\ buffer_ok b' /\ fields_ok b'
    /\ cells b' = take (List.length (cells b) - 1) (cells b)
    /\ rows b' = rows b - 1.
Proof.
  intros Hb Hfs Hrows. pose proof (table_fine_cells _ Hb Hfs) as Hc.
  assert (Hlen : rows b = Z.of_nat (List.length (cells b))).
  { destruct Hb as (Hr & _). unfold cells. by rewrite length_map. }
  destruct (via_table remove_last_row b 0
              (take (List.length (cells b) - 1) (cells b)) Hb Hfs)
    as (b' & Hrun & Hb' & Hfs' & Hcells & _).
  - apply remove_last_row_table; [done|lia|lia].
  - destruct Hc as [[H61 Hrs] Hts]. split; [split|].
    + rewrite length_take. lia.
    + by apply Forall_take.
    + by apply Forall_take.
  - exists b'. split_and!; try done.
    destruct Hb' as (Hr' & _). rewrite Hr'.
    transitivity (Z.of_nat (List.length (cells b'))).
    { unfold cells. by rewrite length_map. }
    rewrite Hcells, length_take. lia.
Qed.

Lemma remove_last_row_drops_last_witness :
  exists b',
    remove_last_row (buffer_of 44 34 sample_table) = Some (0, b')
    /\ buffer_ok b' /\ fields_ok b'
    /\ cells b'
       = take (List.length (cells (buffer_of 44 34 sample_table)) - 1)
           (cells (buffer_of 44 34 sample_table))
    /\ rows b' = rows (buffer_of 44 34 sample_table) - 1.
Proof.
  apply (remove_last_row_drops_last (buffer_of 44 34 sample_table)).
  - apply sample_table_ok.
  - apply sample_table_ok.
  - simpl. lia.
Defined.

Lemma rows_of fd td c : rows (buffer_of fd td c) = Z.of_nat (List.length c).
Proof. reflexivity. Qed.

Lemma csv_clear_row_inner fd td c i x r :
  table_fine c -> c !! i = Some (x :: r) ->
  i <> (List.length c - 1)%nat ->
  csv_clear_row (buffer_of fd td c) (Z.of_nat i)
  = Some (0, buffer_of fd td (<[i := [[]]]> c)).
Proof.
  intros Hc Hi Hne.
  destruct (sized_lookup _ _ _ (proj1 Hc) Hi) as [Hlt Hmax].
  unfold INT_MAX in Hmax.
  unfold csv_clear_row. rewrite rows_of.
  rewrite wrap64_small by lia.
  destruct (Z.eqb_spec (Z.of_nat i) (Z.of_nat (List.length c) - 1)); [lia|].
  rewrite load_width_of, load_field_of, Hi.
  cbn [fmap option_fmap option_map mbind option_bind].
  destruct (Z.eqb_spec (Z.of_nat (List.length (x :: r))) 0);
    [simpl in *; lia|].
  rewrite length_fmap.
  destruct (Z.ltb_spec (Z.of_nat (List.length (x :: r)))
              (Z.of_nat (List.length (x :: r)))); [lia|].
  cbn [orb]. cbv iota.
  change (list_fmap (list Z) CSV_FIELD field_of (x :: r))
    with (field_of x :: (field_of <$> r)).
  change (load (field_of x :: (field_of <$> r)) 0) with (Some (field_of x)).
  cbn [mbind option_bind].
  change (store (field_of x :: (field_of <$> r)) 0
            (set_field (field_of x) [0]))
    with (Some (field_of [] :: (field_of <$> r))).
  cbn [mbind option_bind].
  rewrite realloc_Some by lia.
  replace (resize (Z.to_nat 1) junk_field (field_of [] :: (field_of <$> r)))
    with [field_of []]
    by (change (Z.to_nat 1) with 1%nat; cbn [resize]; by rewrite resize_0).
  cbn [mbind option_bind].
  rewrite (store_field_of _ _ _ _ _ (x :: r)) by done.
  cbn [mbind option_bind].
  rewrite (store_width_of _ _ _ _ _ (x :: r)) by done.
  cbn [mbind option_bind].
  do 2 f_equal. apply (buffer_of_insert fd td c i [[]]).
Qed.

Lemma csv_clear_row_last fd td c :
  table_fine c ->
  (2 <= List.length c)%nat -> Z.of_nat (List.length c) <= 2 ^ 31 ->
  csv_clear_row (buffer_of fd td c) (Z.of_nat (List.length c - 1))
  = Some (0, buffer_of fd td (take (List.length c - 1) c)).
Proof.
  intros Hc H2 H31. pose proof (proj1 (proj1 Hc)) as H61.
  unfold csv_clear_row.
  rewrite remove_last_row_table by done.
  rewrite rows_of.
  rewrite wrap64_small by lia.
  destruct (Z.eqb_spec (Z.of_nat (List.length c - 1))
              (Z.of_nat (List.length c) - 1)); [|lia].
  done.
Qed.

(** X14.  [csv_clear_row] reduces a row that is not the last to one empty
    field, and removes the row when it is the last one of the buffer. *)
Theorem csv_clear_row_clears_or_removes
    (b : CSV_BUFFER) (i : nat) (r : list (list Z)) :
  buffer_ok b -> fields_ok b ->
  cells b !! i = Some r -> r <> [] ->
  (i = (List.length (cells b) - 1)%nat -> 2 <= rows b <= 2 ^ 31) ->
  exists b',
    csv_clear_row b (Z.of_nat i) = Some (0, b')
    /\ buffer_ok b' /\ fields_ok b'
    /\ cells b'
       = if decide (i = (List.length (cells b) - 1)%nat)
         then take i (cells b) else <[i := [[]]]> (cells b).
Proof.
  intros Hb Hfs Hi Hr Hlast. pose proof (table_fine_cells _ Hb Hfs) as Hc.
  assert (Hlen : rows b = Z.of_nat (List.length (cells b))).
  { destruct Hb as (Hrows & _). unfold cells. by rewrite length_map. }
  destruct (via_table (fun b => csv_clear_row b (Z.of_nat i)) b 0
              (if decide (i = (List.length (cells b) - 1)%nat)
               then take i (cells b) else <[i := [[]]]> (cells b)) Hb Hfs)
    as (b' & ? & ? & ? & ? & _).
  - case_decide as Hd.
    + specialize (Hlast Hd). rewrite Hd at 1 2.
      apply csv_clear_row_last; [done|lia|lia].
    + destruct r as [|x r]; [done|].
      by apply (csv_clear_row_inner _ _ _ _ x r).
  - case_decide.
    + destruct Hc as [[H61 Hrs] Hts]. split; [split|].
      * rewrite length_take. lia.
      * by apply Forall_take.
      * by apply Forall_take.
    + apply table_fine_insert; [done|by unfold INT_MAX|].
      repeat constructor; apply text_fine_nil.
  - eauto.
Qed.

Lemma csv_clear_row_clears_or_removes_witness :
  exists b',
    csv_clear_row (buffer_of 44 34 sample_table) (Z.of_nat 0) = Some (0, b')
    /\ buffer_ok b' /\ fields_ok b'
    /\ cells b'
       = if decide (0%nat
                    = (List.length (cells (buffer_of 44 34 sample_table)) - 1)%nat)
         then take 0 (cells (buffer_of 44 34 sample_table))
         else <[0%nat := [[]]]> (cells (buffer_of 44 34 sample_table)).
Proof.
  apply (csv_clear_row_clears_or_removes (buffer_of 44 34 sample_table) 0
           [[97]; [98]; [99]]).
  - apply sample_table_ok.
  - apply sample_table_ok.
  - reflexivity.
  - discriminate.
  - simpl. lia.
Defined.

Lemma remove_last_field_row fd td c i r :
  table_fine c -> c !! i = Some r -> r <> [] ->
  remove_last_field (buffer_of fd td c) (Z.of_nat i)
  = Some (0, buffer_of fd td
               (<[i := if decide (List.length r = 1%nat) then [[]]
                       else take (List.length r - 1) r]> c)).
Proof.
  intros Hc Hi Hr. rewrite (remove_last_field_table fd td c i r) by done.
  destruct r as [|x [|y r]]; [done| |]; by case_decide.
Qed.

Lemma append_field_table fd td c i r :
  table_fine c -> c !! i = Some r ->
  Z.of_nat (List.length r) + 1 <= INT_MAX ->
  append_field [] (buffer_of fd td c) (Z.of_nat i)
  = Some (0, buffer_of fd td (<[i := r ++ [[]]]> c), []).
Proof.
  intros Hc Hi Hmax.
  destruct (buffer_of_fine fd td c Hc) as [Hb _].
  rewrite (append_field_ok _ _ (field_of <$> r))
    by (done || by rewrite load_field_of, Hi).
  rewrite length_fmap.
  destruct (Z.leb_spec (Z.of_nat (List.length r) + 1) INT_MAX);
    [|unfold INT_MAX in *; lia].
  do 2 f_equal. unfold appended_field. rewrite Nat2Z.id.
  rewrite <- buffer_of_insert. rewrite fmap_app, length_app.
  cbn [List.length].
  replace (Z.of_nat (List.length r + 1)) with (Z.of_nat (List.length r) + 1)
    by lia.
  rewrite length_fmap. reflexivity.
Qed.

Lemma text_fine_cstr t : text_fine t -> cstr t = t.
Proof. intros [Ht _]. by apply cstr_id. Qed.

Lemma csv_copy_field_table fd td c i1 j1 i2 j2 r1 x r2 t :
  table_fine c ->
  c !! i1 = Some r1 -> r1 !! j1 = Some x ->
  c !! i2 = Some r2 -> r2 !! j2 = Some t ->
  Z.of_nat i1 < 2 ^ 31 -> Z.of_nat i2 < 2 ^ 31 ->
  i1 <> i2 \/ j1 <> j2 ->
  csv_copy_field (buffer_of fd td c)
    (Z.of_nat i1) (Z.of_nat j1) (Z.of_nat i2) (Z.of_nat j2)
  = Some (0, buffer_of fd td (<[i1 := <[j1 := t]> r1]> c)).
Proof.
  intros Hc Hi1 Hj1 Hi2 Hj2 H1 H2 Hdiff.
  destruct (table_fine_row _ _ _ Hc Hi1) as [Hm1 _].
  destruct (table_fine_row _ _ _ Hc Hi2) as [Hm2 Ht2].
  pose proof (lookup_lt_Some _ _ _ Hj1). pose proof (lookup_lt_Some _ _ _ Hj2).
  pose proof (Forall_lookup_1 _ _ _ _ Ht2 Hj2) as Ht.
  unfold INT_MAX in *. unfold csv_copy_field.
  rewrite !to_int_small by lia.
  rewrite !cell_of, Hi1, Hi2.
  cbn [fmap option_fmap option_map mbind option_bind]. rewrite Hj1, Hj2.
  cbn [fmap option_fmap option_map mbind option_bind field_of text].
  replace ((Z.of_nat i1 =? Z.of_nat i2) && (Z.of_nat j1 =? Z.of_nat j2))
    with false.
  2:{ symmetry. apply andb_false_iff.
      destruct Hdiff; [left|right]; apply Z.eqb_neq; lia. }
  rewrite set_field_fine by (by rewrite text_fine_cstr).
  rewrite text_fine_cstr by done.
  by rewrite (set_cell_of fd td c i1 j1 r1 x).
Qed.

(** X15.  [csv_copy_field] within one buffer gives the destination cell
    the text of the source cell and changes no other cell, when the two
    cells exist, are not the same cell, and the row indices fit the [int]
    parameters. *)
Theorem csv_copy_field_copies_text
    (b : CSV_BUFFER) (i1 j1 i2 j2 : nat) (r1 r2 : list (list Z))
    (x t : list Z) :
  buffer_ok b -> fields_ok b ->
  cells b !! i1 = Some r1 -> r1 !! j1 = Some x ->
  cells b !! i2 = Some r2 -> r2 !! j2 = Some t ->
  Z.of_nat i1 < 2 ^ 31 -> Z.of_nat i2 < 2 ^ 31 ->
  i1 <> i2 \/ j1 <> j2 ->
  exists b',
    csv_copy_field b (Z.of_nat i1) (Z.of_nat j1) (Z.of_nat i2) (Z.of_nat j2)
    = Some (0, b')
    /\ buffer_ok b' /\ fields_ok b'
    /\ cells b' = <[i1 := <[j1 := t]> r1]> (cells b).
Proof.
  intros Hb Hfs Hi1 Hj1 Hi2 Hj2 H1 H2 Hdiff.
  pose proof (table_fine_cells _ Hb Hfs) as Hc.
  destruct (table_fine_row _ _ _ Hc Hi1) as [Hm1 Ht1].
  destruct (table_fine_row _ _ _ Hc Hi2) as [Hm2 Ht2].
  destruct (via_table
              (fun b => csv_copy_field b (Z.of_nat i1) (Z.of_nat j1)
                          (Z.of_nat i2) (Z.of_nat j2))
              b 0 (<[i1 := <[j1 := t]> r1]> (cells b)) Hb Hfs)
    as (b' & ? & ? & ? & ? & _).
  - by apply (csv_copy_field_table _ _ _ _ _ _ _ r1 x r2 t).
  - apply table_fine_insert; [done|by rewrite length_insert|].
    apply Forall_insert; [done|]. by apply (Forall_lookup_1 _ _ _ _ Ht2 Hj2).
  - eauto.
Qed.

Lemma csv_copy_field_copies_text_witness :
  exists b',
    csv_copy_field (buffer_of 44 34 sample_table)
      (Z.of_nat 0) (Z.of_nat 2) (Z.of_nat 2) (Z.of_nat 1)
    = Some (0, b')
    /\ buffer_ok b' /\ fields_ok b'
    /\ cells b'
       = <[0%nat := <[2%nat := [102]]> [[97]; [98]; [99]]]>
           (cells (buffer_of 44 34 sample_table)).
Proof.
  apply (csv_copy_field_copies_text (buffer_of 44 34 sample_table)
           0 2 2 1 [[97]; [98]; [99]] [[101]; [102]] [99] [102]).
  - apply sample_table_ok.
  - apply sample_table_ok.
  - reflexivity.
  - reflexivity.
  - reflexivity.
  - reflexivity.
  - simpl. lia.
  - simpl. lia.
  - left. lia.
Defined.

Lemma length_delete_lt {A} (l : list A) j :
  (j < List.length l)%nat ->
  List.length (delete j l) = (List.length l - 1)%nat.
Proof. intros. by apply length_delete, lookup_lt_is_Some_2. Qed.

Lemma length_delete_le {A} (l : list A) j :
  (List.length (delete j l) <= List.length l)%nat.
Proof.
  revert j. induction l as [|x l IH]; intros [|j]; simpl; try lia.
  specialize (IH j). lia.
Qed.

Lemma take_delete_le {A} (l : list A) j :
  (j <= List.length l)%nat -> take j (delete j l) = take j l.
Proof.
  intros. rewrite delete_take_drop.
  apply take_app_length'. rewrite length_take. lia.
Qed.

Lemma width_of_insert fd td c i r x :
  c !! i = Some x ->
  load (width (buffer_of fd td (<[i := r]> c))) (Z.of_nat i)
  = Some (Z.of_nat (List.length r)).
Proof.
  intros Hi%lookup_lt_Some. rewrite load_width_of.
  by rewrite list_lookup_insert_eq.
Qed.

(** The row during the loop of [csv_remove_field]: the fields before [m]
    are those of the row without entry [j], the others are still in
    place. *)
Lemma shift_fields_table fd td c i j r r0 k :
  forall m n,
    table_fine c -> c !! i = Some r0 ->
    Z.of_nat (List.length r) <= INT_MAX -> Forall text_fine r ->
    Z.of_nat i < 2 ^ 31 ->
    (j <= m)%nat -> (m + k + 1 = List.length r)%nat -> (k <= n)%nat ->
    shift_fields n
      (buffer_of fd td (<[i := take m (delete j r) ++ drop m r]> c))
      (Z.of_nat i) (Z.of_nat m)
    = Some (buffer_of fd td
              (<[i := delete j r ++ drop (List.length r - 1) r]> c)).
Proof.
  induction k as [|k IH]; intros m n Hc Hi Hmax Hr H31 Hjm Hk Hn.
  - assert (Hlen : List.length (take m (delete j r) ++ drop m r)
                   = List.length r).
    { rewrite length_app, length_take, length_drop, length_delete_lt by lia.
      lia. }
    unfold INT_MAX in Hmax.
    destruct n; cbn [shift_fields];
      rewrite (width_of_insert _ _ _ _ _ r0) by done;
      cbn [mbind option_bind]; rewrite Hlen, wrap64_small by lia;
      (destruct (Z.ltb_spec (Z.of_nat m) (Z.of_nat (List.length r) - 1));
       [lia|]);
      rewrite take_ge by (rewrite length_delete_lt by lia; lia);
      by replace (List.length r - 1)%nat with m by lia.
  - destruct n as [|n]; [lia|].
    assert (Hlen : List.length (take m (delete j r) ++ drop m r)
                   = List.length r).
    { rewrite length_app, length_take, length_drop, length_delete_lt by lia.
      lia. }
    unfold INT_MAX in Hmax.
    cbn [shift_fields]. rewrite (width_of_insert _ _ _ _ _ r0) by done.
    cbn [mbind option_bind]. rewrite Hlen, !wrap64_small by lia.
    destruct (Z.ltb_spec (Z.of_nat m) (Z.of_nat (List.length r) - 1)); [|lia].
    destruct (lookup_lt_is_Some_2 r m) as [x Hx]; [lia|].
    destruct (lookup_lt_is_Some_2 r (S m)) as [t Ht]; [lia|].
    assert (Hcur : table_fine (<[i := take m (delete j r) ++ drop m r]> c)).
    { apply table_fine_insert; [done|unfold INT_MAX; lia|].
      apply Forall_app. split; [|by apply Forall_drop].
      by apply Forall_take, Forall_delete. }
    replace (Z.of_nat m + 1) with (Z.of_nat (S m)) by lia.
    rewrite (csv_copy_field_table fd td _ i m i (S m)
               (take m (delete j r) ++ drop m r) x
               (take m (delete j r) ++ drop m r) t); try done.
    2,4: apply list_lookup_insert_eq; by eapply lookup_lt_Some.
    2:{ rewrite lookup_app_r by (rewrite length_take; lia).
        rewrite length_take, length_delete_lt by lia.
        rewrite lookup_drop.
        by replace (m + (m - m `min` (List.length r - 1)))%nat with m by lia. }
    2:{ rewrite lookup_app_r by (rewrite length_take; lia).
        rewrite length_take, length_delete_lt by lia.
        rewrite lookup_drop.
        by replace (m + (S m - m `min` (List.length r - 1)))%nat
             with (S m) by lia. }
    2: (right; lia).
    cbn [mbind option_bind]. rewrite list_insert_insert_eq.
    replace (<[m := t]> (take m (delete j r) ++ drop m r))
      with (take (S m) (delete j r) ++ drop (S m) r).
    { apply (IH (S m) n); try done; lia. }
    rewrite (take_S_r _ _ t)
      by (rewrite list_lookup_delete_ge by lia; done).
    rewrite (drop_S r x m) by done.
    rewrite <- app_assoc. cbn [app].
    rewrite insert_app_r_alt by (rewrite length_take; lia).
    rewrite length_take, length_delete_lt by lia.
    by replace (m - m `min` (List.length r - 1))%nat with 0%nat by lia.
Qed.

Lemma csv_remove_field_table fd td c i j r x :
  table_fine c -> c !! i = Some r -> r !! j = Some x ->
  Z.of_nat i < 2 ^ 31 ->
  csv_remove_field (buffer_of fd td c) (Z.of_nat i) (Z.of_nat j)
  = Some (0, buffer_of fd td
               (<[i := if decide (List.length r = 1%nat) then [[]]
                       else delete j r]> c)).
Proof.
  intros Hc Hi Hj H31.
  destruct (sized_lookup _ _ _ (proj1 Hc) Hi) as [Hlt Hmax].
  destruct (table_fine_row _ _ _ Hc Hi) as [_ Hrt].
  pose proof (lookup_lt_Some _ _ _ Hj) as Hjlt.
  unfold csv_remove_field. rewrite rows_of, wrap64_small by lia.
  destruct (Z.ltb_spec (Z.of_nat (List.length c) - 1) (Z.of_nat i)); [lia|].
  rewrite load_width_of, Hi.
  cbn [fmap option_fmap option_map mbind option_bind].
  unfold INT_MAX in Hmax. rewrite wrap64_small by lia.
  destruct (Z.ltb_spec (Z.of_nat (List.length r) - 1) (Z.of_nat j)); [lia|].
  rewrite Nat2Z.id.
  assert (Hstart : c = <[i := take j (delete j r) ++ drop j r]> c).
  { rewrite take_delete_le, take_drop by lia. by rewrite list_insert_id. }
  rewrite Hstart at 1.
  rewrite (shift_fields_table fd td c i j r r (List.length r - 1 - j));
    try done; try lia.
  cbn [mbind option_bind].
  assert (Hrow : table_fine
                   (<[i := delete j r ++ drop (List.length r - 1) r]> c)).
  { apply table_fine_insert; [done| |].
    - rewrite length_app, length_drop, length_delete_lt by lia.
      unfold INT_MAX. lia.
    - apply Forall_app. split; [by apply Forall_delete|by apply Forall_drop]. }
  rewrite (remove_last_field_row fd td _ i
             (delete j r ++ drop (List.length r - 1) r)); try done.
  2:{ apply list_lookup_insert_eq. by eapply lookup_lt_Some. }
  2:{ intros E%(f_equal List.length). revert E.
      rewrite length_app, length_drop. simpl. lia. }
  cbn [mbind option_bind]. rewrite list_insert_insert_eq.
  do 3 f_equal.
  rewrite length_app, length_drop, length_delete_lt by lia.
  replace (List.length r - 1 + (List.length r - (List.length r - 1)))%nat
    with (List.length r) by lia.
  case_decide; [done|].
  rewrite take_app_length' by (rewrite length_delete_lt by lia; lia).
  done.
Qed.

(** X16.  [csv_remove_field] on a cell that exists deletes it from its row
    and moves the later fields of the row one place to the left; the only
    field of a row is emptied instead.  The other rows are untouched. *)
Theorem csv_remove_field_deletes_entry
    (b : CSV_BUFFER) (i j : nat) (r : list (list Z)) (x : list Z) :
  buffer_ok b -> fields_ok b ->
  cells b !! i = Some r -> r !! j = Some x ->
  Z.of_nat i < 2 ^ 31 ->
  exists b',
    csv_remove_field b (Z.of_nat i) (Z.of_nat j) = Some (0, b')
    /\ buffer_ok b' /\ fields_ok b'
    /\ cells b'
       = <[i := if decide (List.length r = 1%nat) then [[]]
                else delete j r]> (cells b).
Proof.
  intros Hb Hfs Hi Hj H31. pose proof (table_fine_cells _ Hb Hfs) as Hc.
  destruct (table_fine_row _ _ _ Hc Hi) as [Hmax Hrt].
  destruct (via_table
              (fun b => csv_remove_field b (Z.of_nat i) (Z.of_nat j)) b 0
              (<[i := if decide (List.length r = 1%nat) then [[]]
                      else delete j r]> (cells b)) Hb Hfs)
    as (b' & ? & ? & ? & ? & _).
  - by apply (csv_remove_field_table _ _ _ _ _ r x).
  - apply table_fine_insert; [done| |].
    + case_decide; [by unfold INT_MAX|].
      pose proof (length_delete_le r j). lia.
    + case_decide; [repeat constructor; apply text_fine_nil|].
      by apply Forall_delete.
  - eauto.
Qed.

Lemma csv_remove_field_deletes_entry_witness :
  exists b',
    csv_remove_field (buffer_of 44 34 sample_table) (Z.of_nat 0) (Z.of_nat 1)
    = Some (0, b')
    /\ buffer_ok b' /\ fields_ok b'
    /\ cells b'
       = <[0%nat := if decide (List.length [[97]; [98]; [99]] = 1%nat)
                    then [[]] else delete 1%nat [[97]; [98]; [99]]]>
           (cells (buffer_of 44 34 sample_table)).
Proof.
  apply (csv_remove_field_deletes_entry (buffer_of 44 34 sample_table)
           0 1 [[97]; [98]; [99]] [98]).
  - apply sample_table_ok.
  - apply sample_table_ok.
  - reflexivity.
  - reflexivity.
  - simpl. lia.
Defined.

Lemma csv_set_field_table fd td c i j r x t :
  table_fine c -> c !! i = Some r -> r !! j = Some x ->
  text_fine (cstr t) ->
  csv_set_field (buffer_of fd td c) (Z.of_nat i) (Z.of_nat j) t
  = Some (0, buffer_of fd td (<[i := <[j := cstr t]> r]> c)).
Proof.
  intros Hc Hi Hj Ht.
  destruct (sized_lookup _ _ _ (proj1 Hc) Hi) as [Hlt Hmax].
  pose proof (lookup_lt_Some _ _ _ Hj) as Hjlt.
  unfold csv_set_field. rewrite rows_of.
  replace (Z.to_nat (Z.of_nat i - Z.of_nat (List.length c) + 1)) with 0%nat
    by lia.
  cbn [set_grow_rows]. rewrite rows_of.
  destruct (Z.leb_spec (Z.of_nat (List.length c)) (Z.of_nat i)); [lia|].
  cbn [mbind option_bind]. rewrite load_width_of, Hi.
  cbn [fmap option_fmap option_map mbind option_bind].
  replace (Z.to_nat (Z.of_nat j - Z.of_nat (List.length r) + 1)) with 0%nat
    by lia.
  cbn [set_grow_fields]. rewrite load_width_of, Hi.
  cbn [fmap option_fmap option_map mbind option_bind].
  destruct (Z.leb_spec (Z.of_nat (List.length r)) (Z.of_nat j)); [lia|].
  cbn [mbind option_bind]. rewrite cell_of, Hi.
  cbn [fmap option_fmap option_map mbind option_bind]. rewrite Hj.
  cbn [fmap option_fmap option_map mbind option_bind].
  rewrite set_field_fine by done.
  by rewrite (set_cell_of fd td c i j r x).
Qed.

(** The row during the loop of [csv_insert_field]: a copy of the row with
    one more field at [m], whose text no longer matters. *)
Lemma insert_shift_table fd td c i j r r0 k :
  forall m n s,
    table_fine c -> c !! i = Some r0 ->
    Z.of_nat (List.length r) + 1 <= INT_MAX ->
    Forall text_fine r -> text_fine s ->
    Z.of_nat i < 2 ^ 31 ->
    (m = j + k)%nat -> (m <= List.length r)%nat -> (k <= n)%nat ->
    exists s',
      insert_shift n
        (buffer_of fd td (<[i := take m r ++ s :: drop m r]> c))
        (Z.of_nat i) (Z.of_nat j) (Z.of_nat m)
      = Some (buffer_of fd td (<[i := take j r ++ s' :: drop j r]> c))
      /\ text_fine s'.
Proof.
  induction k as [|k IH]; intros m n s Hc Hi Hmax Hr Hs H31 Hm Hml Hn.
  - exists s. replace m with j by lia. split; [|done].
    destruct n; cbn [insert_shift];
      by destruct (Z.ltb_spec (Z.of_nat j) (Z.of_nat j)); [lia|].
  - destruct n as [|n]; [lia|]. destruct m as [|m]; [lia|].
    cbn [insert_shift].
    destruct (Z.ltb_spec (Z.of_nat j) (Z.of_nat (S m))); [|lia].
    unfold INT_MAX in Hmax. rewrite wrap64_small by lia.
    replace (Z.of_nat (S m) - 1) with (Z.of_nat m) by lia.
    destruct (lookup_lt_is_Some_2 r m) as [t Ht]; [lia|].
    pose proof (Forall_lookup_1 _ _ _ _ Hr Ht) as Htf.
    assert (Hcur : table_fine (<[i := take (S m) r ++ s :: drop (S m) r]> c)).
    { apply table_fine_insert; [done| |].
      - rewrite length_app, length_take. cbn [List.length].
        rewrite length_drop. unfold INT_MAX. lia.
      - apply Forall_app. split; [by apply Forall_take|].
        constructor; [done|by apply Forall_drop]. }
    rewrite (csv_copy_field_table fd td _ i (S m) i m
               (take (S m) r ++ s :: drop (S m) r) s
               (take (S m) r ++ s :: drop (S m) r) t); try done.
    2,4: apply list_lookup_insert_eq; by eapply lookup_lt_Some.
    2:{ rewrite lookup_app_r by (rewrite length_take; lia).
        rewrite length_take.
        by replace (S m - S m `min` List.length r)%nat with 0%nat by lia. }
    2:{ rewrite lookup_app_l by (rewrite length_take; lia).
        rewrite lookup_take_lt by lia. done. }
    2: (right; lia).
    cbn [mbind option_bind]. rewrite list_insert_insert_eq.
    replace (<[S m := t]> (take (S m) r ++ s :: drop (S m) r))
      with (take m r ++ t :: drop m r).
    { apply (IH m n t); try done; lia. }
    rewrite insert_app_r_alt by (rewrite length_take; lia).
    rewrite length_take.
    replace (S m - S m `min` List.length r)%nat with 0%nat by lia.
    cbn [insert list_insert].
    rewrite (take_S_r _ _ t) by done. rewrite <- app_assoc. cbn [app].
    by rewrite (drop_S r t m) by done.
Qed.

Lemma csv_insert_field_table fd td c i j r x t :
  table_fine c -> c !! i = Some r -> r !! j = Some x ->
  Z.of_nat (List.length r) + 1 <= INT_MAX ->
  Z.of_nat i < 2 ^ 31 -> text_fine (cstr t) ->
  csv_insert_field (buffer_of fd td c) (Z.of_nat i) (Z.of_nat j) t
  = Some (0, buffer_of fd td (<[i := take j r ++ cstr t :: drop j r]> c)).
Proof.
  intros Hc Hi Hj Hmax H31 Ht. pose proof Hmax as HmaxF.
  destruct (sized_lookup _ _ _ (proj1 Hc) Hi) as [Hlt _].
  destruct (table_fine_row _ _ _ Hc Hi) as [_ Hrt].
  pose proof (lookup_lt_Some _ _ _ Hj) as Hjlt.
  unfold csv_insert_field. rewrite rows_of, wrap64_small by lia.
  destruct (Z.ltb_spec (Z.of_nat (List.length c) - 1) (Z.of_nat i)); [lia|].
  rewrite load_width_of, Hi.
  cbn [fmap option_fmap option_map mbind option_bind].
  unfold INT_MAX in Hmax. rewrite wrap64_small by lia.
  destruct (Z.ltb_spec (Z.of_nat (List.length r) - 1) (Z.of_nat j)); [lia|].
  rewrite (append_field_table fd td c i r) by (done || unfold INT_MAX; lia).
  cbn [mbind option_bind].
  rewrite (width_of_insert _ _ _ _ _ r) by done.
  cbn [mbind option_bind]. rewrite Nat2Z.id.
  rewrite length_app. cbn [List.length].
  rewrite wrap64_small by lia.
  replace (Z.of_nat (List.length r + 1) - 1) with (Z.of_nat (List.length r))
    by lia.
  replace (r ++ [[]])
    with (take (List.length r) r ++ [] :: drop (List.length r) r)
    by (by rewrite take_ge, drop_ge by lia).
  destruct (insert_shift_table fd td c i j r r (List.length r - j)
              (List.length r) (List.length r + 1) []
              Hc Hi HmaxF Hrt text_fine_nil H31)
    as (s' & -> & Hs'); [lia|lia|lia|].
  cbn [mbind option_bind].
  assert (Hrow : table_fine (<[i := take j r ++ s' :: drop j r]> c)).
  { apply table_fine_insert; [done| |].
    - rewrite length_app, length_take. cbn [List.length].
      rewrite length_drop. unfold INT_MAX. lia.
    - apply Forall_app. split; [by apply Forall_take|].
      constructor; [done|by apply Forall_drop]. }
  rewrite (csv_set_field_table fd td _ i j (take j r ++ s' :: drop j r) s');
    try done.
  2:{ apply list_lookup_insert_eq. by eapply lookup_lt_Some. }
  2:{ rewrite lookup_app_r by (rewrite length_take; lia).
      rewrite length_take.
      by replace (j - j `min` List.length r)%nat with 0%nat by lia. }
  cbn [mbind option_bind]. rewrite list_insert_insert_eq.
  do 3 f_equal.
  rewrite insert_app_r_alt by (rewrite length_take; lia).
  rewrite length_take.
  by replace (j - j `min` List.length r)%nat with 0%nat by lia.
Qed.

(** X17.  [csv_insert_field] at a cell that exists puts the new text at
    that entry and moves the fields from there on one place to the right;
    the row grows by one field and the other rows are untouched. *)
Theorem csv_insert_field_inserts_entry
    (b : CSV_BUFFER) (i j : nat) (r : list (list Z)) (x t : list Z) :
  buffer_ok b -> fields_ok b ->
  cells b !! i = Some r -> r !! j = Some x ->
  Z.of_nat (List.length r) + 1 <= INT_MAX ->
  Z.of_nat i < 2 ^ 31 -> text_fine (cstr t) ->
  exists b',
    csv_insert_field b (Z.of_nat i) (Z.of_nat j) t = Some (0, b')
    /\ buffer_ok b' /\ fields_ok b'
    /\ cells b' = <[i := take j r ++ cstr t :: drop j r]> (cells b).
Proof.
  intros Hb Hfs Hi Hj Hmax H31 Ht.
  pose proof (table_fine_cells _ Hb Hfs) as Hc.
  destruct (table_fine_row _ _ _ Hc Hi) as [_ Hrt].
  pose proof (lookup_lt_Some _ _ _ Hj) as Hjlt.
  destruct (via_table
              (fun b => csv_insert_field b (Z.of_nat i) (Z.of_nat j) t) b 0
              (<[i := take j r ++ cstr t :: drop j r]> (cells b)) Hb Hfs)
    as (b' & ? & ? & ? & ? & _).
  - by apply (csv_insert_field_table _ _ _ _ _ r x).
  - apply table_fine_insert; [done| |].
    + rewrite length_app, length_take. cbn [List.length].
      rewrite length_drop. unfold INT_MAX in *. lia.
    + apply Forall_app. split; [by apply Forall_take|].
      constructor; [done|by apply Forall_drop].
  - eauto.
Qed.

Lemma csv_insert_field_inserts_entry_witness :
  exists b',
    csv_insert_field (buffer_of 44 34 sample_table)
      (Z.of_nat 0) (Z.of_nat 1) [120; 121]
    = Some (0, b')
    /\ buffer_ok b' /\ fields_ok b'
    /\ cells b'
       = <[0%nat := take 1 [[97]; [98]; [99]] ++ cstr [120; 121]
                    :: drop 1 [[97]; [98]; [99]]]>
           (cells (buffer_of 44 34 sample_table)).
Proof.
  apply (csv_insert_field_inserts_entry (buffer_of 44 34 sample_table)
           0 1 [[97]; [98]; [99]] [98] [120; 121]).
  - apply sample_table_ok.
  - apply sample_table_ok.
  - reflexivity.
  - reflexivity.
  - unfold INT_MAX. simpl. lia.
  - simpl. lia.
  - split; [repeat constructor; unfold is_char; simpl; lia|simpl; lia].
Defined.

Lemma grow_rows_table n fd td c i x :
  table_fine c -> c !! i = Some x ->
  grow_rows n (buffer_of fd td c) (Z.of_nat i) = Some (0, buffer_of fd td c).
Proof.
  intros Hc Hi. destruct (sized_lookup _ _ _ (proj1 Hc) Hi) as [Hlt _].
  destruct n; cbn [grow_rows]; rewrite rows_of, wrap64_small by lia;
    by destruct (Z.ltb_spec (Z.of_nat (List.length c)) (Z.of_nat i + 1));
      [lia|].
Qed.

Lemma shrink_row_table fd td d s rs k :
  forall c rd n,
    table_fine c -> c !! d = Some rd -> c !! s = Some rs ->
    (1 <= List.length rs)%nat ->
    (List.length rd <= List.length rs + k)%nat -> (k <= n)%nat ->
    shrink_row n (buffer_of fd td c) (Z.of_nat d) (Z.of_nat s)
    = Some (0, buffer_of fd td (<[d := take (List.length rs) rd]> c)).
Proof.
  induction k as [|k IH]; intros c rd n Hc Hd Hs H1 Hk Hn.
  - rewrite take_ge, list_insert_id by (done || lia).
    destruct n; cbn [shrink_row]; rewrite !load_width_of, Hd, Hs;
      cbn [fmap option_fmap option_map mbind option_bind];
      by destruct (Z.ltb_spec (Z.of_nat (List.length rs))
                     (Z.of_nat (List.length rd))); [lia|].
  - destruct (decide (List.length rd <= List.length rs)%nat) as [Hle|Hgt].
    + rewrite take_ge, list_insert_id by (done || lia).
      destruct n; cbn [shrink_row]; rewrite !load_width_of, Hd, Hs;
        cbn [fmap option_fmap option_map mbind option_bind];
        by destruct (Z.ltb_spec (Z.of_nat (List.length rs))
                       (Z.of_nat (List.length rd))); [lia|].
    + destruct n as [|n]; [lia|]. cbn [shrink_row].
      rewrite !load_width_of, Hd, Hs.
      cbn [fmap option_fmap option_map mbind option_bind].
      destruct (Z.ltb_spec (Z.of_nat (List.length rs))
                  (Z.of_nat (List.length rd))); [|lia].
      assert (Hds : d <> s) by (intros ->; rewrite Hd in Hs; naive_solver lia).
      destruct (table_fine_row _ _ _ Hc Hd) as [Hmax Hrt].
      rewrite (remove_last_field_row fd td c d rd); try done.
      2:{ intros ->. simpl in *. lia. }
      case_decide; [lia|]. cbn [mbind option_bind].
      change (0 =? 0) with true. cbv iota.
      rewrite (IH _ (take (List.length rd - 1) rd)); try lia.
      * rewrite list_insert_insert_eq, take_take.
        by replace (List.length rs `min` (List.length rd - 1))%nat
             with (List.length rs) by lia.
      * apply table_fine_insert; [done| |by apply Forall_take].
        rewrite length_take. lia.
      * apply list_lookup_insert_eq. by eapply lookup_lt_Some.
      * by rewrite list_lookup_insert_ne.
      * rewrite length_take. lia.
Qed.

Lemma widen_row_table fd td d s rs k :
  forall c rd n,
    table_fine c -> c !! d = Some rd -> c !! s = Some rs ->
    (List.length rs <= List.length rd + k)%nat -> (k <= n)%nat ->
    widen_row n (buffer_of fd td c) (Z.of_nat d) (Z.of_nat s)
    = Some (0, buffer_of fd td
                 (<[d := rd ++ replicate (List.length rs - List.length rd) []]>
                    c)).
Proof.
  induction k as [|k IH]; intros c rd n Hc Hd Hs Hk Hn.
  - replace (List.length rs - List.length rd)%nat with 0%nat by lia.
    cbn [replicate]. rewrite app_nil_r, list_insert_id by done.
    destruct n; cbn [widen_row]; rewrite !load_width_of, Hd, Hs;
      cbn [fmap option_fmap option_map mbind option_bind];
      by destruct (Z.ltb_spec (Z.of_nat (List.length rd))
                     (Z.of_nat (List.length rs))); [lia|].
  - destruct (decide (List.length rs <= List.length rd)%nat) as [Hle|Hgt].
    + replace (List.length rs - List.length rd)%nat with 0%nat by lia.
      cbn [replicate]. rewrite app_nil_r, list_insert_id by done.
      destruct n; cbn [widen_row]; rewrite !load_width_of, Hd, Hs;
        cbn [fmap option_fmap option_map mbind option_bind];
        by destruct (Z.ltb_spec (Z.of_nat (List.length rd))
                       (Z.of_nat (List.length rs))); [lia|].
    + destruct n as [|n]; [lia|]. cbn [widen_row].
      rewrite !load_width_of, Hd, Hs.
      cbn [fmap option_fmap option_map mbind option_bind].
      destruct (Z.ltb_spec (Z.of_nat (List.length rd))
                  (Z.of_nat (List.length rs))); [|lia].
      assert (Hds : d <> s) by (intros ->; rewrite Hd in Hs; naive_solver lia).
      destruct (table_fine_row _ _ _ Hc Hd) as [_ Hrt].
      destruct (table_fine_row _ _ _ Hc Hs) as [Hmax _].
      rewrite (append_field_table fd td c d rd); try done; [|lia].
      cbn [mbind option_bind]. change (0 =? 0) with true. cbv iota.
      rewrite (IH _ (rd ++ [[]])); try lia.
      * rewrite list_insert_insert_eq, <- app_assoc, length_app.
        cbn [List.length app].
        by replace (List.length rs - List.length rd)%nat
             with (S (List.length rs - (List.length rd + 1))) by lia.
      * apply table_fine_insert; [done| |].
        -- rewrite length_app. cbn [List.length]. lia.
        -- apply Forall_app. split; [done|].
           repeat constructor; apply text_fine_nil.
      * apply list_lookup_insert_eq. by eapply lookup_lt_Some.
      * by rewrite list_lookup_insert_ne.
      * rewrite length_app. cbn [List.length]. lia.
Qed.

(** The destination during the copying loop of [csv_copy_row]: the fields
    before [m] are the source's. *)
Lemma copy_fields_table fd td c d s rs rd r0 k :
  forall m n,
    table_fine c -> c !! d = Some r0 -> c !! s = Some rs ->
    Forall text_fine rd -> List.length rd = List.length rs ->
    d <> s ->
    Z.of_nat d < 2 ^ 31 -> Z.of_nat s < 2 ^ 31 ->
    (m + k = List.length rs)%nat -> (k <= n)%nat ->
    copy_fields n (buffer_of fd td (<[d := take m rs ++ drop m rd]> c))
      (Z.of_nat d) (Z.of_nat s) (Z.of_nat m)
    = Some (buffer_of fd td (<[d := rs]> c)).
Proof.
  induction k as [|k IH]; intros m n Hc Hd Hs Hrd Hlen Hsame Hd31 Hs31 Hk Hn.
  - assert (Hcur : take m rs ++ drop m rd = rs).
    { rewrite take_ge, drop_ge by lia. apply app_nil_r. }
    rewrite Hcur.
    destruct n; cbn [copy_fields];
      rewrite (width_of_insert _ _ _ _ _ r0) by done;
      cbn [mbind option_bind];
      by destruct (Z.ltb_spec (Z.of_nat m) (Z.of_nat (List.length rs)));
        [lia|].
  - destruct n as [|n]; [lia|].
    destruct (table_fine_row _ _ _ Hc Hs) as [Hmax Hrst].
    assert (Hcl : List.length (take m rs ++ drop m rd) = List.length rs).
    { rewrite length_app, length_take, length_drop. lia. }
    cbn [copy_fields]. rewrite (width_of_insert _ _ _ _ _ r0) by done.
    cbn [mbind option_bind]. rewrite Hcl.
    destruct (Z.ltb_spec (Z.of_nat m) (Z.of_nat (List.length rs))); [|lia].
    destruct (lookup_lt_is_Some_2 rs m) as [t Ht]; [lia|].
    destruct (lookup_lt_is_Some_2 rd m) as [x Hx]; [lia|].
    assert (Hcur : table_fine (<[d := take m rs ++ drop m rd]> c)).
    { apply table_fine_insert; [done|lia|].
      apply Forall_app. split; [by apply Forall_take|by apply Forall_drop]. }
    rewrite (csv_copy_field_table fd td _ d m s m
               (take m rs ++ drop m rd) x rs t); try done.
    2:{ apply list_lookup_insert_eq. by eapply lookup_lt_Some. }
    2:{ rewrite lookup_app_r by (rewrite length_take; lia).
        rewrite length_take, lookup_drop.
        by replace (m + (m - m `min` List.length rs))%nat with m by lia. }
    2: by rewrite list_lookup_insert_ne.
    2: by left.
    cbn [mbind option_bind]. rewrite list_insert_insert_eq.
    unfold INT_MAX in Hmax. rewrite wrap64_small by lia.
    replace (Z.of_nat m + 1) with (Z.of_nat (S m)) by lia.
    replace (<[m := t]> (take m rs ++ drop m rd))
      with (take (S m) rs ++ drop (S m) rd).
    { apply (IH (S m) n); try done; lia. }
    rewrite (take_S_r _ _ t) by done.
    rewrite (drop_S rd x m) by done.
    rewrite <- app_assoc. cbn [app].
    rewrite insert_app_r_alt by (rewrite length_take; lia).
    rewrite length_take.
    by replace (m - m `min` List.length rs)%nat with 0%nat by lia.
Qed.

Lemma csv_copy_row_table fd td c d s rd rs :
  table_fine c -> c !! d = Some rd -> c !! s = Some rs -> rs <> [] ->
  Z.of_nat d < 2 ^ 31 -> Z.of_nat s < 2 ^ 31 -> d <> s ->
  csv_copy_row (buffer_of fd td c) (Z.of_nat d) (Z.of_nat s)
  = Some (0, buffer_of fd td (<[d := rs]> c)).
Proof.
  intros Hc Hd Hs Hne Hd31 Hs31 Hds.
  destruct (sized_lookup _ _ _ (proj1 Hc) Hs) as [Hlt Hmax].
  destruct (table_fine_row _ _ _ Hc Hd) as [Hmaxd Hrdt].
  assert (H1 : (1 <= List.length rs)%nat).
  { destruct rs; [done|simpl; lia]. }
  unfold csv_copy_row. rewrite rows_of, wrap64_small by lia.
  destruct (Z.ltb_spec (Z.of_nat (List.length c) - 1) (Z.of_nat s)); [lia|].
  rewrite (grow_rows_table _ fd td c d rd) by done.
  cbn [mbind option_bind]. change (negb (0 =? 0)) with false. cbv iota.
  rewrite load_width_of, Hd.
  cbn [fmap option_fmap option_map mbind option_bind]. rewrite Nat2Z.id.
  rewrite (shrink_row_table fd td d s rs (List.length rd) c rd);
    try done; try lia.
  cbn [mbind option_bind]. change (negb (0 =? 0)) with false. cbv iota.
  set (rd1 := take (List.length rs) rd).
  assert (Hsrc1 : <[d := rd1]> c !! s = Some rs).
  { by rewrite list_lookup_insert_ne. }
  assert (Hd1 : <[d := rd1]> c !! d = Some rd1).
  { apply list_lookup_insert_eq. by eapply lookup_lt_Some. }
  assert (Hc1 : table_fine (<[d := rd1]> c)).
  { apply table_fine_insert; [done| |by apply Forall_take].
    subst rd1. rewrite length_take. lia. }
  rewrite (width_of_insert _ _ _ _ _ rd) by done.
  cbn [mbind option_bind].
  rewrite load_width_of, Hsrc1.
  cbn [fmap option_fmap option_map mbind option_bind].
  rewrite (widen_row_table fd td d s rs
             (List.length rs - List.length rd1) _ rd1);
    try done; try lia.
  cbn [mbind option_bind]. change (negb (0 =? 0)) with false. cbv iota.
  rewrite list_insert_insert_eq.
  set (rd2 := rd1 ++ replicate (List.length rs - List.length rd1) []).
  assert (Hl2 : List.length rd2 = List.length rs).
  { subst rd2 rd1. rewrite length_app, length_replicate, length_take. lia. }
  rewrite (width_of_insert _ _ _ _ _ rd) by done.
  cbn [mbind option_bind]. rewrite Nat2Z.id, Hl2.
  replace rd2 with (take 0 rs ++ drop 0 rd2) by done.
  rewrite (copy_fields_table fd td c d s rs rd2 rd (List.length rs) 0);
    try done; try lia.
  subst rd2. apply Forall_app. split; [by apply Forall_take|].
  apply Forall_replicate, text_fine_nil.
Qed.

(** X18.  [csv_copy_row] within one buffer makes the destination row a copy
    of the source row, whatever its width was, and changes no other row,
    when the two rows exist and are not the same row, the source has a
    field and the row indices fit the [int] parameters of
    [csv_copy_field]. *)
Theorem csv_copy_row_copies_row
    (b : CSV_BUFFER) (d s : nat) (rd rs : list (list Z)) :
  buffer_ok b -> fields_ok b ->
  cells b !! d = Some rd -> cells b !! s = Some rs -> rs <> [] ->
  Z.of_nat d < 2 ^ 31 -> Z.of_nat s < 2 ^ 31 -> d <> s ->
  exists b',
    csv_copy_row b (Z.of_nat d) (Z.of_nat s) = Some (0, b')
    /\ buffer_ok b' /\ fields_ok b'
    /\ cells b' = <[d := rs]> (cells b).
Proof.
  intros Hb Hfs Hd Hs Hne Hd31 Hs31 Hds.
  pose proof (table_fine_cells _ Hb Hfs) as Hc.
  destruct (table_fine_row _ _ _ Hc Hs) as [Hmax Hrt].
  destruct (via_table (fun b => csv_copy_row b (Z.of_nat d) (Z.of_nat s)) b 0
              (<[d := rs]> (cells b)) Hb Hfs)
    as (b' & ? & ? & ? & ? & _).
  - by apply (csv_copy_row_table _ _ _ _ _ rd rs).
  - by apply table_fine_insert.
  - eauto.
Qed.

Lemma csv_copy_row_copies_row_witness :
  exists b',
    csv_copy_row (buffer_of 44 34 sample_table) (Z.of_nat 1) (Z.of_nat 0)
    = Some (0, b')
    /\ buffer_ok b' /\ fields_ok b'
    /\ cells b'
       = <[1%nat := [[97]; [98]; [99]]]> (cells (buffer_of 44 34 sample_table)).
Proof.
  apply (csv_copy_row_copies_row (buffer_of 44 34 sample_table)
           1 0 [[100]] [[97]; [98]; [99]]).
  - apply sample_table_ok.
  - apply sample_table_ok.
  - reflexivity.
  - reflexivity.
  - discriminate.
  - simpl. lia.
  - simpl. lia.
  - lia.
Defined.

Lemma shifted_length {A} (l : list A) j m :
  (j <= m)%nat -> (m < List.length l)%nat ->
  List.length (take m (delete j l) ++ drop m l) = List.length l.
Proof.
  intros. rewrite length_app, length_take, length_drop, length_delete_lt by lia.
  lia.
Qed.

Lemma shifted_step {A} (l : list A) j m x t :
  (j <= m)%nat -> l !! m = Some x -> l !! S m = Some t ->
  <[m := t]> (take m (delete j l) ++ drop m l)
  = take (S m) (delete j l) ++ drop (S m) l.
Proof.
  intros Hjm Hx Ht. pose proof (lookup_lt_Some _ _ _ Ht).
  rewrite (take_S_r _ _ t) by (by rewrite list_lookup_delete_ge by lia).
  rewrite (drop_S l x m) by done.
  rewrite <- app_assoc. cbn [app].
  rewrite insert_app_r_alt by (rewrite length_take; lia).
  rewrite length_take, length_delete_lt by lia.
  by replace (m - m `min` (List.length l - 1))%nat with 0%nat by lia.
Qed.

Lemma shifted_lookup {A} (l : list A) j m n :
  (j <= m)%nat -> (m <= n)%nat -> (m < List.length l)%nat ->
  (take m (delete j l) ++ drop m l) !! n = l !! n.
Proof.
  intros. rewrite lookup_app_r by (rewrite length_take; lia).
  rewrite length_take, length_delete_lt by lia.
  rewrite lookup_drop. f_equal. lia.
Qed.

Lemma shifted_fine c j m :
  table_fine c -> (j <= m)%nat -> (m < List.length c)%nat ->
  table_fine (take m (delete j c) ++ drop m c).
Proof.
  intros [[H61 Hrs] Hts] Hjm Hm. split; [split|].
  - by rewrite shifted_length.
  - apply Forall_app. split; [|by apply Forall_drop].
    by apply Forall_take, Forall_delete.
  - apply Forall_app. split; [|by apply Forall_drop].
    by apply Forall_take, Forall_delete.
Qed.

(** The table during the loop of [csv_remove_row]: the rows before [m] are
    those of the table without row [i], the others are still in place. *)
Lemma shift_rows_table fd td c i k :
  forall m n,
    table_fine c -> Forall (fun r => r <> []) c ->
    Z.of_nat (List.length c) <= 2 ^ 31 ->
    (i <= m)%nat -> (m + k + 1 = List.length c)%nat -> (k <= n)%nat ->
    shift_rows n (buffer_of fd td (take m (delete i c) ++ drop m c))
      (Z.of_nat m)
    = Some (buffer_of fd td (delete i c ++ drop (List.length c - 1) c)).
Proof.
  induction k as [|k IH]; intros m n Hc Hne H31 Him Hk Hn.
  - destruct n; cbn [shift_rows]; rewrite rows_of, shifted_length by lia;
      rewrite wrap64_small by lia;
      (destruct (Z.ltb_spec (Z.of_nat m) (Z.of_nat (List.length c) - 1));
       [lia|]);
      rewrite take_ge by (rewrite length_delete_lt by lia; lia);
      by replace (List.length c - 1)%nat with m by lia.
  - destruct n as [|n]; [lia|].
    cbn [shift_rows]. rewrite rows_of, shifted_length by lia.
    rewrite !wrap64_small by lia.
    destruct (Z.ltb_spec (Z.of_nat m) (Z.of_nat (List.length c) - 1)); [|lia].
    destruct (lookup_lt_is_Some_2 c m) as [x Hx]; [lia|].
    destruct (lookup_lt_is_Some_2 c (S m)) as [t Ht]; [lia|].
    replace (Z.of_nat m + 1) with (Z.of_nat (S m)) by lia.
    rewrite (csv_copy_row_table fd td _ m (S m) x t); try lia.
    + cbn [mbind option_bind].
      rewrite (shifted_step c i m x t) by done.
      apply (IH (S m) n); try done; lia.
    + apply shifted_fine; [done|lia|lia].
    + rewrite shifted_lookup by lia. done.
    + rewrite shifted_lookup by lia. done.
    + by apply (Forall_lookup_1 _ _ _ _ Hne Ht).
Qed.

Lemma csv_remove_row_table fd td c i :
  table_fine c -> Forall (fun r => r <> []) c ->
  (i < List.length c)%nat ->
  (2 <= List.length c)%nat -> Z.of_nat (List.length c) <= 2 ^ 31 ->
  csv_remove_row (buffer_of fd td c) (Z.of_nat i)
  = Some (0, buffer_of fd td (delete i c)).
Proof.
  intros Hc Hne Hi H2 H31.
  unfold csv_remove_row. rewrite rows_of, wrap64_small by lia.
  destruct (Z.ltb_spec (Z.of_nat (List.length c) - 1) (Z.of_nat i)); [lia|].
  rewrite Nat2Z.id.
  assert (Hstart : c = take i (delete i c) ++ drop i c).
  { by rewrite take_delete_le, take_drop by lia. }
  replace (buffer_of fd td c)
    with (buffer_of fd td (take i (delete i c) ++ drop i c))
    by (by rewrite <- Hstart).
  rewrite (shift_rows_table fd td c i (List.length c - 1 - i));
    try done; try lia.
  cbn [mbind option_bind].
  assert (Hl : List.length (delete i c ++ drop (List.length c - 1) c)
               = List.length c).
  { rewrite length_app, length_drop, length_delete_lt by lia. lia. }
  rewrite remove_last_row_table; try lia.
  - cbn [mbind option_bind]. rewrite Hl.
    rewrite take_app_length' by (rewrite length_delete_lt by lia; lia).
    done.
  - destruct Hc as [[H61 Hrs] Hts]. split; [split|].
    + by rewrite Hl.
    + apply Forall_app. split; [by apply Forall_delete|by apply Forall_drop].
    + apply Forall_app. split; [by apply Forall_delete|by apply Forall_drop].
Qed.

Lemma sample_table_width : width_inv (buffer_of 44 34 sample_table).
Proof.
  intros row Hrow. change (rows (buffer_of 44 34 sample_table)) with 3 in Hrow.
  assert (Hcase : row = 0 \/ row = 1 \/ row = 2) by lia.
  destruct Hcase as [->|[->| ->]]; eexists; (split; [vm_compute; reflexivity|lia]).
Qed.

(** X19.  [csv_remove_row] deletes an existing row and moves the later
    rows one place up, in a buffer of at least two rows (and at most 2^31)
    whose rows all have a field. *)
Theorem csv_remove_row_deletes_row (b : CSV_BUFFER) (i : nat) :
  buffer_ok b -> fields_ok b -> width_inv b ->
  0 <= Z.of_nat i < rows b ->
  2 <= rows b <= 2 ^ 31 ->
  exists b',
    csv_remove_row b (Z.of_nat i) = Some (0, b')
    /\ buffer_ok b' /\ fields_ok b'
    /\ cells b' = delete i (cells b)
    /\ rows b' = rows b - 1.
Proof.
  intros Hb Hfs Hinv Hi Hrows.
  pose proof (table_fine_cells _ Hb Hfs) as Hc.
  pose proof (width_inv_cells _ Hb Hinv) as Hne.
  assert (Hlen : rows b = Z.of_nat (List.length (cells b))).
  { destruct Hb as (Hr & _). unfold cells. by rewrite length_map. }
  destruct (via_table (fun b => csv_remove_row b (Z.of_nat i)) b 0
              (delete i (cells b)) Hb Hfs)
    as (b' & Hrun & Hb' & Hfs' & Hcells & _).
  - apply csv_remove_row_table; try done; lia.
  - destruct Hc as [[H61 Hrs] Hts]. split; [split|].
    + pose proof (length_delete_le (cells b) i). lia.
    + by apply Forall_delete.
    + by apply Forall_delete.
  - exists b'. split_and!; try done.
    destruct Hb' as (Hr' & _). rewrite Hr'.
    transitivity (Z.of_nat (List.length (cells b'))).
    { unfold cells. by rewrite length_map. }
    rewrite Hcells, length_delete_lt by lia. lia.
Qed.

Lemma csv_remove_row_deletes_row_witness :
  exists b',
    csv_remove_row (buffer_of 44 34 sample_table) (Z.of_nat 0) = Some (0, b')
    /\ buffer_ok b' /\ fields_ok b'
    /\ cells b' = delete 0%nat (cells (buffer_of 44 34 sample_table))
    /\ rows b' = rows (buffer_of 44 34 sample_table) - 1.
Proof.
  apply (csv_remove_row_deletes_row (buffer_of 44 34 sample_table) 0).
  - apply sample_table_ok.
  - apply sample_table_ok.
  - apply sample_table_width.
  - simpl. lia.
  - simpl. lia.
Defined.

(** ** Appending *)

(** X20.  [append_row] with successful allocations adds one row holding one
    empty field after the rows of the buffer. *)
Theorem append_row_adds_empty_row (b : CSV_BUFFER) :
  buffer_ok b -> fields_ok b -> rows b + 1 < 2 ^ 61 ->
  exists b',
    append_row [] b = Some (0, b', [])
    /\ buffer_ok b' /\ fields_ok b'
    /\ cells b' = cells b ++ [[[]]]
    /\ rows b' = rows b + 1.
Proof.
  intros Hb Hfs Hrows. pose proof (table_fine_cells _ Hb Hfs) as Hc.
  assert (Hlen : rows b = Z.of_nat (List.length (cells b))).
  { destruct Hb as (Hr & _). unfold cells. by rewrite length_map. }
  assert (Hc' : table_fine (cells b ++ [[[]]])).
  { destruct Hc as [[H61 Hrs] Hts]. split; [split|].
    - rewrite length_app. simpl. lia.
    - apply Forall_app. split; [done|]. by repeat constructor.
    - apply Forall_app. split; [done|].
      repeat constructor; apply text_fine_nil. }
  destruct (buffer_of_fine (field_delim b) (text_delim b) _ Hc') as [Hb' Hfs'].
  exists (buffer_of (field_delim b) (text_delim b) (cells b ++ [[[]]])).
  split_and!; try done.
  - rewrite (buffer_of_cells b Hb Hfs) at 1.
    apply append_row_of, Hc'.
  - apply cells_buffer_of.
  - rewrite rows_of, length_app, Hlen. simpl. lia.
Qed.

Lemma append_row_adds_empty_row_witness :
  exists b',
    append_row [] (buffer_of 44 34 sample_table) = Some (0, b', [])
    /\ buffer_ok b' /\ fields_ok b'
    /\ cells b' = cells (buffer_of 44 34 sample_table) ++ [[[]]]
    /\ rows b' = rows (buffer_of 44 34 sample_table) + 1.
Proof.
  apply (append_row_adds_empty_row (buffer_of 44 34 sample_table)).
  - apply sample_table_ok.
  - apply sample_table_ok.
  - simpl. lia.
Defined.

(** X21.  [append_field] with a successful allocation adds one empty field
    at the end of an existing row whose width stays an [int]; every other
    row is untouched. *)
Theorem append_field_adds_empty_field
    (b : CSV_BUFFER) (i : nat) (r : list (list Z)) :
  buffer_ok b -> fields_ok b ->
  cells b !! i = Some r -> Z.of_nat (List.length r) + 1 <= INT_MAX ->
  exists b',
    append_field [] b (Z.of_nat i) = Some (0, b', [])
    /\ buffer_ok b' /\ fields_ok b'
    /\ cells b' = <[i := r ++ [[]]]> (cells b).
Proof.
  intros Hb Hfs Hi Hmax. pose proof (table_fine_cells _ Hb Hfs) as Hc.
  destruct (table_fine_row _ _ _ Hc Hi) as [_ Hrt].
  assert (Hc' : table_fine (<[i := r ++ [[]]]> (cells b))).
  { apply table_fine_insert; [done| |].
    - rewrite length_app. simpl. lia.
    - apply Forall_app. split; [done|].
      repeat constructor; apply text_fine_nil. }
  destruct (buffer_of_fine (field_delim b) (text_delim b) _ Hc') as [Hb' Hfs'].
  exists (buffer_of (field_delim b) (text_delim b) (<[i := r ++ [[]]]> (cells b))).
  split_and!; try done.
  - rewrite (buffer_of_cells b Hb Hfs) at 1.
    by apply append_field_table.
  - apply cells_buffer_of.
Qed.

Lemma append_field_adds_empty_field_witness :
  exists b',
    append_field [] (buffer_of 44 34 sample_table) (Z.of_nat 1)
    = Some (0, b', [])
    /\ buffer_ok b' /\ fields_ok b'
    /\ cells b' = <[1%nat := [[100]] ++ [[]]]>
                    (cells (buffer_of 44 34 sample_table)).
Proof.
  apply (append_field_adds_empty_field (buffer_of 44 34 sample_table)
           1 [[100]]).
  - apply sample_table_ok.
  - apply sample_table_ok.
  - reflexivity.
  - unfold INT_MAX. simpl. lia.
Defined.

(** X22.  When the second allocation of [append_row] fails, the function
    returns 2 after freeing the grown width array, which the buffer still
    points to: the buffer keeps its rows, and every later read of a width
    is a fault. *)
Theorem append_row_failure_frees_width (b : CSV_BUFFER) (a : oracle) :
  buffer_ok b -> rows b + 1 < 2 ^ 61 ->
  exists b',
    append_row (true :: false :: a) b = Some (2, b', a)
    /\ rows b' = rows b /\ field b' = field b
    /\ forall row, load (width b') row = None.
Proof.
  intros (Hrows & Hlt & HF) Hfit. pose proof HF as Hlen%Forall2_length.
  unfold append_row. cbn [realloc_ok negb].
  rewrite realloc_Some by lia. cbn [mbind option_bind].
  rewrite store_ok by (rewrite length_resize; lia).
  cbn [mbind option_bind negb].
  eexists. split_and!; [reflexivity|done|done|].
  intros row. unfold load. cbn [width with_width].
  by destruct (0 <=? row).
Qed.

Lemma append_row_failure_frees_width_witness :
  exists b',
    append_row (true :: false :: []) (buffer_of 44 34 sample_table)
    = Some (2, b', [])
    /\ rows b' = rows (buffer_of 44 34 sample_table)
    /\ field b' = field (buffer_of 44 34 sample_table)
    /\ forall row, load (width b') row = None.
Proof.
  apply (append_row_failure_frees_width (buffer_of 44 34 sample_table) []).
  - apply sample_table_ok.
  - simpl. lia.
Defined.

(** ** Cells and rows that do not exist *)

Lemma load_past {A} (l : list A) i :
  Z.of_nat (List.length l) <= i -> load l i = None.
Proof.
  intros. destruct (load l i) as [x|] eqn:E; [|done].
  apply load_lt in E. lia.
Qed.

(** X23.  [csv_clear_row] has no range check: for a row past the end of a
    buffer with rows it reads [width[row]] outside the array. *)
Theorem csv_clear_row_faults_on_absent_row (b : CSV_BUFFER) (row : Z) :
  buffer_ok b -> 1 <= rows b -> rows b <= row < 2 ^ 64 ->
  csv_clear_row b row = None.
Proof.
  intros (Hrows & Hlt & HF) H1 Hrow. pose proof HF as Hlen%Forall2_length.
  unfold csv_clear_row. rewrite wrap64_small by lia.
  destruct (Z.eqb_spec row (rows b - 1)); [lia|].
  rewrite (load_past (width b)) by lia. reflexivity.
Qed.

Lemma csv_clear_row_faults_on_absent_row_witness :
  csv_clear_row (buffer_of 44 34 sample_table) 3 = None.
Proof.
  apply (csv_clear_row_faults_on_absent_row (buffer_of 44 34 sample_table) 3).
  - apply sample_table_ok.
  - simpl. lia.
  - simpl. lia.
Defined.

(** X24.  On a buffer with rows, none of them empty, [csv_clear_field] and
    [csv_remove_field] return 0 and change nothing when the cell does not
    exist and its row and entry are below [SIZE_MAX] (at [SIZE_MAX] the
    test [entry + 1] of [csv_clear_field] wraps, see below). *)
Theorem absent_cell_is_left_alone (b : CSV_BUFFER) (row entry : Z) :
  buffer_ok b -> width_inv b -> 1 <= rows b ->
  0 <= row < 2 ^ 64 - 1 -> 0 <= entry < 2 ^ 64 - 1 ->
  cell b row entry = None ->
  csv_clear_field b row entry = Some (0, b)
  /\ csv_remove_field b row entry = Some (0, b).
Proof.
  intros Hb Hinv H1 Hrow Hent Hcell.
  pose proof Hb as (Hrows & Hlt & HF).
  unfold csv_clear_field, csv_clear_field_with, csv_remove_field.
  rewrite !wrap64_small by lia.
  destruct (Z.ltb_spec (rows b) (row + 1)) as [Hout|Hin].
  - destruct (Z.ltb_spec (rows b - 1) row); [done|lia].
  - destruct (Z.ltb_spec (rows b - 1) row); [lia|].
    destruct (buffer_ok_in_range b row Hb) as [r Hr]; [lia|].
    destruct (buffer_ok_row _ _ _ Hb Hr) as (_ & Hw & Hmax).
    destruct (Hinv row) as (w & Hw' & Hw1); [lia|].
    rewrite Hw in Hw'. injection Hw' as <-.
    rewrite Hw. cbn [mbind option_bind].
    unfold INT_MAX in Hmax. rewrite wrap64_small by lia.
    assert (Hge : Z.of_nat (List.length r) <= entry).
    { unfold cell in Hcell. rewrite Hr in Hcell. cbn in Hcell.
      destruct (Z.le_gt_cases (Z.of_nat (List.length r)) entry); [done|].
      destruct (lookup_lt_is_Some_2 r (Z.to_nat entry)) as [f Hf]; [lia|].
      assert (load r entry = Some f) by (apply load_Some; split; [lia|done]).
      congruence. }
    destruct (Z.ltb_spec (Z.of_nat (List.length r)) (entry + 1)); [|lia].
    destruct (Z.ltb_spec (Z.of_nat (List.length r) - 1) entry); [done|lia].
Qed.

Lemma absent_cell_is_left_alone_witness :
  csv_clear_field (buffer_of 44 34 sample_table) 1 1
  = Some (0, buffer_of 44 34 sample_table)
  /\ csv_remove_field (buffer_of 44 34 sample_table) 1 1
     = Some (0, buffer_of 44 34 sample_table).
Proof.
  apply (absent_cell_is_left_alone (buffer_of 44 34 sample_table) 1 1).
  - apply sample_table_ok.
  - apply sample_table_width.
  - simpl. lia.
  - lia.
  - lia.
  - reflexivity.
Defined.

(** X29.  At [SIZE_MAX] the range test of [csv_clear_field] wraps: for the
    row [SIZE_MAX], and for the entry [SIZE_MAX] of a row that exists and
    has a field, [row + 1] or [entry + 1] is 0, the test passes, and the
    function reads outside the arrays. *)
Theorem csv_clear_field_faults_at_size_max
    (b : CSV_BUFFER) (row entry : Z) (r : list CSV_FIELD) :
  buffer_ok b -> 1 <= rows b ->
  load (field b) row = Some r -> r <> [] ->
  0 <= entry < 2 ^ 64 ->
  csv_clear_field b (2 ^ 64 - 1) entry = None
  /\ csv_clear_field b row (2 ^ 64 - 1) = None.
Proof.
  intros Hb H1 Hr Hne Hent. pose proof Hb as (Hrows & Hlt & HF).
  pose proof HF as Hlen%Forall2_length.
  destruct (buffer_ok_row _ _ _ Hb Hr) as (Hrow & Hw & Hmax).
  unfold INT_MAX in Hmax.
  assert (Hr1 : 1 <= Z.of_nat (List.length r)).
  { destruct r; [done|]. simpl. lia. }
  unfold csv_clear_field, csv_clear_field_with. split.
  - replace (2 ^ 64 - 1 + 1) with (2 ^ 64) by lia.
    change (wrap64 (2 ^ 64)) with 0.
    destruct (Z.ltb_spec (rows b) 0); [lia|].
    rewrite load_past by lia. reflexivity.
  - rewrite wrap64_small by lia.
    destruct (Z.ltb_spec (rows b) (row + 1)); [lia|].
    rewrite Hw. cbn [mbind option_bind].
    replace (2 ^ 64 - 1 + 1) with (2 ^ 64) by lia.
    change (wrap64 (2 ^ 64)) with 0.
    destruct (Z.ltb_spec (Z.of_nat (List.length r)) 0); [lia|].
    rewrite wrap64_small by lia.
    destruct (Z.eqb_spec (2 ^ 64 - 1) (Z.of_nat (List.length r) - 1)); [lia|].
    cbn [andb]. unfold cell. rewrite Hr. cbn [mbind option_bind].
    rewrite load_past by lia. reflexivity.
Qed.

Lemma csv_clear_field_faults_at_size_max_witness :
  csv_clear_field (buffer_of 44 34 sample_table) (2 ^ 64 - 1) 0 = None
  /\ csv_clear_field (buffer_of 44 34 sample_table) 1 (2 ^ 64 - 1) = None.
Proof.
  apply (csv_clear_field_faults_at_size_max (buffer_of 44 34 sample_table)
           1 0 [field_of [100]]).
  - apply sample_table_ok.
  - simpl. lia.
  - reflexivity.
  - discriminate.
  - lia.
Defined.

(** X25.  On a buffer with rows, [csv_remove_row] returns 0 and changes
    nothing for a row past the end. *)
Theorem csv_remove_row_absent_row_is_left_alone (b : CSV_BUFFER) (row : Z) :
  buffer_ok b -> 1 <= rows b -> rows b <= row < 2 ^ 64 ->
  csv_remove_row b row = Some (0, b).
Proof.
  intros (Hrows & Hlt & HF) H1 Hrow.
  unfold csv_remove_row. rewrite wrap64_small by lia.
  by destruct (Z.ltb_spec (rows b - 1) row); [|lia].
Qed.

Lemma csv_remove_row_absent_row_is_left_alone_witness :
  csv_remove_row (buffer_of 44 34 sample_table) 3
  = Some (0, buffer_of 44 34 sample_table).
Proof.
  apply (csv_remove_row_absent_row_is_left_alone
           (buffer_of 44 34 sample_table) 3).
  - apply sample_table_ok.
  - simpl. lia.
  - simpl. lia.
Defined.

(** ** Delimiters, height, and copying a row that does not exist *)

Lemma csv_save_table fd td c :
  table_fine c -> Forall (fun r => r <> []) c -> fd <> 0 -> td <> 0 ->
  csv_save true (buffer_of fd td c) = Some (0, written_rows fd td c).
Proof.
  intros Hc Hne Hfd Htd.
  unfold csv_save. cbn [negb]. rewrite rows_of, Nat2Z.id.
  pose proof (save_rows_fine fd td c [] c [] Hc Hne Hfd Htd eq_refl) as H.
  cbn [List.length app] in H. change (Z.of_nat 0) with 0 in H.
  by rewrite H.
Qed.

(** X26.  [csv_set_field_delim] and [csv_set_text_delim] change no cell,
    and [csv_save] afterwards writes the same table with the new
    delimiters. *)
Theorem csv_set_delims_then_save (b : CSV_BUFFER) (fd td : Z) :
  buffer_ok b -> fields_ok b -> width_inv b -> fd <> 0 -> td <> 0 ->
  cells (csv_set_field_delim (csv_set_text_delim b td) fd) = cells b
  /\ buffer_ok (csv_set_field_delim (csv_set_text_delim b td) fd)
  /\ csv_save true (csv_set_field_delim (csv_set_text_delim b td) fd)
     = Some (0, written_rows fd td (cells b)).
Proof.
  intros Hb Hfs Hinv Hfd Htd.
  pose proof (table_fine_cells _ Hb Hfs) as Hc.
  pose proof (width_inv_cells _ Hb Hinv) as Hne.
  split; [done|]. split; [exact Hb|].
  rewrite <- (csv_save_table fd td (cells b)) by done. f_equal.
  rewrite (buffer_of_cells b Hb Hfs) at 1. reflexivity.
Qed.

Lemma csv_set_delims_then_save_witness :
  cells (csv_set_field_delim (csv_set_text_delim quoting_buffer 39) 59)
  = cells quoting_buffer
  /\ buffer_ok (csv_set_field_delim (csv_set_text_delim quoting_buffer 39) 59)
  /\ csv_save true (csv_set_field_delim (csv_set_text_delim quoting_buffer 39) 59)
     = Some (0, written_rows 59 39 (cells quoting_buffer)).
Proof.
  apply (csv_set_delims_then_save quoting_buffer 59 39).
  - repeat split; try done. repeat constructor; done.
  - repeat constructor; unfold is_char; simpl; lia.
  - intros row Hrow. simpl in Hrow.
    destruct (Z.eq_dec row 0) as [->|]; [exists 2; split; [reflexivity|lia]|].
    assert (row = 1) as -> by lia. exists 1; split; [reflexivity|lia].
  - discriminate.
  - discriminate.
Defined.

(** X27.  [csv_get_height] is the number of rows of the table, as long as
    it fits the [int] the function returns. *)
Theorem csv_get_height_counts_rows (b : CSV_BUFFER) :
  buffer_ok b -> rows b <= INT_MAX ->
  csv_get_height b = Z.of_nat (List.length (cells b)).
Proof.
  intros (Hrows & _ & _) Hmax. unfold INT_MAX in Hmax.
  unfold csv_get_height, cells. rewrite length_map, <- Hrows.
  apply to_int_small. lia.
Qed.

Lemma csv_get_height_counts_rows_witness :
  csv_get_height (buffer_of 44 34 sample_table)
  = Z.of_nat (List.length (cells (buffer_of 44 34 sample_table))).
Proof.
  apply (csv_get_height_counts_rows (buffer_of 44 34 sample_table)).
  - apply sample_table_ok.
  - unfold INT_MAX. simpl. lia.
Defined.

(** X28.  [csv_copy_row] from a source row past the end does not fail: it
    clears the destination row instead, leaving it with one empty field
    when it is not the last row. *)
Theorem csv_copy_row_from_absent_row_clears
    (b : CSV_BUFFER) (d : nat) (r : list (list Z)) (s : Z) :
  buffer_ok b -> fields_ok b ->
  cells b !! d = Some r -> r <> [] ->
  d <> (List.length (cells b) - 1)%nat ->
  rows b <= s < 2 ^ 64 ->
  exists b',
    csv_copy_row b (Z.of_nat d) s = Some (0, b')
    /\ buffer_ok b' /\ fields_ok b'
    /\ cells b' = <[d := [[]]]> (cells b).
Proof.
  intros Hb Hfs Hd Hr Hlast Hs.
  pose proof (table_fine_cells _ Hb Hfs) as Hc.
  assert (Hlen : rows b = Z.of_nat (List.length (cells b))).
  { destruct Hb as (Hrows & _). unfold cells. by rewrite length_map. }
  pose proof (lookup_lt_Some _ _ _ Hd) as Hdlt.
  destruct (via_table (fun b => csv_copy_row b (Z.of_nat d) s) b 0
              (<[d := [[]]]> (cells b)) Hb Hfs)
    as (b' & ? & ? & ? & ? & _).
  - unfold csv_copy_row. rewrite rows_of, wrap64_small by lia.
    destruct (Z.ltb_spec (Z.of_nat (List.length (cells b)) - 1) s); [|lia].
    destruct r as [|x r]; [done|].
    by rewrite (csv_clear_row_inner _ _ _ _ x r).
  - apply table_fine_insert; [done|by unfold INT_MAX|].
    repeat constructor; apply text_fine_nil.
  - eauto.
Qed.

Lemma csv_copy_row_from_absent_row_clears_witness :
  exists b',
    csv_copy_row (buffer_of 44 34 sample_table) (Z.of_nat 0) 7 = Some (0, b')
    /\ buffer_ok b' /\ fields_ok b'
    /\ cells b' = <[0%nat := [[]]]> (cells (buffer_of 44 34 sample_table)).
Proof.
  apply (csv_copy_row_from_absent_row_clears (buffer_of 44 34 sample_table)
           0 [[97]; [98]; [99]] 7).
  - apply sample_table_ok.
  - apply sample_table_ok.
  - reflexivity.
  - discriminate.
  - simpl. lia.
  - simpl. lia.
Defined.
